(** * Flashcard generation engine of the study app

    A shallow embedding of the server side of the flashcard generator
    (the Hono application: sizing estimator, key-term extractor, the four
    heuristic card builders, the heuristic coordinator, the AI tier
    coordinator and the request handler) together with the properties
    that the design document states about them, and of what stands around
    it: persistence, the progress, upload and listing endpoints, the answer
    checker and the navigation of the study view, and the file picker of
    the client.

    Conventions of the embedding.
    - A JavaScript string is a [string]; each [ascii] is read as one
      UTF-16 code unit in the range U+0000..U+00FF, so the development
      covers notes written in Latin-1.  [String.length] is the JavaScript
      [length].
    - Non-negative JavaScript integers (counts, indices, targets) are
      [nat]; clock readings are [N].
    - Arithmetic on doubles.  The code multiplies a count by 0.7, 0.5, 0.4,
      0.3 or 0.2 and takes [Math.floor] or [Math.ceil]; the embedding uses
      exact integer arithmetic ([n * 7 / 10] for the floor of [n * 0.7],
      [(n * 3 + 9) / 10] for the ceiling of [n * 0.3]).  The two agree
      wherever the result is used.  0.5 is a double.  The doubles nearest
      to 0.2 and 0.4 lie above them by a relative 2^-54, less than half a
      unit in the last place, so a product that is an integer exactly is
      rounded to that integer.  The double nearest to 0.3 lies below it,
      which a ceiling absorbs.  The double nearest to 0.7 lies below it as
      well, and a floor does not absorb that ([90 * 0.7] evaluates to
      62.99999999999999), but the floor of [n * 0.7] is only used under
      [Math.min(10, ...)]: from [n = 15] on both sides are 10, and below
      that the only integer product, [10 * 0.7], evaluates to 7.
    - [console.log] is not modelled.
    - [null] results are [None]. *)

From Stdlib Require Import Strings.String Strings.Ascii Lists.List.
From Stdlib Require Import Arith.Arith NArith.NArith Bool.Bool Lia.
From Stdlib Require Import Sorting.Permutation Sorting.Sorted.
From Stdlib Require Import Numbers.DecimalString Numbers.DecimalPos Numbers.DecimalN.
From Stdlib Require Import ZArith.ZArith QArith.QArith QArith.Qround.
Import ListNotations.
Open Scope string_scope.
Open Scope list_scope.
Open Scope nat_scope.

(** Concatenation of strings, as in a template literal. *)
Infix "+:+" := String.append (at level 60, right associativity).

(** ** JavaScript string primitives *)

Module Js.

(** Code unit of a character. *)
Definition code (c : ascii) : nat := nat_of_ascii c.

(** [\s] of the regular expressions, which is also what [trim] removes:
    TAB, LF, VT, FF, CR, SPACE and NO-BREAK SPACE. *)
Definition is_space (c : ascii) : bool :=
  let n := code c in
  ((9 <=? n) && (n <=? 13)) || (n =? 32) || (n =? 160).

Definition is_upper (c : ascii) : bool :=
  let n := code c in (65 <=? n) && (n <=? 90).

Definition is_lower (c : ascii) : bool :=
  let n := code c in (97 <=? n) && (n <=? 122).

Definition is_digit (c : ascii) : bool :=
  let n := code c in (48 <=? n) && (n <=? 57).

(** [\w]: letters, digits and the underscore. *)
Definition is_word (c : ascii) : bool :=
  is_upper c || is_lower c || is_digit c || (code c =? 95).

(** The class [[.!?]]. *)
Definition is_terminator (c : ascii) : bool :=
  let n := code c in (n =? 46) || (n =? 33) || (n =? 63).

Definition is_blank (c : ascii) : bool := code c =? 32.

(** [toLowerCase] on one code unit: A-Z, and the Latin-1 capitals
    U+00C0..U+00DE without the multiplication sign U+00D7. *)
Definition lower_char (c : ascii) : ascii :=
  let n := code c in
  if is_upper c then ascii_of_nat (n + 32)
  else if (192 <=? n) && (n <=? 222) && negb (n =? 215)
       then ascii_of_nat (n + 32)
       else c.

Fixpoint map_chars (f : ascii -> ascii) (s : string) : string :=
  match s with
  | EmptyString => EmptyString
  | String c r => String (f c) (map_chars f r)
  end.

Fixpoint filter_chars (p : ascii -> bool) (s : string) : string :=
  match s with
  | EmptyString => EmptyString
  | String c r => if p c then String c (filter_chars p r) else filter_chars p r
  end.

Fixpoint all_chars (p : ascii -> bool) (s : string) : bool :=
  match s with
  | EmptyString => true
  | String c r => p c && all_chars p r
  end.

(** [s.toLowerCase()] *)
Definition toLowerCase (s : string) : string := map_chars lower_char s.

(** [s.replace(/[^\w]/g, '')] *)
Definition strip_non_word (s : string) : string := filter_chars is_word s.

Fixpoint trimStart (s : string) : string :=
  match s with
  | EmptyString => EmptyString
  | String c r => if is_space c then trimStart r else s
  end.

Fixpoint trimEnd (s : string) : string :=
  match s with
  | EmptyString => EmptyString
  | String c r =>
      match trimEnd r with
      | EmptyString => if is_space c then EmptyString else String c EmptyString
      | t => String c t
      end
  end.

(** [s.trim()] *)
Definition trim (s : string) : string := trimEnd (trimStart s).

(** Puts a character in front of the first piece of a split. *)
Definition cons_head (c : ascii) (pieces : list string) : list string :=
  match pieces with
  | [] => [String c EmptyString]
  | p :: ps => String c p :: ps
  end.

(** [s.split(sep)] for a one-character separator string: every
    occurrence of the separator ends a piece, and pieces may be empty. *)
Fixpoint split_each (sep : ascii -> bool) (s : string) : list string :=
  match s with
  | EmptyString => [EmptyString]
  | String c r =>
      if sep c then EmptyString :: split_each sep r
      else cons_head c (split_each sep r)
  end.

(** [s.split(/[class]+/)]: a maximal run of separator characters ends a
    piece; [in_run] records that the previous character was a separator. *)
Fixpoint split_runs_from (sep : ascii -> bool) (in_run : bool) (s : string)
  : list string :=
  match s with
  | EmptyString => [EmptyString]
  | String c r =>
      if sep c then
        if in_run then split_runs_from sep true r
        else EmptyString :: split_runs_from sep true r
      else cons_head c (split_runs_from sep false r)
  end.

Definition split_runs (sep : ascii -> bool) (s : string) : list string :=
  split_runs_from sep false s.

(** [s.split(/\s+/)], [s.split(/[.!?]+/)] and [s.split(' ')]. *)
Definition split_whitespace : string -> list string := split_runs is_space.
Definition split_sentences : string -> list string := split_runs is_terminator.
Definition split_blank : string -> list string := split_each is_blank.

Fixpoint drop (n : nat) (s : string) : string :=
  match n, s with
  | O, _ => s
  | S _, EmptyString => EmptyString
  | S m, String _ r => drop m r
  end.

(** [s.includes(t)] *)
Fixpoint includes (s t : string) : bool :=
  if prefix t s then true
  else match s with
       | EmptyString => false
       | String _ r => includes r t
       end.

(** [s.replace(pat, rep)] for a string pattern and a replacement without
    dollar signs: the first occurrence of [pat] is replaced. *)
Fixpoint replace_first (s pat rep : string) : string :=
  if prefix pat s then rep +:+ drop (String.length pat) s
  else match s with
       | EmptyString => EmptyString
       | String c r => String c (replace_first r pat rep)
       end.

(** [s.match(/^[A-Z][a-z]+/)] succeeds. *)
Definition starts_capitalised (s : string) : bool :=
  match s with
  | String a (String b _) => is_upper a && is_lower b
  | _ => false
  end.

(** Decimal rendering of a number inside a template literal. *)
Definition show_N (n : N) : string := NilZero.string_of_uint (N.to_uint n).
Definition show_nat (n : nat) : string := show_N (N.of_nat n).

(** [String.fromCharCode(n)] for [n < 256]. *)
Definition fromCharCode (n : nat) : string := String (ascii_of_nat n) EmptyString.

End Js.

(** ** Sizing estimator *)

(** The sentence pool: [notes.split(/[.!?]+/).filter(s => s.trim().length > 10)]. *)
Definition usable_sentence (s : string) : bool :=
  10 <? String.length (Js.trim s).

Definition sentences_of (notes : string) : list string :=
  filter usable_sentence (Js.split_sentences notes).

Definition wordCount_of (notes : string) : nat :=
  List.length (Js.split_whitespace notes).

Definition sentenceCount_of (notes : string) : nat :=
  List.length (sentences_of notes).

Definition calculateQuestionCount (notes : string) : nat :=
  let wordCount := wordCount_of notes in
  let sentenceCount := sentenceCount_of notes in
  if wordCount <? 100 then Nat.min 5 sentenceCount
  else if wordCount <? 300 then Nat.min 10 (sentenceCount * 7 / 10)
  else if wordCount <? 600 then Nat.min 20 (sentenceCount * 5 / 10)
  else Nat.min 30 (sentenceCount * 4 / 10).

(** ** Data model *)

Inductive Difficulty := basic | intermediate | advanced.

Inductive CardType :=
  ai_generated | fill_blank | definition | true_false | multiple_choice.

Record Flashcard := mkCard {
  id : string;
  question : string;
  answer : string;
  difficulty : Difficulty;
  type : CardType
}.

(** What a builder call draws from outside: the reading of [Date.now()]
    and the outcome of [sort(() => Math.random() - 0.5)] on an array. *)
Record Chance := mkChance {
  Date_now : N;
  sort_random : list string -> list string
}.

(** ** Key-term extractor *)

Module KeyTerms.

(** A value stored in [termFreq]: a count, or the string that results from
    adding 1 to something that is not a number. *)
Inductive Freq := Count (n : nat) | NotANumber.

(** The own properties of [termFreq], in order of creation. *)
Definition Obj := list (string * Freq).

Fixpoint own (k : string) (o : Obj) : option Freq :=
  match o with
  | [] => None
  | (k', v) :: r => if (k' =? k)%string then Some v else own k r
  end.

Fixpoint assign (k : string) (v : Freq) (o : Obj) : Obj :=
  match o with
  | [] => [(k, v)]
  | (k', v') :: r =>
      if (k' =? k)%string then (k, v) :: r else (k', v') :: assign k v r
  end.

(** [termFreq[cleaned] = (termFreq[cleaned] || 0) + 1].  [termFreq] is an
    object literal, so a read of an absent key falls through to
    [Object.prototype]: the only all-lower-case word keys found there are
    [constructor] (a function, so the sum is a string) and [__proto__]
    (an accessor whose setter ignores the string assigned to it). *)
Definition bump (cleaned : string) (o : Obj) : Obj :=
  match own cleaned o with
  | Some (Count n) => assign cleaned (Count (n + 1)) o
  | Some NotANumber => assign cleaned NotANumber o
  | None =>
      if (cleaned =? "__proto__")%string then o
      else if (cleaned =? "constructor")%string then assign cleaned NotANumber o
      else assign cleaned (Count 1) o
  end.

Fixpoint digits_value (acc : N) (s : string) : N :=
  match s with
  | EmptyString => acc
  | String c r => digits_value (acc * 10 + N.of_nat (Js.code c - 48))%N r
  end.

(** A key that is an array index: a canonical decimal numeral below
    2^32 - 1. *)
Definition is_array_index (k : string) : bool :=
  match k with
  | EmptyString => false
  | String c r =>
      Js.all_chars Js.is_digit k
      && (negb (Js.code c =? 48) || (String.length r =? 0))
      && (String.length k <=? 10)
      && (digits_value 0 k <=? 4294967294)%N
  end.

Fixpoint insert_index (e : string * Freq) (l : Obj) : Obj :=
  match l with
  | [] => [e]
  | h :: t =>
      if (digits_value 0 (fst e) <=? digits_value 0 (fst h))%N
      then e :: l else h :: insert_index e t
  end.

(** [Object.entries(o)]: array-index keys in ascending numeric order, then
    the other keys in order of creation. *)
Definition entries (o : Obj) : Obj :=
  fold_right insert_index [] (filter (fun e => is_array_index (fst e)) o)
  ++ filter (fun e => negb (is_array_index (fst e))) o.

(** [freq > 1] *)
Definition more_than_once (f : Freq) : bool :=
  match f with
  | Count n => 1 <? n
  | NotANumber => false
  end.

(** [[...new Set(l)]]: first occurrences, in order. *)
Fixpoint set_of (l : list string) : list string :=
  match l with
  | [] => []
  | x :: r => x :: filter (fun y => negb (y =? x)%string) (set_of r)
  end.

(** One round of [words.forEach]. *)
Definition visit (acc : Obj * list string) (word : string) : Obj * list string :=
  let (termFreq, keyTerms) := acc in
  let cleaned := Js.toLowerCase (Js.strip_non_word word) in
  let termFreq' :=
    if 3 <? String.length cleaned then bump cleaned termFreq else termFreq in
  let keyTerms' :=
    if Js.starts_capitalised word && (3 <? String.length word)
    then keyTerms ++ [Js.strip_non_word word] else keyTerms in
  (termFreq', keyTerms').

Definition frequent (o : Obj) : list string :=
  map fst (filter (fun e => more_than_once (snd e) && (4 <? String.length (fst e)))
                  (entries o)).

End KeyTerms.

Definition extractKeyTerms (text : string) : list string :=
  let words := Js.split_whitespace text in
  let (termFreq, keyTerms) := fold_left KeyTerms.visit words ([], []) in
  firstn 20 (KeyTerms.set_of (keyTerms ++ KeyTerms.frequent termFreq)).

(** ** Heuristic card builders *)

Definition newline : string := String (ascii_of_nat 10) EmptyString.
Definition dquote : string := String (ascii_of_nat 34) EmptyString.
Definition blank_marker : string := "______".
Definition none_of_the_above : string := "None of the above".

(** [`card_${Date.now()}_${index}_${suffix}`] *)
Definition card_id (ch : Chance) (index : nat) (suffix : string) : string :=
  "card_" +:+ Js.show_N (Date_now ch) +:+ "_" +:+ Js.show_nat index +:+ "_" +:+ suffix.

(** [pool[index % pool.length]] for a non-empty pool. *)
Definition cyclic (pool : list string) (index : nat) : string :=
  nth (index mod List.length pool) pool EmptyString.

(** [sentences.find(s => s.toLowerCase().includes(term.toLowerCase()))] *)
Definition find_sentence (sentences : list string) (term : string) : option string :=
  find (fun s => Js.includes (Js.toLowerCase s) (Js.toLowerCase term)) sentences.

(** A value tested by [if (x)]: [undefined] and the empty string are falsy. *)
Definition truthy (o : option string) : bool :=
  match o with
  | Some s => negb (s =? "")%string
  | None => false
  end.

Definition generateFillInBlankCard (ch : Chance) (sentences : list string) (index : nat)
  : option Flashcard :=
  match sentences with
  | [] => None
  | _ =>
      let sentence := Js.trim (cyclic sentences index) in
      let words := Js.split_blank sentence in
      if 5 <? List.length words then
        let keyWordIndex := List.length words / 2 in
        let keyWord := Js.strip_non_word (nth keyWordIndex words EmptyString) in
        let question :=
          Js.replace_first sentence (nth keyWordIndex words EmptyString) blank_marker in
        Some {| id := card_id ch index "fill";
                question := "Fill in the blank: " +:+ question;
                answer := keyWord;
                difficulty := basic;
                type := fill_blank |}
      else None
  end.

Definition generateDefinitionCard (ch : Chance) (keyTerms sentences : list string)
  (index : nat) : option Flashcard :=
  match keyTerms with
  | [] => None
  | _ =>
      let term := cyclic keyTerms index in
      let relevantSentence := find_sentence sentences term in
      match relevantSentence with
      | Some s =>
          if truthy relevantSentence then
            Some {| id := card_id ch index "def";
                    question := "What is " +:+ term +:+ "?";
                    answer := Js.trim s;
                    difficulty := intermediate;
                    type := definition |}
          else None
      | None => None
      end
  end.

Definition generateTrueFalseCard (ch : Chance) (sentences : list string) (index : nat)
  : option Flashcard :=
  match sentences with
  | [] => None
  | _ =>
      let sentence := Js.trim (cyclic sentences index) in
      Some {| id := card_id ch index "tf";
              question := "True or False: " +:+ sentence;
              answer := "True";
              difficulty := basic;
              type := true_false |}
  end.

(** [choices.indexOf(term)] *)
Fixpoint indexOf (term : string) (choices : list string) : option nat :=
  match choices with
  | [] => None
  | c :: r =>
      if (c =? term)%string then Some 0
      else option_map S (indexOf term r)
  end.

(** [`${choices[i]}`]: an absent element prints as [undefined]. *)
Definition shown (choices : list string) (i : nat) : string :=
  match nth_error choices i with
  | Some s => s
  | None => "undefined"
  end.

(** [`${choices[3] || 'None of the above'}`] *)
Definition shown_or_none (choices : list string) (i : nat) : string :=
  if truthy (nth_error choices i) then shown choices i else none_of_the_above.

(** The four options as they are printed after A), B), C) and D). *)
Definition displayed_options (choices : list string) : list string :=
  [shown choices 0; shown choices 1; shown choices 2; shown_or_none choices 3].

(** [String.fromCharCode(65 + choices.indexOf(term))], where [indexOf]
    gives -1 for a missing element. *)
Definition answer_letter (term : string) (choices : list string) : string :=
  match indexOf term choices with
  | Some i => Js.fromCharCode (65 + i)
  | None => Js.fromCharCode 64
  end.

Definition mc_question (relevantSentence : string) (options : list string) : string :=
  "Which term is described by: " +:+ dquote +:+ relevantSentence +:+ dquote +:+ "?"
  +:+ newline +:+ "A) " +:+ nth 0 options EmptyString
  +:+ newline +:+ "B) " +:+ nth 1 options EmptyString
  +:+ newline +:+ "C) " +:+ nth 2 options EmptyString
  +:+ newline +:+ "D) " +:+ nth 3 options EmptyString.

Definition generateMultipleChoiceCard (ch : Chance) (sentences keyTerms : list string)
  (index : nat) : option Flashcard :=
  match keyTerms, sentences with
  | [], _ | _, [] => None
  | _, _ =>
      let term := cyclic keyTerms index in
      let relevantSentence := find_sentence sentences term in
      match relevantSentence with
      | Some s =>
          if truthy relevantSentence then
            let otherTerms :=
              firstn 3 (filter (fun t => negb (t =? term)%string) keyTerms) in
            let choices := sort_random ch (term :: otherTerms) in
            Some {| id := card_id ch index "mc";
                    question := mc_question s (displayed_options choices);
                    answer := answer_letter term choices +:+ ") " +:+ term;
                    difficulty := advanced;
                    type := multiple_choice |}
          else None
      | None => None
      end
  end.

(** ** Heuristic generation coordinator *)

(** The [questionTypes] table, weights in tenths. *)
Definition questionTypes : list (CardType * nat) :=
  [(fill_blank, 3); (definition, 3); (true_false, 2); (multiple_choice, 2)].

(** [Math.ceil(targetCount * weight)] for a weight of [tenths / 10]. *)
Definition typeCount (targetCount tenths : nat) : nat :=
  (targetCount * tenths + 9) / 10.

(** The [switch] on the archetype; [chance] gives what the call at a
    cursor draws from the clock and from [Math.random]. *)
Definition build (chance : nat -> Chance) (sentences keyTerms : list string)
  (t : CardType) (cardCount : nat) : option Flashcard :=
  match t with
  | fill_blank => generateFillInBlankCard (chance cardCount) sentences cardCount
  | definition => generateDefinitionCard (chance cardCount) keyTerms sentences cardCount
  | true_false => generateTrueFalseCard (chance cardCount) sentences cardCount
  | multiple_choice =>
      generateMultipleChoiceCard (chance cardCount) sentences keyTerms cardCount
  | ai_generated => None
  end.

(** The two variables the loops update. *)
Record Loop := mkLoop {
  flashcards : list Flashcard;
  cardCount : nat
}.

(** [for (let i = 0; i < typeCount && cardCount < targetCount; i++)], with
    [rounds] the number of values of [i] still to come. *)
Fixpoint fill_quota (builder : nat -> option Flashcard) (targetCount rounds : nat)
  (st : Loop) : Loop :=
  match rounds with
  | O => st
  | S rounds' =>
      if cardCount st <? targetCount then
        match builder (cardCount st) with
        | Some card =>
            fill_quota builder targetCount rounds'
              {| flashcards := flashcards st ++ [card];
                 cardCount := cardCount st + 1 |}
        | None => fill_quota builder targetCount rounds' st
        end
      else st
  end.

Definition run_types (chance : nat -> Chance) (sentences keyTerms : list string)
  (targetCount : nat) (types : list (CardType * nat)) (st : Loop) : Loop :=
  fold_left
    (fun st questionType =>
       fill_quota (build chance sentences keyTerms (fst questionType)) targetCount
         (typeCount targetCount (snd questionType)) st)
    types st.

Definition generateAdvancedFlashcards (chance : nat -> Chance) (notes : string)
  (targetCount : nat) : list Flashcard :=
  let sentences := sentences_of notes in
  let keyTerms := extractKeyTerms notes in
  let st := run_types chance sentences keyTerms targetCount questionTypes
              {| flashcards := []; cardCount := 0 |} in
  firstn targetCount (flashcards st).

(** ** Collaborators: key-value store, clock and text-generation service *)

Inductive Status := not_started | generating | completed.

Record GenerationProgress := mkProgress {
  current : nat;
  total : nat;
  status : Status
}.

Record NoteRecord := mkNote {
  note_id : string;
  content : string;
  note_createdAt : N
}.

Record SavedFlashcard := mkSaved {
  card : Flashcard;
  userId : string;
  noteId : string;
  createdAt : N
}.

Inductive KvValue :=
  | Progress (p : GenerationProgress)
  | Note (n : NoteRecord)
  | Saved (f : SavedFlashcard).

(** What one call of the text-generation service comes to. *)
Inductive TierReply :=
  | Transport_error                       (* [fetch] rejects *)
  | Not_ok                                (* [response.ok] is false *)
  | Malformed_body                        (* [response.json()] rejects, or the
                                             value read from it cannot be used *)
  | Generated (generated_text : string).  (* [result[0]?.generated_text || ''] *)

Record FetchRequest := mkRequest {
  bearer : string;
  inputs : string;
  temperature_tenths : nat
}.

Inductive Exn := Kv_error | Fetch_error | Body_error.

(** The outside world of one request.  Every effect (a clock reading, a
    store write, a service call, a builder call) happens at a tick, and the
    world says what it comes to at that tick.  [match_pairs] and
    [match_groups] are the regular-expression engine on the two patterns of
    [parseFlashcards]: the matches of
    [/Q:\s*(.+?)\s*A:\s*(.+?)(?=Q:|$)/gi] in a text, and the two groups of
    [/Q:\s*(.+?)\s*A:\s*(.+)/i] in one match. *)
Record Env := mkEnv {
  HUGGINGFACE_API_KEY : option string;
  chance_at : nat -> Chance;
  kv_fault : nat -> bool;
  service : nat -> TierReply;
  match_pairs : string -> list string;
  match_groups : string -> option (string * string)
}.

(** The state a request runs in: the tick, the history of successful
    [kv.set] calls (the store holds the last value written under each key)
    and the requests sent to the service. *)
Record World := mkWorld {
  tick : nat;
  kv_writes : list (string * KvValue);
  requests : list FetchRequest
}.

(** Modelled from the spec: the key-value store of [kv_store.tsx], which
    is not among the sources.  [get(key)] gives the value last set under
    the key, or nothing; [set(key, value)] stores the value, or fails with
    a persistence error. *)
Definition kv_get (key : string) (w : World) : option KvValue :=
  option_map snd (find (fun e => (fst e =? key)%string) (rev (kv_writes w))).

Inductive Outcome (A : Type) :=
  | Returned (a : A)
  | Thrown (e : Exn).
Arguments Returned {A} a.
Arguments Thrown {A} e.

(** Computations that read and change the world and may throw. *)
Definition M (A : Type) : Type := World -> Outcome A * World.

Definition ret {A} (a : A) : M A := fun w => (Returned a, w).

Definition bind {A B} (m : M A) (k : A -> M B) : M B :=
  fun w =>
    match m w with
    | (Returned a, w') => k a w'
    | (Thrown e, w') => (Thrown e, w')
    end.

Definition try_catch {A} (m : M A) (handler : Exn -> M A) : M A :=
  fun w =>
    match m w with
    | (Returned a, w') => (Returned a, w')
    | (Thrown e, w') => handler e w'
    end.

Notation "x <- m ;; k" := (bind m (fun x => k))
  (at level 61, m at next level, right associativity).
Notation "m ;;; k" := (bind m (fun _ => k))
  (at level 61, right associativity).

Definition advance (n : nat) (w : World) : World :=
  {| tick := tick w + n; kv_writes := kv_writes w; requests := requests w |}.

Section Effects.

Variable env : Env.

(** [Date.now()] *)
Definition date_now : M N :=
  fun w => (Returned (Date_now (chance_at env (tick w))), advance 1 w).

(** Modelled from the spec: [await kv.set(key, value)] of [kv_store.tsx]
    stores the value, or throws when the store refuses the write; the
    world says at which ticks it does. *)
Definition kv_set (key : string) (value : KvValue) : M unit :=
  fun w =>
    if kv_fault env (tick w) then (Thrown Kv_error, advance 1 w)
    else (Returned tt,
          {| tick := tick w + 1;
             kv_writes := kv_writes w ++ [(key, value)];
             requests := requests w |}).

(** [await fetch(url, {...})] followed by the reading of the body. *)
Definition fetch (request : FetchRequest) : M (option string) :=
  fun w =>
    let w' := {| tick := tick w + 1;
                 kv_writes := kv_writes w;
                 requests := requests w ++ [request] |} in
    match service env (tick w) with
    | Transport_error => (Thrown Fetch_error, w')
    | Not_ok => (Returned None, w')
    | Malformed_body => (Thrown Body_error, w')
    | Generated text => (Returned (Some text), w')
    end.

(** A synchronous function that makes builder calls at cursors below
    [span]: the call at cursor [i] happens at tick [tick w + i]. *)
Definition draw {A} (span : nat) (f : (nat -> Chance) -> A) : M A :=
  fun w => (Returned (f (fun i => chance_at env (tick w + i))), advance span w).

End Effects.

(** ** AI tier coordinator *)

Definition difficulty_name (d : Difficulty) : string :=
  match d with
  | basic => "basic"
  | intermediate => "intermediate"
  | advanced => "advanced"
  end.

Definition createPromptForDifficulty (notes : string) (count : nat) (d : Difficulty)
  : string :=
  let basePrompt :=
    "Based on these study notes, generate " +:+ Js.show_nat count
    +:+ " question and answer pairs for flashcards." in
  let format :=
    " Format each as " +:+ dquote +:+ "Q: [question] A: [answer]" +:+ dquote
    +:+ ". Notes: " +:+ notes in
  match d with
  | basic =>
      basePrompt
      +:+ " Focus on basic facts, definitions, and simple recall questions." +:+ format
  | intermediate =>
      basePrompt
      +:+ " Focus on understanding, application, and analysis questions that require deeper thinking."
      +:+ format
  | advanced =>
      basePrompt
      +:+ " Focus on synthesis, evaluation, and critical thinking questions that require connecting multiple concepts."
      +:+ format
  end.

(** [qaPairs.forEach((pair, index) => ...)] from [index] on; [qa] is the
    pair of the round. *)
Fixpoint parse_pairs (env : Env) (chance : nat -> Chance) (d : Difficulty)
  (index : nat) (qaPairs : list string) : list Flashcard :=
  match qaPairs with
  | [] => []
  | qa :: rest =>
      match match_groups env qa with
      | Some (q, a) =>
          [{| id := card_id (chance index) index (difficulty_name d);
              question := Js.trim q;
              answer := Js.trim a;
              difficulty := d;
              type := ai_generated |}]
      | None => []
      end ++ parse_pairs env chance d (index + 1) rest
  end.

Definition parseFlashcards (env : Env) (chance : nat -> Chance)
  (generatedText originalNotes : string) (d : Difficulty) : list Flashcard :=
  parse_pairs env chance d 0 (match_pairs env generatedText).

(** The three tiers: difficulty and requested count. *)
Definition tiers (targetQuestions : nat) : list (Difficulty * nat) :=
  [(basic, (targetQuestions * 4 + 9) / 10);
   (intermediate, (targetQuestions * 4 + 9) / 10);
   (advanced, targetQuestions * 2 / 10)].

Definition progress_key (sessionId : string) : string := "progress:" +:+ sessionId.

(** The request of a tier: the prompt for its difficulty and count, and a
    temperature of 0.8 for the advanced tier and 0.7 for the others. *)
Definition tier_request (apiKey notes : string) (questionType : Difficulty * nat)
  : FetchRequest :=
  {| bearer := apiKey;
     inputs := createPromptForDifficulty notes (snd questionType) (fst questionType);
     temperature_tenths := match fst questionType with advanced => 8 | _ => 7 end |}.

Fixpoint for_each {A S} (l : list A) (body : S -> A -> M S) (s : S) : M S :=
  match l with
  | [] => ret s
  | x :: r => s' <- body s x ;; for_each r body s'
  end.

Section Server.

Variable env : Env.

(** One round of the loop over the tiers; [flashcards] is the array as the
    round finds it and the result is the array as the round leaves it.  The
    new cards are pushed before the progress write, so a write that throws
    is caught with the cards in place: the write has a catch of its own
    here, the other statements of the [try] block come before the push. *)
Definition tier_round (notes : string) (targetQuestions : nat) (apiKey sessionId : string)
  (flashcards : list Flashcard) (questionType : Difficulty * nat)
  : M (list Flashcard) :=
  try_catch
    (response <- fetch env (tier_request apiKey notes questionType) ;;
     match response with
     | Some generatedText =>
         newCards <- draw env (List.length (match_pairs env generatedText))
                       (fun chance =>
                          parseFlashcards env chance generatedText notes
                            (fst questionType)) ;;
         let flashcards' := flashcards ++ newCards in
         try_catch
           (kv_set env (progress_key sessionId)
              (Progress {| current := List.length flashcards';
                           total := targetQuestions;
                           status := generating |}) ;;;
            ret flashcards')
           (fun _ => ret flashcards')
     | None => ret flashcards
     end)
    (fun _ => ret flashcards).

Definition generateFlashcardsWithProgress (notes : string) (targetQuestions : nat)
  (apiKey : string) : M (list Flashcard) :=
  now <- date_now env ;;
  let sessionId := "session_" +:+ Js.show_N now in
  kv_set env (progress_key sessionId)
    (Progress {| current := 0; total := targetQuestions; status := generating |}) ;;;
  flashcards <- for_each (tiers targetQuestions)
                  (tier_round notes targetQuestions apiKey sessionId) [] ;;
  flashcards <-
    (if List.length flashcards <? targetQuestions then
       additionalCards <-
         draw env (targetQuestions - List.length flashcards)
           (fun chance =>
              generateAdvancedFlashcards chance notes
                (targetQuestions - List.length flashcards)) ;;
       ret (flashcards ++ additionalCards)
     else ret flashcards) ;;
  kv_set env (progress_key sessionId)
    (Progress {| current := List.length flashcards;
                 total := targetQuestions;
                 status := completed |}) ;;;
  ret (firstn targetQuestions flashcards).

(** ** Persistence and the request handler *)

Fixpoint save_each (cards : list Flashcard) (user note : string) (timestamp : N)
  : M (list SavedFlashcard) :=
  match cards with
  | [] => ret []
  | c :: rest =>
      let flashcard :=
        {| card := c; userId := user; noteId := note; createdAt := timestamp |} in
      kv_set env ("flashcards:" +:+ user +:+ ":" +:+ id c) (Saved flashcard) ;;;
      saved <- save_each rest user note timestamp ;;
      ret (flashcard :: saved)
  end.

Definition saveFlashcards (cards : list Flashcard) (user originalNotes : string)
  : M (list SavedFlashcard) :=
  timestamp <- date_now env ;;
  let note := "note_" +:+ Js.show_N timestamp in
  kv_set env ("notes:" +:+ user +:+ ":" +:+ note)
    (Note {| note_id := note; content := originalNotes; note_createdAt := timestamp |}) ;;;
  save_each cards user note timestamp.

(** The value of a field of the request body. *)
Inductive JsValue :=
  | JsUndefined
  | JsNull
  | JsBoolean (b : bool)
  | JsNumber (n : N)
  | JsString (s : string)
  | JsObject.

Inductive Request :=
  | Unreadable                                  (* [c.req.json()] rejects *)
  | Body (notes : JsValue) (user : string).

Inductive Response :=
  | Json200 (saved : list SavedFlashcard) (totalGenerated : nat)
  | Json400 (error : string)
  | Json500 (error : string).

(** The heuristic path of the handler: generate, save, answer. *)
Definition heuristic_path (notes user : string) (targetQuestions : nat) : M Response :=
  cards <- draw env targetQuestions
             (fun chance => generateAdvancedFlashcards chance notes targetQuestions) ;;
  savedFlashcards <- saveFlashcards cards user notes ;;
  ret (Json200 savedFlashcards (List.length cards)).

(** The AI path of the handler: the body of the inner [try]. *)
Definition ai_path (notes user : string) (targetQuestions : nat) (apiKey : string)
  : M Response :=
  cards <- generateFlashcardsWithProgress notes targetQuestions apiKey ;;
  savedFlashcards <- saveFlashcards cards user notes ;;
  ret (Json200 savedFlashcards (List.length cards)).

Definition handler_body (request : Request) : M Response :=
  match request with
  | Unreadable => fun w => (Thrown Body_error, w)
  | Body (JsString notes) user =>
      if (notes =? "")%string then
        ret (Json400 "Notes are required and must be a string")
      else
        let targetQuestions := calculateQuestionCount notes in
        match HUGGINGFACE_API_KEY env with
        | None | Some EmptyString => heuristic_path notes user targetQuestions
        | Some huggingfaceApiKey =>
            try_catch
              (ai_path notes user targetQuestions huggingfaceApiKey)
              (fun aiError => heuristic_path notes user targetQuestions)
        end
  | Body _ _ => ret (Json400 "Notes are required and must be a string")
  end.

(** [POST /generate-flashcards]: the outer [try] with its [catch]. *)
Definition generate_flashcards (request : Request) (w : World) : Response * World :=
  match handler_body request w with
  | (Returned response, w') => (response, w')
  | (Thrown _, w') => (Json500 "Failed to generate flashcards", w')
  end.

(** [GET /generation-progress/:sessionId] *)
Definition generation_progress (sessionId : string) (w : World) : GenerationProgress :=
  match kv_get (progress_key sessionId) w with
  | Some (Progress p) => p
  | _ => {| current := 0; total := 0; status := not_started |}
  end.

End Server.

(** ** Vocabulary of the properties *)

(** The progress records among some store writes, in the order written. *)
Definition progress_records (writes : list (string * KvValue))
  : list GenerationProgress :=
  flat_map (fun e => match snd e with Progress p => [p] | _ => [] end) writes.

(** The store writes made between two states of the world. *)
Definition written_between (w w' : World) : list (string * KvValue) :=
  skipn (List.length (kv_writes w)) (kv_writes w').

(** What the loops of the heuristic coordinator keep true: the counter is
    the length of the array and never passes the target. *)
Definition in_step (targetCount : nat) (st : Loop) : Prop :=
  cardCount st = List.length (flashcards st) /\ cardCount st <= targetCount.

(** A progress record as the store holds it. *)
Definition progress_write (sessionId : string) (p : GenerationProgress)
  : string * KvValue :=
  (progress_key sessionId, Progress p).

(** A list of numbers that starts at [lo] or above and never goes down. *)
Fixpoint rising (lo : nat) (l : list nat) : Prop :=
  match l with
  | [] => True
  | x :: r => lo <= x /\ rising x r
  end.

(** A progress record of a run that is still going on. *)
Definition under_way (targetQuestions limit : nat) (p : GenerationProgress) : Prop :=
  current p <= limit /\ total p = targetQuestions /\ status p = generating.

(** ** The sizing table as the design document words it *)

Module Documented.

(** [floor (n * factor)] over the rationals. *)
Definition floor_times (n : nat) (factor : Q) : nat :=
  Z.to_nat (Qfloor (inject_Z (Z.of_nat n) * factor)).

(** [ceil (n * factor)] over the rationals. *)
Definition ceiling_times (n : nat) (factor : Q) : nat :=
  Z.to_nat (Qceiling (inject_Z (Z.of_nat n) * factor)).

(** The four buckets of the table. *)
Definition estimate (wordCount sentenceCount : nat) : nat :=
  if wordCount <? 100 then Nat.min 5 sentenceCount
  else if wordCount <? 300 then Nat.min 10 (floor_times sentenceCount (7 # 10))
  else if wordCount <? 600 then Nat.min 20 (floor_times sentenceCount (5 # 10))
  else Nat.min 30 (floor_times sentenceCount (4 # 10)).

(** "discarding fragments shorter than 10 characters" *)
Definition kept (fragment : string) : bool :=
  negb (String.length fragment <? 10).

Definition sentenceCount (notes : string) : nat :=
  List.length (filter kept (Js.split_sentences notes)).

Definition questionCount (notes : string) : nat :=
  estimate (wordCount_of notes) (sentenceCount notes).

End Documented.

(** ** A sentence as a row of words *)



(** ** Quotas of the heuristic coordinator *)




(** ** A multiple-choice card as its reader sees it *)

Definition is_newline (c : ascii) : bool := Js.code c =? 10.

Definition last_four {A} (l : list A) : list A := rev (firstn 4 (rev l)).

(** The four options: the last four lines of the question, each without
    its label of a letter, a parenthesis and a space. *)
Definition options_read (question : string) : list string :=
  map (Js.drop 3) (last_four (Js.split_each is_newline question)).

(** The position the letter of the answer stands for: A is 0. *)
Definition letter_read (answer : string) : option nat :=
  match answer with
  | String c _ => Some (Js.code c - 65)
  | EmptyString => None
  end.

(** A term that is not empty and is made of word characters only. *)
Definition plain (t : string) : Prop :=
  t <> "" /\ Js.all_chars Js.is_word t = true.

Definition keys_plain (o : KeyTerms.Obj) : Prop :=
  Forall (fun e => plain (fst e)) o.

(** Notes with five usable sentences, the first of them short, and the two
    key terms [Cells] and [cells]. *)
Definition cells : string :=
  "Cells are tiny things. Cells make energy. Cells divide often. Cells need water. Cells hold genes.".

(** ** Some worlds *)

(** A clock that stands still and a comparator that leaves the array as it
    is: one admissible behaviour of the outside world, used in examples. *)
Definition still (now : N) : nat -> Chance := fun _ => mkChance now (fun l => l).

(** A comparator whose outcome is the array in reverse. *)
Definition turned (now : N) : nat -> Chance := fun _ => mkChance now (@rev string).

Definition mito : string :=
  "The Mitochondria is the powerhouse of every cell. The Mitochondria produces ATP all day long.".

(** The world before a request. *)
Definition dawn : World := {| tick := 0; kv_writes := []; requests := [] |}.

(** Notes with one usable sentence: the sizing estimator asks for one card. *)
Definition one_sentence : string := "The cell is small.".

(** A text with two question and answer pairs, and what the two regular
    expressions of [parseFlashcards] find in it. *)
Definition two_pairs : string := "Q: a A: b Q: c A: d".

Definition pairs_found (text : string) : list string :=
  if (text =? two_pairs)%string then ["Q: a A: b "; "Q: c A: d"] else [].

Definition groups_found (qa : string) : option (string * string) :=
  if (qa =? "Q: a A: b ")%string then Some ("a", "b ")
  else if (qa =? "Q: c A: d")%string then Some ("c", "d")
  else None.

(** A service whose first reply holds two pairs and whose later replies
    are refusals, with a store that takes every write. *)
Definition eager_service : Env :=
  {| HUGGINGFACE_API_KEY := Some "hf_key";
     chance_at := still 1700000000000;
     kv_fault := fun _ => false;
     service := fun t => if t =? 2 then Generated two_pairs else Not_ok;
     match_pairs := pairs_found;
     match_groups := groups_found |}.

(** A store that refuses every write, with a service that never answers. *)
Definition store_down : Env :=
  {| HUGGINGFACE_API_KEY := Some "hf_key";
     chance_at := still 1700000000000;
     kv_fault := fun _ => true;
     service := fun _ => Transport_error;
     match_pairs := pairs_found;
     match_groups := groups_found |}.

(** A store that refuses the first progress write only, with a service
    that never answers. *)
Definition store_hiccup : Env :=
  {| HUGGINGFACE_API_KEY := Some "hf_key";
     chance_at := still 1700000000000;
     kv_fault := fun t => t =? 1;
     service := fun _ => Transport_error;
     match_pairs := pairs_found;
     match_groups := groups_found |}.

(** No credential configured. *)
Definition no_key : Env :=
  {| HUGGINGFACE_API_KEY := None;
     chance_at := turned 1700000000000;
     kv_fault := fun _ => false;
     service := fun _ => Transport_error;
     match_pairs := pairs_found;
     match_groups := groups_found |}.

(** A service whose first reply holds two pairs and whose later calls are
    transport errors, with a store that takes every write. *)
Definition first_tier_only : Env :=
  {| HUGGINGFACE_API_KEY := Some "hf_key";
     chance_at := turned 1700000000000;
     kv_fault := fun _ => false;
     service := fun t => if t =? 2 then Generated two_pairs else Transport_error;
     match_pairs := pairs_found;
     match_groups := groups_found |}.

(** What a test would look at in an answer: the types of the cards and the
    count. *)
Definition summary (r : Response) : option (list CardType * nat) :=
  match r with
  | Json200 saved n => Some (map (fun f => type (card f)) saved, n)
  | _ => None
  end.

(** ** File upload endpoint *)

(** [s.endsWith(t)] *)
Fixpoint endsWith (s t : string) : bool :=
  if (s =? t)%string then true
  else match s with
       | EmptyString => false
       | String _ r => endsWith r t
       end.

(** A file of the form data: its name, its media type, its size in bytes
    and the text [file.text()] decodes from it. *)
Record File := mkFile {
  file_name : string;
  file_type : string;
  file_size : N;
  file_text : string
}.

(** [formData.get('file')]: nothing, a text field or a file. *)
Inductive FormEntry :=
  | NoEntry
  | TextEntry (s : string)
  | FileEntry (f : File).

Inductive UploadRequest :=
  | NoFormData                                  (* [c.req.formData()] rejects *)
  | FormData (file : FormEntry).

Inductive UploadResponse :=
  | Upload200 (text fileName : string) (fileSize : N)
  | Upload400 (error : string)
  | Upload500 (error : string).

(** [10 * 1024 * 1024] *)
Definition maxSize : N := 10485760.

(** The class [[#*`]]. *)
Definition is_markup (c : ascii) : bool :=
  let n := Js.code c in (n =? 35) || (n =? 42) || (n =? 96).

(** [fileContent.replace(/[#*`]/g, '')] *)
Definition strip_markup (s : string) : string :=
  Js.filter_chars (fun c => negb (is_markup c)) s.

(** The text the endpoint extracts from a file. *)
Definition extractedText (f : File) : string :=
  if (file_type f =? "text/plain")%string || endsWith (file_name f) ".txt"
  then file_text f
  else if (file_type f =? "text/markdown")%string || endsWith (file_name f) ".md"
       then strip_markup (file_text f)
       else file_text f.

(** [POST /upload-file].  A text field under the name [file] has no size,
    so the comparison with the limit is false, and no [text] method, so the
    call throws and the [catch] answers. *)
Definition upload_file (request : UploadRequest) : UploadResponse :=
  match request with
  | NoFormData => Upload500 "Failed to process file upload"
  | FormData NoEntry => Upload400 "No file provided"
  | FormData (TextEntry s) =>
      if (s =? "")%string then Upload400 "No file provided"
      else Upload500 "Failed to process file upload"
  | FormData (FileEntry f) =>
      if (maxSize <? file_size f)%N then Upload400 "File size exceeds 10MB limit"
      else if (Js.trim (extractedText f) =? "")%string
           then Upload400 "No text content found in file"
           else Upload200 (extractedText f) (file_name f) (file_size f)
  end.

(** ** The study view *)

Module Viewer.

(** [s.replace(/\s+/g, ' ')]: every run of whitespace becomes one blank;
    [in_run] records that the previous character was whitespace. *)
Fixpoint collapse_from (in_run : bool) (s : string) : string :=
  match s with
  | EmptyString => EmptyString
  | String c r =>
      if Js.is_space c then
        if in_run then collapse_from true r
        else String " " (collapse_from true r)
      else String c (collapse_from false r)
  end.

Definition normalizeAnswer (answer : string) : string :=
  collapse_from false
    (Js.filter_chars (fun c => Js.is_word c || Js.is_space c)
       (Js.trim (Js.toLowerCase answer))).

Record CardAttempt := mkAttempt {
  attempts : nat;
  isCorrect : bool;
  userAnswers : list string;
  showAnswer : bool
}.

(** The attempt of a card that has none yet. *)
Definition no_attempt : CardAttempt :=
  {| attempts := 0; isCorrect := false; userAnswers := []; showAnswer := false |}.

(** The verdict of [checkAnswer] on an input and the answer of the card. *)
Definition verdict (userInput cardAnswer : string) : bool :=
  let userAnswer := normalizeAnswer userInput in
  let correctAnswer := normalizeAnswer cardAnswer in
  (userAnswer =? correctAnswer)%string
  || Js.includes correctAnswer userAnswer
  || Js.includes userAnswer correctAnswer.

(** [checkAnswer]: the attempt it records for the current card, or nothing
    when the input is blank. *)
Definition checkAnswer (currentAttempt : CardAttempt) (userInput cardAnswer : string)
  : option CardAttempt :=
  if (Js.trim userInput =? "")%string then None
  else
    let correct := verdict userInput cardAnswer in
    Some {| attempts := attempts currentAttempt + 1;
            isCorrect := correct;
            userAnswers := userAnswers currentAttempt ++ [userInput];
            showAnswer := negb correct && (3 <=? attempts currentAttempt + 1) |}.

Definition revealAnswer (currentAttempt : CardAttempt) : CardAttempt :=
  {| attempts := attempts currentAttempt;
     isCorrect := isCorrect currentAttempt;
     userAnswers := userAnswers currentAttempt;
     showAnswer := true |}.

(** [(prev + 1) % flashcards.length] and
    [(prev - 1 + flashcards.length) % flashcards.length], with the
    remainder of JavaScript, which takes the sign of the dividend. *)
Definition nextCard (length prev : Z) : Z := Z.rem (prev + 1) length.
Definition prevCard (length prev : Z) : Z := Z.rem (prev - 1 + length) length.

(** What a session at one card does: a sequence of inputs checked against
    the answer of the card, from an attempt on. *)
Fixpoint check_all (currentAttempt : CardAttempt) (inputs : list string)
  (cardAnswer : string) : CardAttempt :=
  match inputs with
  | [] => currentAttempt
  | input :: rest =>
      match checkAnswer currentAttempt input cardAnswer with
      | Some newAttempt => check_all newAttempt rest cardAnswer
      | None => check_all currentAttempt rest cardAnswer
      end
  end.

End Viewer.

(** ** Vocabulary of further properties *)

(** [word.replace(/[^\w]/g, '').toLowerCase()] *)
Definition cleaned (word : string) : string :=
  Js.toLowerCase (Js.strip_non_word word).

(** The test of [extractKeyTerms] for a capitalised word. *)
Definition capitalised (word : string) : bool :=
  Js.starts_capitalised word && (3 <? String.length word).

(** The number of words of a text that clean to a term. *)
Definition occurrences (term : string) (words : list string) : nat :=
  List.length (filter (fun w => (cleaned w =? term)%string) words).

(** The place of an archetype in the table of the heuristic coordinator. *)
Definition rank (t : CardType) : nat :=
  match t with
  | ai_generated => 0
  | fill_blank => 1
  | definition => 2
  | true_false => 3
  | multiple_choice => 4
  end.

(** The place of a difficulty among the tiers. *)
Definition tier_rank (d : Difficulty) : nat :=
  match d with
  | basic => 0
  | intermediate => 1
  | advanced => 2
  end.

(** The records [saveFlashcards] sets out to write, in order: the note,
    then one record per card. *)
Definition batch (cards : list Flashcard) (user originalNotes : string) (timestamp : N)
  : list (string * KvValue) :=
  let note := "note_" +:+ Js.show_N timestamp in
  ("notes:" +:+ user +:+ ":" +:+ note,
   Note {| note_id := note; content := originalNotes; note_createdAt := timestamp |})
  :: map (fun c =>
            ("flashcards:" +:+ user +:+ ":" +:+ id c,
             Saved {| card := c; userId := user; noteId := note;
                      createdAt := timestamp |}))
         cards.

(** What the loop over the words keeps true, [done] being the words
    visited so far: a count never exceeds the number of words that clean
    to its key, and every term pushed is a capitalised word without its
    punctuation. *)
Definition counted (done : list string) (acc : KeyTerms.Obj * list string) : Prop :=
  (forall key n, In (key, KeyTerms.Count n) (fst acc) -> n <= occurrences key done) /\
  (forall t, In t (snd acc) ->
     exists word, In word done /\ capitalised word = true /\
                  t = Js.strip_non_word word).

(** The end of the id of a card of an archetype. *)
Definition id_suffix (t : CardType) : string :=
  match t with
  | fill_blank => "fill"
  | definition => "def"
  | true_false => "tf"
  | multiple_choice => "mc"
  | ai_generated => ""
  end.

(** The text of a card: its question and its answer. *)
Definition text_of (c : Flashcard) : string * string := (question c, answer c).

(** A reply of the service that brings no text. *)
Definition brings_nothing (r : TierReply) : bool :=
  match r with
  | Generated _ => false
  | _ => true
  end.

(** The place of a card in the order the AI coordinator gathers cards in:
    the three tiers, then the four archetypes of the heuristic. *)
Definition origin_rank (c : Flashcard) : nat :=
  match type c with
  | ai_generated => tier_rank (difficulty c)
  | t => 2 + rank t
  end.

(** A service that refuses every call, with a store that takes every
    write. *)
Definition silent_service : Env :=
  {| HUGGINGFACE_API_KEY := Some "hf_key";
     chance_at := turned 1700000000000;
     kv_fault := fun _ => false;
     service := fun _ => Not_ok;
     match_pairs := pairs_found;
     match_groups := groups_found |}.

(** The ends an id can have: the names of the tiers and the suffixes of
    the archetypes. *)
Definition tier_names : list string := ["basic"; "intermediate"; "advanced"].
Definition archetype_suffixes : list string := ["fill"; "def"; "tf"; "mc"].

(** An id built by [card_id] with one of the given ends. *)
Definition ends_with_one_of (suffixes : list string) (c : Flashcard) : Prop :=
  exists ch index suffix, In suffix suffixes /\ id c = card_id ch index suffix.

(** Cards with pairwise distinct ids, all built with one of the given
    ends. *)
Definition distinct (suffixes : list string) (cards : list Flashcard) : Prop :=
  NoDup (map id cards) /\ Forall (ends_with_one_of suffixes) cards.

(** The key [saveFlashcards] stores a card under. *)
Definition card_key (user : string) (c : Flashcard) : string :=
  "flashcards:" +:+ user +:+ ":" +:+ id c.

(** What an answer of the generator promises about its cards: the count
    is the number of cards listed, and each card listed belongs to the user
    and is what the store holds under the key of the card. *)
Definition listed_and_stored (user : string) (r : Response) (w : World) : Prop :=
  match r with
  | Json200 saved totalGenerated =>
      totalGenerated = List.length saved /\
      NoDup (map (fun s => id (card s)) saved) /\
      forall s, In s saved ->
        userId s = user /\ kv_get (card_key user (card s)) w = Some (Saved s)
  | _ => True
  end.

(** A computation that never takes the tick back. *)
Definition steady {A} (m : M A) : Prop := forall w, tick w <= tick (snd (m w)).

(** The record of a note as [saveFlashcards] writes it at a time. *)
Definition note_record (user originalNotes : string) (timestamp : N)
  : string * KvValue :=
  let note := "note_" +:+ Js.show_N timestamp in
  ("notes:" +:+ user +:+ ":" +:+ note,
   Note {| note_id := note; content := originalNotes; note_createdAt := timestamp |}).

(** A character that is neither of [\w] nor of [\s]: punctuation and the
    like. *)
Definition is_mark (c : ascii) : bool := negb (Js.is_word c) && negb (Js.is_space c).

(** A character a normalised answer can hold: a lower-case letter, a
    digit, the underscore or the blank. *)
Definition is_normal (c : ascii) : bool :=
  Js.is_lower c || Js.is_digit c || (Js.code c =? 95) || (Js.code c =? 32).

(** The inputs [checkAnswer] records: those that are not blank. *)
Definition recorded (inputs : list string) : list string :=
  filter (fun input => negb (Js.trim input =? "")%string) inputs.

(** The two tests of the upload endpoint on the type and the name of a
    file. *)
Definition is_plain (f : File) : bool :=
  (file_type f =? "text/plain")%string || endsWith (file_name f) ".txt".

Definition is_markdown (f : File) : bool :=
  (file_type f =? "text/markdown")%string || endsWith (file_name f) ".md".

(** A markdown file that holds a title and nothing else. *)
Definition bare_title : File :=
  {| file_name := "notes.md"; file_type := "text/markdown"; file_size := 5;
     file_text := "# ** " |}.

(** A markdown file with a title and a sentence. *)
Definition titled_notes : File :=
  {| file_name := "notes.md"; file_type := ""; file_size := 21;
     file_text := "# Cells" +:+ newline +:+ "*Small* things" |}.

(** ** The listing endpoint *)

(** Modelled from the spec: [getByPrefix(prefix)] of [kv_store.tsx], which
    is not among the sources, gives the values the store holds under the
    keys that begin with the prefix.  The order is the store's own; the
    keys are taken here in the order of their first write. *)
Definition kv_keys (w : World) : list string :=
  nodup string_dec (map fst (kv_writes w)).

Definition kv_getByPrefix (p : string) (w : World) : list KvValue :=
  flat_map (fun key => match kv_get key w with Some v => [v] | None => [] end)
    (filter (prefix p) (kv_keys w)).

Inductive ListResponse :=
  | List200 (flashcards : list KvValue)
  | List500 (error : string).

(** [GET /flashcards/:userId]; the read of the store happens at a tick and
    throws when the world says that the store fails at that tick. *)
Definition get_flashcards (env : Env) (userId : string) (w : World)
  : ListResponse * World :=
  if kv_fault env (tick w) then (List500 "Failed to retrieve flashcards", advance 1 w)
  else (List200 (kv_getByPrefix ("flashcards:" +:+ userId +:+ ":") w), advance 1 w).

(** ** The file picker of the client *)

Definition allowedTypes : list string :=
  ["text/plain"; "text/markdown"; "application/pdf"; "application/msword";
   "application/vnd.openxmlformats-officedocument.wordprocessingml.document"].

Definition allowedExtensions : list string := [".txt"; ".md"; ".pdf"; ".doc"; ".docx"].

Definition hasValidExtension (file : File) : bool :=
  existsb (fun ext => endsWith (Js.toLowerCase (file_name file)) ext) allowedExtensions.

(** What [handleFiles] comes to before any answer of the server: nothing,
    a call of [onError], a call of [onFileContent] with the text read in
    the browser, or the form posted to the server. *)
Inductive Handled :=
  | Ignored
  | Refused (error : string)
  | ReadHere (content fileName : string)
  | Posted (file : File).

(** [handleFiles(files)]; [None] is [null]. *)
Definition handleFiles (files : option (list File)) : Handled :=
  match files with
  | None | Some [] => Ignored
  | Some (file :: _) =>
      if (maxSize <? file_size file)%N then
        Refused "File size exceeds 10MB limit. Please choose a smaller file."
      else if negb (existsb (String.eqb (file_type file)) allowedTypes)
              && negb (hasValidExtension file) then
        Refused "Unsupported file type. Please upload .txt, .md, .pdf, .doc, or .docx files."
      else if (file_type file =? "text/plain")%string
              || endsWith (file_name file) ".txt"
              || endsWith (file_name file) ".md" then
        ReadHere (file_text file) (file_name file)
      else Posted file
  end.

(** * Properties *)

(** ** The functions on small inputs *)

Example split_ws_1 : Js.split_whitespace " a  b " = [""; "a"; "b"; ""].
Proof. reflexivity. Qed.
Example split_ws_2 : Js.split_whitespace "" = [""].
Proof. reflexivity. Qed.
Example split_blank_1 : Js.split_blank "a  b" = ["a"; ""; "b"].
Proof. reflexivity. Qed.
Example trim_1 : Js.trim "  a b  " = "a b".
Proof. reflexivity. Qed.
Example replace_1 : Js.replace_first "the cat the dog" "the" "__" = "__ cat the dog".
Proof. reflexivity. Qed.
Example replace_2 : Js.replace_first "abc" "" "__" = "__abc".
Proof. reflexivity. Qed.
Example show_1 : Js.show_nat 0 = "0" /\ Js.show_nat 1203 = "1203".
Proof. split; reflexivity. Qed.
Example cqc_1 : calculateQuestionCount "abcdefghij." = 0.
Proof. reflexivity. Qed.
Example cqc_2 : calculateQuestionCount "abcdefghijk." = 1.
Proof. reflexivity. Qed.
Example ekt_1 :
  extractKeyTerms "The Mitochondria is the powerhouse. The Mitochondria produces ATP."
  = ["Mitochondria"; "mitochondria"].
Proof. reflexivity. Qed.
Example ekt_2 :
  extractKeyTerms "zebra 99999 zebra 12345 99999 12345 constructor constructor Oh, Hello"
  = ["Hello"; "12345"; "99999"; "zebra"].
Proof. reflexivity. Qed.
Example gen_1 :
  map (fun c => (question c, answer c)) (generateAdvancedFlashcards (still 7) mito 4)
  = [("Fill in the blank: The Mitochondria is the ______ of every cell", "powerhouse");
     ("Fill in the blank: The Mitochondria produces ______ all day long", "ATP");
     ("What is Mitochondria?", "The Mitochondria is the powerhouse of every cell");
     ("What is mitochondria?", "The Mitochondria is the powerhouse of every cell")].
Proof. vm_compute. reflexivity. Qed.

(** ** The loops of the heuristic coordinator *)

Lemma In_firstn {A} (x : A) n l : In x (firstn n l) -> In x l.
Proof.
  intros H. rewrite <- (firstn_skipn n l). apply in_or_app. now left.
Qed.

Section Quota.

Variable builder : nat -> option Flashcard.
Variable targetCount : nat.

Lemma fill_quota_in_step rounds st :
  in_step targetCount st ->
  in_step targetCount (fill_quota builder targetCount rounds st).
Proof.
  revert st; induction rounds as [|r IH]; intros st [Hlen Hle]; simpl.
  - split; assumption.
  - destruct (cardCount st <? targetCount) eqn:Hlt.
    + apply Nat.ltb_lt in Hlt.
      destruct (builder (cardCount st)) as [c|].
      * apply IH. split; simpl.
        -- rewrite length_app; simpl; lia.
        -- lia.
      * apply IH. split; assumption.
    + split; assumption.
Qed.

(** Every card the loop adds was returned by the builder at a cursor
    below the target. *)
Lemma fill_quota_origin rounds st card :
  In card (flashcards (fill_quota builder targetCount rounds st)) ->
  In card (flashcards st) \/
  exists cursor, cursor < targetCount /\ builder cursor = Some card.
Proof.
  revert st; induction rounds as [|r IH]; intros st Hin; simpl in Hin.
  - now left.
  - destruct (cardCount st <? targetCount) eqn:Hlt; [|now left].
    apply Nat.ltb_lt in Hlt.
    destruct (builder (cardCount st)) as [c|] eqn:Hb.
    + apply IH in Hin. destruct Hin as [Hin|Hin]; [|now right].
      simpl in Hin. apply in_app_or in Hin. destruct Hin as [Hin|[Heq|[]]].
      * now left.
      * subst c. right. exists (cardCount st). now split.
    + now apply IH in Hin.
Qed.

(** A builder that yields a card at every cursor the loop visits fills the
    quota, up to the target. *)
Lemma fill_quota_filled rounds st :
  in_step targetCount st ->
  (forall i, i < rounds -> cardCount st + i < targetCount ->
             builder (cardCount st + i) <> None) ->
  cardCount (fill_quota builder targetCount rounds st)
  = Nat.min (cardCount st + rounds) targetCount.
Proof.
  revert st; induction rounds as [|r IH]; intros st [Hlen Hle] Hok; simpl.
  - rewrite Nat.add_0_r. lia.
  - destruct (cardCount st <? targetCount) eqn:Hlt.
    + apply Nat.ltb_lt in Hlt.
      destruct (builder (cardCount st)) as [c|] eqn:Hb.
      * rewrite IH.
        -- simpl. lia.
        -- split; simpl; [rewrite length_app; simpl; lia | lia].
        -- intros i Hi Hc. simpl in *.
           replace (cardCount st + 1 + i) with (cardCount st + S i) by lia.
           apply Hok; lia.
      * exfalso. apply (Hok 0); [lia | lia |].
        now rewrite Nat.add_0_r.
    + apply Nat.ltb_ge in Hlt. lia.
Qed.

End Quota.


Lemma run_types_origin chance sentences keyTerms targetCount types st card :
  In card (flashcards (run_types chance sentences keyTerms targetCount types st)) ->
  In card (flashcards st) \/
  exists t cursor, In t (map fst types) /\ cursor < targetCount /\
                   build chance sentences keyTerms t cursor = Some card.
Proof.
  revert st; induction types as [|qt types IH]; intros st Hin; simpl in Hin.
  - now left.
  - apply IH in Hin. destruct Hin as [Hin|(t & c & Ht & Hc & Hb)].
    + apply fill_quota_origin in Hin. destruct Hin as [Hin|(c & Hc & Hb)].
      * now left.
      * right. exists (fst qt), c. simpl. auto.
    + right. exists t, c. simpl. auto.
Qed.

(** Where the cards of the heuristic path come from. *)
Lemma generateAdvancedFlashcards_origin chance notes targetCount card :
  In card (generateAdvancedFlashcards chance notes targetCount) ->
  exists t cursor,
    In t [fill_blank; definition; true_false; multiple_choice] /\
    cursor < targetCount /\
    build chance (sentences_of notes) (extractKeyTerms notes) t cursor = Some card.
Proof.
  unfold generateAdvancedFlashcards. intros Hin.
  apply In_firstn in Hin. apply run_types_origin in Hin.
  destruct Hin as [[]|H]. exact H.
Qed.

Lemma generateAdvancedFlashcards_length chance notes targetCount :
  List.length (generateAdvancedFlashcards chance notes targetCount) <= targetCount.
Proof.
  unfold generateAdvancedFlashcards. rewrite length_firstn. lia.
Qed.

(** The type and difficulty each builder stamps on its cards. *)
Lemma build_stamp chance sentences keyTerms t cursor card :
  build chance sentences keyTerms t cursor = Some card ->
  type card = t /\
  difficulty card = match t with
                    | definition => intermediate
                    | multiple_choice => advanced
                    | _ => basic
                    end.
Proof.
  destruct t; simpl.
  - discriminate.
  - unfold generateFillInBlankCard. destruct sentences; [discriminate|].
    destruct (5 <? _); [|discriminate]. intros [= <-]. now split.
  - unfold generateDefinitionCard. destruct keyTerms; [discriminate|].
    destruct (find_sentence _ _) as [found|] eqn:Hf; [|discriminate].
    destruct (truthy _); [|discriminate]. intros [= <-]. now split.
  - unfold generateTrueFalseCard. destruct sentences; [discriminate|].
    intros [= <-]. now split.
  - unfold generateMultipleChoiceCard. destruct keyTerms; [discriminate|].
    destruct sentences; [discriminate|].
    destruct (find_sentence _ _) as [found|] eqn:Hf; [|discriminate].
    destruct (truthy _); [|discriminate]. intros [= <-]. now split.
Qed.

(** C10. Every card of the heuristic path carries the difficulty of its
    archetype: fill_blank and true_false cards are basic, definition cards
    intermediate and multiple_choice cards advanced, and the path produces
    no other combination of type and difficulty. *)
Theorem heuristic_difficulty_by_archetype chance notes targetCount card :
  In card (generateAdvancedFlashcards chance notes targetCount) ->
  (type card = fill_blank /\ difficulty card = basic) \/
  (type card = true_false /\ difficulty card = basic) \/
  (type card = definition /\ difficulty card = intermediate) \/
  (type card = multiple_choice /\ difficulty card = advanced).
Proof.
  intros Hin. apply generateAdvancedFlashcards_origin in Hin.
  destruct Hin as (t & c & Ht & _ & Hb). apply build_stamp in Hb.
  destruct Hb as [Hty Hd]. simpl in Ht.
  destruct Ht as [<-|[<-|[<-|[<-|[]]]]]; auto.
Qed.

(** ** Two runs of the handler *)

(** Without a credential the heuristic path runs alone; the first sentence
    of the notes is too short for a fill-in-the-blank card, so four cards
    come back for a target of five, and the note and the four cards are
    written. *)
Example run_without_credential :
  let r := generate_flashcards no_key (Body (JsString cells) "u1") dawn in
  summary (fst r) = Some ([definition; definition; true_false; multiple_choice], 4) /\
  List.length (kv_writes (snd r)) = 5.
Proof. vm_compute. split; reflexivity. Qed.

(** The first tier gives two cards and the other two fail: both are still
    requested, the heuristic path fills up to the target, and the progress
    ends completed. *)
Example run_with_one_tier :
  let r := generate_flashcards first_tier_only (Body (JsString cells) "u1") dawn in
  summary (fst r)
  = Some ([ai_generated; ai_generated; definition; true_false; multiple_choice], 5) /\
  progress_records (kv_writes (snd r))
  = [mkProgress 0 5 generating; mkProgress 2 5 generating; mkProgress 5 5 completed] /\
  List.length (requests (snd r)) = 3.
Proof. vm_compute. repeat split; reflexivity. Qed.

(** ** The AI tier coordinator, step by step *)

Lemma rising_weaken lo lo' l : lo' <= lo -> rising lo l -> rising lo' l.
Proof. destruct l; simpl; [auto|]. intros H [H1 H2]. split; [lia|assumption]. Qed.

Lemma rising_app lo hi l1 l2 :
  lo <= hi -> rising lo l1 -> Forall (fun x => x <= hi) l1 -> rising hi l2 ->
  rising lo (l1 ++ l2).
Proof.
  revert lo; induction l1 as [|x l1 IH]; intros lo Hle H1 Hall H2; simpl.
  - now apply rising_weaken with hi.
  - destruct H1 as [Hx H1]. inversion Hall; subst. split; [assumption|].
    apply IH; assumption.
Qed.

Lemma rising_sorted lo l : rising lo l -> Sorted le l.
Proof.
  revert lo; induction l as [|x l IH]; intros lo H; [constructor|].
  destruct H as [_ H]. constructor.
  - now apply IH with x.
  - destruct l; constructor. now destruct H.
Qed.

Section Coordinator.

Variable env : Env.
Variables notes apiKey sessionId : string.
Variable targetQuestions : nat.

(** One round always returns, whatever the service and the store do; it
    sends the request of its tier, only ever adds cards, and writes at
    most one record, which counts the cards gathered so far. *)
Lemma tier_round_spec flashcards questionType w :
  exists newCards ps w',
    tier_round env notes targetQuestions apiKey sessionId flashcards questionType w
    = (Returned (flashcards ++ newCards), w') /\
    kv_writes w' = kv_writes w ++ map (progress_write sessionId) ps /\
    requests w' = requests w ++ [tier_request apiKey notes questionType] /\
    (ps = [] \/
     ps = [{| current := List.length (flashcards ++ newCards);
              total := targetQuestions; status := generating |}]).
Proof.
  unfold tier_round, try_catch, bind, fetch, draw, kv_set, ret, advance; simpl.
  destruct (service env (tick w)) as [| | |text]; simpl.
  - exists [], []; eexists. rewrite !app_nil_r.
    split; [reflexivity|]. simpl. rewrite ?app_nil_r. auto.
  - exists [], []; eexists. rewrite !app_nil_r.
    split; [reflexivity|]. simpl. rewrite ?app_nil_r. auto.
  - exists [], []; eexists. rewrite !app_nil_r.
    split; [reflexivity|]. simpl. rewrite ?app_nil_r. auto.
  - match goal with |- context [kv_fault env ?t] => destruct (kv_fault env t) end; simpl.
    + eexists; exists []; eexists.
      split; [reflexivity|]. simpl. rewrite ?app_nil_r. auto.
    + do 3 eexists.
      split; [reflexivity|]. simpl. split; [|split; [reflexivity|right; reflexivity]].
      reflexivity.
Qed.

(** The loop over the tiers. *)
Lemma tier_loop_spec questionTypes : forall flashcards w,
  exists newCards ps w',
    for_each questionTypes
      (tier_round env notes targetQuestions apiKey sessionId) flashcards w
    = (Returned (flashcards ++ newCards), w') /\
    kv_writes w' = kv_writes w ++ map (progress_write sessionId) ps /\
    requests w' = requests w ++ map (tier_request apiKey notes) questionTypes /\
    rising (List.length flashcards) (map current ps) /\
    Forall (under_way targetQuestions (List.length (flashcards ++ newCards))) ps.
Proof.
  induction questionTypes as [|qt qts IH]; intros fl w; simpl.
  - exists [], [], w. unfold ret. rewrite !app_nil_r. repeat split; auto.
  - unfold bind.
    destruct (tier_round_spec fl qt w) as (new1 & ps1 & w1 & -> & Hkv1 & Hrq1 & Hps1).
    destruct (IH (fl ++ new1) w1) as (new2 & ps2 & w2 & -> & Hkv2 & Hrq2 & Hri2 & Hall2).
    exists (new1 ++ new2), (ps1 ++ ps2), w2.
    rewrite <- !app_assoc in *. repeat split.
    + rewrite Hkv2, Hkv1, map_app, <- app_assoc. reflexivity.
    + rewrite Hrq2, Hrq1, <- app_assoc. reflexivity.
    + rewrite map_app.
      apply rising_app with (hi := List.length (fl ++ new1)).
      * rewrite length_app. lia.
      * destruct Hps1 as [->| ->]; simpl; [exact I|].
        split; [rewrite length_app; lia|exact I].
      * destruct Hps1 as [->| ->]; simpl; constructor; [lia|constructor].
      * exact Hri2.
    + apply Forall_app. split; [|exact Hall2].
      destruct Hps1 as [->| ->]; constructor; [|constructor].
      unfold under_way; simpl. repeat split. rewrite !length_app. lia.
Qed.

End Coordinator.

(** The coordinator with its binds written out. *)
Lemma coordinator_unfold env notes targetQuestions apiKey w :
  generateFlashcardsWithProgress env notes targetQuestions apiKey w
  = let sessionId := "session_" +:+ Js.show_N (Date_now (chance_at env (tick w))) in
    if kv_fault env (tick w + 1) then (Thrown Kv_error, advance 1 (advance 1 w))
    else
      match for_each (tiers targetQuestions)
              (tier_round env notes targetQuestions apiKey sessionId) []
              {| tick := tick w + 1 + 1;
                 kv_writes := kv_writes w ++
                   [(progress_key sessionId,
                     Progress (mkProgress 0 targetQuestions generating))];
                 requests := requests w |} with
      | (Returned fl, w1) =>
          let gathered :=
            if List.length fl <? targetQuestions
            then fl ++ generateAdvancedFlashcards
                         (fun i => chance_at env (tick w1 + i)) notes
                         (targetQuestions - List.length fl)
            else fl in
          let w2 :=
            if List.length fl <? targetQuestions
            then advance (targetQuestions - List.length fl) w1 else w1 in
          if kv_fault env (tick w2) then (Thrown Kv_error, advance 1 w2)
          else (Returned (firstn targetQuestions gathered),
                {| tick := tick w2 + 1;
                   kv_writes := kv_writes w2 ++
                     [(progress_key sessionId,
                       Progress (mkProgress (List.length gathered)
                                   targetQuestions completed))];
                   requests := requests w2 |})
      | (Thrown e, w1) => (Thrown e, w1)
      end.
Proof.
  unfold generateFlashcardsWithProgress, bind, date_now, kv_set, draw, ret.
  cbn [tick kv_writes requests advance].
  destruct (kv_fault env (tick w + 1)); [reflexivity|].
  destruct (for_each _ _ _ _) as [[fl|e] w1]; [|reflexivity].
  cbn zeta. destruct (List.length fl <? targetQuestions);
    match goal with |- context [kv_fault env ?t] => destruct (kv_fault env t) end;
    reflexivity.
Qed.

(** A run of the coordinator.  [gathered] is the array before the final
    [slice] and [ps] the records written before the final one.  The run
    throws exactly when the store refuses the first or the last write. *)
Lemma coordinator_spec env notes targetQuestions apiKey w :
  let sessionId := "session_" +:+ Js.show_N (Date_now (chance_at env (tick w))) in
  let record := progress_write sessionId in
  let run := generateFlashcardsWithProgress env notes targetQuestions apiKey w in
  (kv_fault env (tick w + 1) = true /\
   fst run = Thrown Kv_error /\
   kv_writes (snd run) = kv_writes w /\ requests (snd run) = requests w)
  \/
  (kv_fault env (tick w + 1) = false /\
   requests (snd run)
   = requests w ++ map (tier_request apiKey notes) (tiers targetQuestions) /\
   exists gathered ps,
     rising 0 (map current ps) /\
     Forall (under_way targetQuestions (List.length gathered)) ps /\
     ((exists t, kv_fault env t = true) /\
      fst run = Thrown Kv_error /\
      kv_writes (snd run) = kv_writes w ++ map record ps
      \/
      fst run = Returned (firstn targetQuestions gathered) /\
      kv_writes (snd run)
      = kv_writes w ++ map record
          (ps ++ [{| current := List.length gathered;
                     total := targetQuestions; status := completed |}]))).
Proof.
  intros sessionId record run. subst run.
  rewrite coordinator_unfold. fold sessionId. cbv zeta.
  destruct (kv_fault env (tick w + 1)) eqn:Hfirst.
  - left. cbn. auto.
  - right. split; [reflexivity|].
    match goal with |- context [for_each ?q ?b ?s ?w0] =>
      destruct (tier_loop_spec env notes apiKey sessionId targetQuestions q s w0)
        as (fl & ps & w1 & Hrun & Hkv & Hrq & Hri & Hall)
    end.
    rewrite Hrun. cbn [app kv_writes requests List.length] in *.
    set (gathered :=
           if List.length fl <? targetQuestions
           then fl ++ generateAdvancedFlashcards
                        (fun i => chance_at env (tick w1 + i)) notes
                        (targetQuestions - List.length fl)
           else fl).
    set (w2 := if List.length fl <? targetQuestions
               then advance (targetQuestions - List.length fl) w1 else w1).
    assert (Hw2 : kv_writes w2 = kv_writes w1 /\ requests w2 = requests w1).
    { subst w2. destruct (_ <? _); auto. }
    destruct Hw2 as [Hkv2 Hrq2].
    assert (Hgrow : List.length fl <= List.length gathered).
    { subst gathered. destruct (_ <? _); [rewrite length_app|]; lia. }
    assert (Hps : Forall (under_way targetQuestions (List.length gathered))
                    (mkProgress 0 targetQuestions generating :: ps)).
    { constructor.
      - unfold under_way; cbn. repeat split. lia.
      - eapply Forall_impl; [|exact Hall]. unfold under_way.
        intros p (H1 & H2 & H3). repeat split; auto. lia. }
    assert (Hrise : rising 0
                      (map current (mkProgress 0 targetQuestions generating :: ps))).
    { cbn. split; [lia|]. eapply rising_weaken; [|exact Hri]. lia. }
    destruct (kv_fault env (tick w2)) eqn:Hlast; cbn [fst snd advance kv_writes requests].
    + split; [rewrite Hrq2, Hrq; reflexivity|].
      exists gathered, (mkProgress 0 targetQuestions generating :: ps).
      split; [exact Hrise|]. split; [exact Hps|]. left.
      split; [eauto|]. split; [reflexivity|]. rewrite Hkv2, Hkv.
      rewrite <- app_assoc. reflexivity.
    + split; [rewrite Hrq2, Hrq; reflexivity|].
      exists gathered, (mkProgress 0 targetQuestions generating :: ps).
      split; [exact Hrise|]. split; [exact Hps|]. right.
      split; [reflexivity|]. rewrite Hkv2, Hkv.
      rewrite <- !app_assoc. cbn [app map]. rewrite map_app. reflexivity.
Qed.

Lemma written_between_app w w' l :
  kv_writes w' = kv_writes w ++ l -> written_between w w' = l.
Proof.
  unfold written_between. intros ->.
  rewrite skipn_app, skipn_all, Nat.sub_diag. reflexivity.
Qed.

Lemma progress_records_map sessionId ps :
  progress_records (map (progress_write sessionId) ps) = ps.
Proof.
  unfold progress_records. induction ps as [|p ps IH]; simpl; [|rewrite IH]; reflexivity.
Qed.

(** The coordinator returns at most the target, and throws only when the
    store refuses a write. *)
Lemma coordinator_outcome env notes target apiKey w :
  match fst (generateFlashcardsWithProgress env notes target apiKey w) with
  | Returned cards => List.length cards <= target
  | Thrown _ => exists t, kv_fault env t = true
  end.
Proof.
  destruct (coordinator_spec env notes target apiKey w)
    as [(Hf & -> & _)|(_ & _ & g & ps & _ & _ & [(Ht & -> & _)|(-> & _)])].
  - eauto.
  - exact Ht.
  - rewrite length_firstn. lia.
Qed.

(** C3. Generation never returns more cards than requested: the heuristic
    path returns at most [targetCount] cards, and the AI tier coordinator,
    whatever the tiers and the backfill come to, returns at most
    [targetQuestions] cards; it returns unless the store refuses a progress
    write. *)
Theorem never_more_than_requested env chance notes target apiKey w :
  List.length (generateAdvancedFlashcards chance notes target) <= target /\
  match fst (generateFlashcardsWithProgress env notes target apiKey w) with
  | Returned cards => List.length cards <= target
  | Thrown _ => exists t, kv_fault env t = true
  end.
Proof.
  split; [apply generateAdvancedFlashcards_length|apply coordinator_outcome].
Qed.

(** C2, as the code has it.  In every run of the AI tier coordinator that
    returns, whatever each tier came to, the progress records written
    during the run never go down in [current], and the last one has status
    [completed] and counts the cards gathered before the final truncation:
    the returned list has [min current target] cards, which is [current]
    whenever the tiers did not produce more than the target.  A run that
    does not return was refused a write by the store. *)
Theorem progress_sequence env notes target apiKey w :
  let run := generateFlashcardsWithProgress env notes target apiKey w in
  match fst run with
  | Returned cards =>
      exists earlier final,
        progress_records (written_between w (snd run)) = earlier ++ [final] /\
        Sorted le (map current (earlier ++ [final])) /\
        status final = completed /\
        List.length cards = Nat.min (current final) target
  | Thrown _ => exists t, kv_fault env t = true
  end.
Proof.
  intros run. subst run.
  destruct (coordinator_spec env notes target apiKey w)
    as [(Hf & -> & _)|(_ & _ & g & ps & Hri & Hall & [(Ht & -> & _)|(-> & Hkv)])].
  - eauto.
  - exact Ht.
  - exists ps, (mkProgress (List.length g) target completed).
    apply written_between_app in Hkv. rewrite Hkv, progress_records_map.
    split; [reflexivity|]. split.
    + apply rising_sorted with 0. rewrite map_app.
      apply rising_app with (hi := List.length g); [lia|exact Hri| |simpl; auto].
      apply Forall_map. eapply Forall_impl; [|exact Hall].
      intros p (H & _). exact H.
    + cbn. rewrite length_firstn. split; [reflexivity|]. lia.
Qed.

(** C2, as stated, fails when a tier produces more cards than the target:
    with a target of one card and a first reply holding two pairs, the run
    writes records with [current] 0, 2 and 2, the last one completed, and
    returns one card. *)
Lemma progress_overshoots :
  let run := generateFlashcardsWithProgress eager_service one_sentence
               (calculateQuestionCount one_sentence) "hf_key" dawn in
  calculateQuestionCount one_sentence = 1 /\
  progress_records (written_between dawn (snd run))
  = [mkProgress 0 1 generating; mkProgress 2 1 generating; mkProgress 2 1 completed] /\
  exists cards, fst run = Returned cards /\ List.length cards = 1 /\
                current (mkProgress 2 1 completed) <> List.length cards.
Proof.
  vm_compute. split; [reflexivity|]. split; [reflexivity|].
  eexists. split; [reflexivity|]. split; [reflexivity|]. discriminate.
Qed.

(** ** Persistence and the handler *)

Section Handler.

Variable env : Env.

(** Saving either returns one saved card per card, or was refused a write
    at some later tick. *)
Lemma save_each_spec cards user note timestamp : forall w,
  match fst (save_each env cards user note timestamp w) with
  | Returned saved => map card saved = cards
  | Thrown _ => exists t, tick w <= t /\ kv_fault env t = true
  end.
Proof.
  induction cards as [|c cards IH]; intros w; simpl.
  - reflexivity.
  - unfold bind, kv_set. destruct (kv_fault env (tick w)) eqn:Hf; simpl.
    + exists (tick w). split; [lia|exact Hf].
    + match goal with |- context [save_each env cards user note timestamp ?w1] =>
        specialize (IH w1);
        destruct (save_each env cards user note timestamp w1) as [[saved|e] w2]
      end; simpl in *.
      * now rewrite IH.
      * destruct IH as (t & Ht & Hft). exists t. split; [lia|exact Hft].
Qed.

Lemma saveFlashcards_spec cards user notes w :
  match fst (saveFlashcards env cards user notes w) with
  | Returned saved => map card saved = cards
  | Thrown _ => exists t, tick w <= t /\ kv_fault env t = true
  end.
Proof.
  unfold saveFlashcards, bind, date_now, kv_set. cbn [tick advance].
  destruct (kv_fault env (tick w + 1)) eqn:Hf; cbn [fst].
  - exists (tick w + 1). split; [lia|exact Hf].
  - match goal with |- context [save_each env cards ?u ?n ?ts ?w1] =>
      pose proof (save_each_spec cards u n ts w1) as H;
      destruct (save_each env cards u n ts w1) as [[saved|e] w2]
    end; cbn [fst tick] in *.
    + exact H.
    + destruct H as (t & Ht & Hft). exists t. split; [lia|exact Hft].
Qed.

(** The heuristic path answers with the cards of the heuristic
    coordinator, unless the store refuses a write. *)
Lemma heuristic_path_spec notes user target w :
  match fst (heuristic_path env notes user target w) with
  | Returned response =>
      exists saved,
        response = Json200 saved (List.length (map card saved)) /\
        map card saved
        = generateAdvancedFlashcards (fun i => chance_at env (tick w + i)) notes target
  | Thrown _ => exists t, tick w <= t /\ kv_fault env t = true
  end.
Proof.
  unfold heuristic_path, bind, draw, ret.
  match goal with |- context [saveFlashcards env ?c ?u ?n ?w1] =>
    pose proof (saveFlashcards_spec c u n w1) as H;
    destruct (saveFlashcards env c u n w1) as [[saved|e] w2]
  end; cbn [fst tick advance] in *.
  - exists saved. rewrite H. split; reflexivity.
  - destruct H as (t & Ht & Hft). exists t. split; [lia|exact Hft].
Qed.

(** The AI path throws only when the store refuses a write. *)
Lemma ai_path_spec notes user target apiKey w :
  match fst (ai_path env notes user target apiKey w) with
  | Returned response => exists saved n, response = Json200 saved n
  | Thrown _ => exists t, kv_fault env t = true
  end.
Proof.
  unfold ai_path, bind, ret.
  pose proof (coordinator_outcome env notes target apiKey w) as H.
  destruct (generateFlashcardsWithProgress env notes target apiKey w) as [[cards|e] w1];
    cbn [fst] in *; [|exact H].
  pose proof (saveFlashcards_spec cards user notes w1) as Hs.
  destruct (saveFlashcards env cards user notes w1) as [[saved|e] w2]; cbn [fst] in *.
  - eauto.
  - destruct Hs as (t & _ & Ht). eauto.
Qed.

End Handler.

Lemma handler_with_key env notes user apiKey w :
  notes <> "" -> HUGGINGFACE_API_KEY env = Some apiKey -> apiKey <> "" ->
  handler_body env (Body (JsString notes) user) w
  = try_catch
      (ai_path env notes user (calculateQuestionCount notes) apiKey)
      (fun _ => heuristic_path env notes user (calculateQuestionCount notes)) w.
Proof.
  intros Hn Hk Hne. unfold handler_body.
  apply String.eqb_neq in Hn. rewrite Hn, Hk.
  destruct apiKey; [contradiction|reflexivity].
Qed.

(** C1, as the code has it.  With a credential configured and notes that
    are not empty: once the coordinator has started, every tier is
    requested whatever the other tiers came to; when the store takes every
    write, the caller gets a successful answer whatever the service does;
    and when the AI path throws, the answer is that of the heuristic path,
    which is a successful one provided the store takes the writes of the
    fallback, and the generic error otherwise. *)
Theorem ai_failures_stay_inside env user notes apiKey w :
  notes <> "" -> HUGGINGFACE_API_KEY env = Some apiKey -> apiKey <> "" ->
  let target := calculateQuestionCount notes in
  let tiers_run := generateFlashcardsWithProgress env notes target apiKey w in
  let ai := ai_path env notes user target apiKey w in
  let answer := generate_flashcards env (Body (JsString notes) user) w in
  (kv_fault env (tick w + 1) = false ->
   requests (snd tiers_run)
   = requests w ++ map (tier_request apiKey notes) (tiers target)) /\
  ((forall t, kv_fault env t = false) ->
   exists saved n, fst answer = Json200 saved n) /\
  (forall e, fst ai = Thrown e ->
     answer = (let (outcome, w') := heuristic_path env notes user target (snd ai) in
               match outcome with
               | Returned response => (response, w')
               | Thrown _ => (Json500 "Failed to generate flashcards", w')
               end) /\
     ((forall t, tick (snd ai) <= t -> kv_fault env t = false) ->
      exists saved,
        fst answer = Json200 saved (List.length (map card saved)) /\
        map card saved
        = generateAdvancedFlashcards
            (fun i => chance_at env (tick (snd ai) + i)) notes target)).
Proof.
  intros Hn Hk Hne target tiers_run ai answer.
  assert (Hans : answer
                 = match try_catch (ai_path env notes user target apiKey)
                           (fun _ => heuristic_path env notes user target) w with
                   | (Returned response, w') => (response, w')
                   | (Thrown _, w') => (Json500 "Failed to generate flashcards", w')
                   end).
  { subst answer. unfold generate_flashcards.
    rewrite (handler_with_key env notes user apiKey w Hn Hk Hne). reflexivity. }
  split; [|split].
  - intros Hfirst. subst tiers_run.
    destruct (coordinator_spec env notes target apiKey w)
      as [(Hf & _)|(_ & Hrq & _)]; [congruence|exact Hrq].
  - intros Hok. rewrite Hans. unfold try_catch.
    pose proof (ai_path_spec env notes user target apiKey w) as Hai.
    destruct (ai_path env notes user target apiKey w) as [[r|e] w1]; cbn [fst] in *.
    + exact Hai.
    + destruct Hai as (t & Ht). rewrite Hok in Ht. discriminate.
  - intros e He. rewrite Hans. unfold try_catch. subst ai.
    destruct (ai_path env notes user target apiKey w) as [[r|e'] w1];
      cbn [fst snd] in *; [discriminate|].
    split.
    + destruct (heuristic_path env notes user target w1) as [[r|e2] w2]; reflexivity.
    + intros Hok.
      pose proof (heuristic_path_spec env notes user target w1) as Hh.
      destruct (heuristic_path env notes user target w1) as [[r|e2] w2];
        cbn [fst] in *.
      * exact Hh.
      * destruct Hh as (t & Ht & Hft). rewrite (Hok t Ht) in Hft. discriminate.
Qed.

(** C1, as stated, fails when the store is down: the first progress write
    throws, so the AI path throws; the fallback generates its cards and
    throws on its first write too, and the caller gets the generic error. *)
Lemma fallback_can_fail :
  fst (ai_path store_down mito "u1" (calculateQuestionCount mito) "hf_key" dawn)
  = Thrown Kv_error /\
  fst (generate_flashcards store_down (Body (JsString mito) "u1") dawn)
  = Json500 "Failed to generate flashcards".
Proof. vm_compute. split; reflexivity. Qed.

(** The theorem at a store that refuses only the first progress write. *)
Lemma ai_failures_stay_inside_witness :
  exists saved,
    fst (generate_flashcards store_hiccup (Body (JsString mito) "u1") dawn)
    = Json200 saved (List.length (map card saved)).
Proof.
  destruct (ai_failures_stay_inside store_hiccup "u1" mito "hf_key" dawn)
    as (_ & _ & H).
  - discriminate.
  - reflexivity.
  - discriminate.
  - destruct (H Kv_error) as (_ & H2); [vm_compute; reflexivity|].
    destruct H2 as (saved & Hs & _).
    + intros t Ht. vm_compute in Ht.
      destruct t as [|[|t]]; [inversion Ht| inversion Ht; inversion H1 |reflexivity].
    + exists saved. exact Hs.
Defined.

(** C7. A request whose notes are the empty string, or are not a string,
    is answered at once with the invalid-input error, and nothing is
    written: the world after the request is the world before it, with no
    note, no flashcard and no progress record added to the store. *)
Theorem invalid_notes_rejected env notes user w :
  notes = JsString "" \/ (forall s, notes <> JsString s) ->
  generate_flashcards env (Body notes user) w
  = (Json400 "Notes are required and must be a string", w) /\
  written_between w (snd (generate_flashcards env (Body notes user) w)) = [].
Proof.
  intros H.
  assert (E : generate_flashcards env (Body notes user) w
              = (Json400 "Notes are required and must be a string", w)).
  { destruct H as [->|H]; [reflexivity|].
    destruct notes; try reflexivity. exfalso. now apply (H s). }
  rewrite E. split; [reflexivity|].
  apply written_between_app. cbn. now rewrite app_nil_r.
Qed.

Lemma invalid_notes_rejected_witness :
  generate_flashcards eager_service (Body (JsString "") "u1") dawn
  = (Json400 "Notes are required and must be a string", dawn) /\
  generate_flashcards eager_service (Body JsNull "u1") dawn
  = (Json400 "Notes are required and must be a string", dawn).
Proof.
  split.
  - apply (invalid_notes_rejected eager_service (JsString "") "u1" dawn).
    left. reflexivity.
  - apply (invalid_notes_rejected eager_service JsNull "u1" dawn).
    right. discriminate.
Defined.

(** ** Sizing estimator *)

Lemma floor_times_tenths n k :
  Documented.floor_times n (Z.of_nat k # 10) = n * k / 10.
Proof.
  unfold Documented.floor_times, Qfloor, Qmult, inject_Z; cbn [Qnum Qden].
  rewrite Pos.mul_1_l. change (Z.pos 10) with (Z.of_nat 10).
  rewrite <- Nat2Z.inj_mul, <- Nat2Z.inj_div. apply Nat2Z.id.
Qed.

Lemma estimate_integer wordCount sentenceCount :
  Documented.estimate wordCount sentenceCount
  = if wordCount <? 100 then Nat.min 5 sentenceCount
    else if wordCount <? 300 then Nat.min 10 (sentenceCount * 7 / 10)
    else if wordCount <? 600 then Nat.min 20 (sentenceCount * 5 / 10)
    else Nat.min 30 (sentenceCount * 4 / 10).
Proof.
  unfold Documented.estimate.
  change (7 # 10) with (Z.of_nat 7 # 10).
  change (5 # 10) with (Z.of_nat 5 # 10).
  change (4 # 10) with (Z.of_nat 4 # 10).
  rewrite !floor_times_tenths. reflexivity.
Qed.

(** A split always has a first piece. *)
Lemma split_runs_from_nonempty sep in_run s : Js.split_runs_from sep in_run s <> [].
Proof.
  revert in_run; induction s as [|c s IH]; intros in_run; simpl; [discriminate|].
  destruct (sep c).
  - destruct in_run; [apply IH|discriminate].
  - specialize (IH false). destruct (Js.split_runs_from sep false s); [contradiction|].
    discriminate.
Qed.

(** C5, as the code has it.  The estimate depends on the notes alone.  It
    is the four-bucket table of the design document in the word count (the
    number of pieces between runs of whitespace, at least one) and the
    sentence count, where the sentence count is the number of fragments
    between runs of [.], [!] and [?] that are longer than 10 characters
    once trimmed.  It is zero when there is no such fragment, and never
    more than 30 or more than the sentence count. *)
Theorem sizing_estimate notes :
  let wordCount := List.length (Js.split_whitespace notes) in
  let sentenceCount :=
    List.length (filter (fun fragment => 10 <? String.length (Js.trim fragment))
                        (Js.split_sentences notes)) in
  calculateQuestionCount notes = Documented.estimate wordCount sentenceCount /\
  1 <= wordCount /\
  calculateQuestionCount notes <= 30 /\
  calculateQuestionCount notes <= sentenceCount /\
  (sentenceCount = 0 -> calculateQuestionCount notes = 0).
Proof.
  intros wordCount sentenceCount.
  assert (E : calculateQuestionCount notes
              = Documented.estimate wordCount sentenceCount).
  { rewrite estimate_integer. reflexivity. }
  assert (Hwc : 1 <= wordCount).
  { subst wordCount. unfold Js.split_whitespace, Js.split_runs.
    pose proof (split_runs_from_nonempty Js.is_space false notes) as H.
    destruct (Js.split_runs_from Js.is_space false notes); [contradiction|].
    simpl. lia. }
  assert (Hdiv : forall k, k <= 10 -> sentenceCount * k / 10 <= sentenceCount).
  { intros k Hk. apply Nat.Div0.div_le_upper_bound. nia. }
  rewrite E, estimate_integer.
  split; [reflexivity|]. split; [exact Hwc|].
  pose proof (Hdiv 7) as H7. pose proof (Hdiv 5) as H5. pose proof (Hdiv 4) as H4.
  repeat split; intros;
    destruct (wordCount <? 100); try lia;
    destruct (wordCount <? 300); try lia;
    destruct (wordCount <? 600); lia.
Qed.

(** C5, as stated, fails on a fragment of exactly ten characters: the
    documented rule keeps it and the table gives one question, while the
    code keeps only fragments longer than ten characters and returns
    none. *)
Lemma ten_characters_are_not_enough :
  Documented.questionCount "abcdefghij." = 1 /\
  calculateQuestionCount "abcdefghij." = 0.
Proof. split; reflexivity. Qed.

Lemma sizing_estimate_witness :
  calculateQuestionCount "Short. Also short!" = 0.
Proof.
  apply (sizing_estimate "Short. Also short!"). reflexivity.
Defined.

(** ** Strings *)

Lemma append_assoc a b c : (a +:+ b) +:+ c = a +:+ (b +:+ c).
Proof. induction a as [|x a IH]; simpl; [|rewrite IH]; reflexivity. Qed.

Lemma append_nil_r a : a +:+ "" = a.
Proof. induction a as [|x a IH]; simpl; [|rewrite IH]; reflexivity. Qed.

Lemma length_append a b : String.length (a +:+ b) = String.length a + String.length b.
Proof. induction a as [|x a IH]; simpl; [|rewrite IH]; reflexivity. Qed.

Lemma all_chars_append p a b :
  Js.all_chars p (a +:+ b) = Js.all_chars p a && Js.all_chars p b.
Proof.
  induction a as [|x a IH]; simpl; [reflexivity|].
  rewrite IH. now rewrite andb_assoc.
Qed.

Lemma all_chars_impl (p q : ascii -> bool) s :
  (forall c, p c = true -> q c = true) ->
  Js.all_chars p s = true -> Js.all_chars q s = true.
Proof.
  intros Hpq. induction s as [|c s IH]; simpl; [reflexivity|].
  intros H. apply andb_true_iff in H. destruct H as [H1 H2].
  now rewrite (Hpq c H1), IH.
Qed.

Lemma split_each_nonempty sep s : Js.split_each sep s <> [].
Proof.
  destruct s as [|c s]; simpl; [discriminate|].
  destruct (sep c); [discriminate|].
  destruct (Js.split_each sep s); discriminate.
Qed.

(** A string without separators is a single piece. *)
Lemma split_each_whole sep s :
  Js.all_chars (fun c => negb (sep c)) s = true -> Js.split_each sep s = [s].
Proof.
  induction s as [|c s IH]; simpl; [reflexivity|].
  intros H. apply andb_true_iff in H. destruct H as [H1 H2].
  apply negb_true_iff in H1. rewrite H1, (IH H2). reflexivity.
Qed.

(** A separator cuts the split in two. *)
Lemma split_each_cut sep a c b :
  sep c = true ->
  Js.split_each sep (a +:+ String c b) = Js.split_each sep a ++ Js.split_each sep b.
Proof.
  intros Hc. induction a as [|x a IH]; simpl.
  - now rewrite Hc.
  - destruct (sep x); rewrite IH; [reflexivity|].
    pose proof (split_each_nonempty sep a) as Hne.
    destruct (Js.split_each sep a); [contradiction|reflexivity].
Qed.

Lemma last_four_app {A} (front : list A) a b c d :
  last_four (front ++ [a; b; c; d]) = [a; b; c; d].
Proof. unfold last_four. rewrite rev_app_distr. reflexivity. Qed.

Lemma word_is_not_newline c : Js.is_word c = true -> negb (is_newline c) = true.
Proof. destruct c as [[] [] [] [] [] [] [] []]; intros H; try reflexivity; discriminate H. Qed.

Lemma split_lines_cut a b :
  Js.split_each is_newline (a +:+ newline +:+ b)
  = Js.split_each is_newline a ++ Js.split_each is_newline b.
Proof. exact (split_each_cut is_newline a (ascii_of_nat 10) b eq_refl). Qed.

Lemma labelled_line label o :
  Js.all_chars (fun c => negb (is_newline c)) label = true ->
  Js.all_chars (fun c => negb (is_newline c)) o = true ->
  Js.split_each is_newline (label +:+ o) = [label +:+ o].
Proof.
  intros Hl Ho. apply split_each_whole. rewrite all_chars_append, Hl, Ho. reflexivity.
Qed.

(** Reading the options back from the question. *)
Lemma options_read_question sentence o1 o2 o3 o4 :
  Forall (fun o => Js.all_chars (fun c => negb (is_newline c)) o = true) [o1; o2; o3; o4] ->
  options_read (mc_question sentence [o1; o2; o3; o4]) = [o1; o2; o3; o4].
Proof.
  intros Hall.
  inversion Hall as [|? ? H1 Hall1]; subst.
  inversion Hall1 as [|? ? H2 Hall2]; subst.
  inversion Hall2 as [|? ? H3 Hall3]; subst.
  inversion Hall3 as [|? ? H4 _]; subst.
  assert (E : mc_question sentence [o1; o2; o3; o4]
              = ("Which term is described by: " +:+ dquote +:+ sentence +:+ dquote +:+ "?")
                +:+ newline +:+ ("A) " +:+ o1)
                +:+ newline +:+ ("B) " +:+ o2)
                +:+ newline +:+ ("C) " +:+ o3)
                +:+ newline +:+ ("D) " +:+ o4)).
  { unfold mc_question. cbn [nth]. rewrite !append_assoc. reflexivity. }
  unfold options_read. rewrite E, !split_lines_cut.
  rewrite (labelled_line "A) " o1), (labelled_line "B) " o2),
    (labelled_line "C) " o3), (labelled_line "D) " o4)
    by (reflexivity || assumption).
  cbn [app]. rewrite last_four_app. reflexivity.
Qed.

(** ** Key terms are plain words *)

Lemma filter_chars_all p s : Js.all_chars p (Js.filter_chars p s) = true.
Proof.
  induction s as [|c s IH]; simpl; [reflexivity|].
  destruct (p c) eqn:Hp; simpl; [rewrite Hp|]; exact IH.
Qed.

Lemma lower_char_word c : Js.is_word c = true -> Js.is_word (Js.lower_char c) = true.
Proof. destruct c as [[] [] [] [] [] [] [] []]; intros H; try reflexivity; discriminate H. Qed.

Lemma toLowerCase_word s :
  Js.all_chars Js.is_word s = true -> Js.all_chars Js.is_word (Js.toLowerCase s) = true.
Proof.
  unfold Js.toLowerCase. induction s as [|c s IH]; simpl; [reflexivity|].
  intros H. apply andb_true_iff in H. destruct H as [H1 H2].
  apply andb_true_iff. split; [now apply lower_char_word|now apply IH].
Qed.

Lemma capitalised_plain word :
  Js.starts_capitalised word = true -> plain (Js.strip_non_word word).
Proof.
  intros H. split; [|apply filter_chars_all].
  destruct word as [|a [|b r]]; try discriminate H.
  simpl in H. apply andb_true_iff in H. destruct H as [Ha _].
  unfold Js.strip_non_word. simpl. unfold Js.is_word at 1. rewrite Ha. discriminate.
Qed.

Lemma cleaned_plain word :
  (3 <? String.length (Js.toLowerCase (Js.strip_non_word word))) = true ->
  plain (Js.toLowerCase (Js.strip_non_word word)).
Proof.
  intros H. split.
  - intros E. rewrite E in H. discriminate H.
  - apply toLowerCase_word, filter_chars_all.
Qed.

Lemma assign_plain k v o : plain k -> keys_plain o -> keys_plain (KeyTerms.assign k v o).
Proof.
  unfold keys_plain. intros Hk. induction o as [|[k' v'] o IH]; intros Ho; simpl.
  - constructor; [exact Hk|constructor].
  - inversion Ho; subst. destruct (k' =? k)%string; constructor; auto.
Qed.

Lemma bump_plain k o : plain k -> keys_plain o -> keys_plain (KeyTerms.bump k o).
Proof.
  intros Hk Ho. unfold KeyTerms.bump.
  destruct (KeyTerms.own k o) as [[n|]|].
  - now apply assign_plain.
  - now apply assign_plain.
  - destruct (k =? "__proto__")%string; [exact Ho|].
    destruct (k =? "constructor")%string; now apply assign_plain.
Qed.

Lemma insert_index_plain e l :
  plain (fst e) -> keys_plain l -> keys_plain (KeyTerms.insert_index e l).
Proof.
  unfold keys_plain. intros He. induction l as [|h t IH]; intros Hl; simpl.
  - constructor; [exact He|constructor].
  - inversion Hl; subst.
    destruct (_ <=? _)%N; constructor; auto.
Qed.

Lemma filter_plain f o : keys_plain o -> keys_plain (filter f o).
Proof.
  unfold keys_plain. intros Ho. apply Forall_forall. intros e He. apply filter_In in He.
  destruct He as [He _]. revert e He. now apply Forall_forall.
Qed.

Lemma entries_plain o : keys_plain o -> keys_plain (KeyTerms.entries o).
Proof.
  intros Ho. unfold KeyTerms.entries. apply Forall_app. split.
  - pose proof (filter_plain (fun e => KeyTerms.is_array_index (fst e)) o Ho) as Hf.
    induction Hf as [|e l He Hl IH]; simpl; [constructor|].
    now apply insert_index_plain.
  - now apply filter_plain.
Qed.

Lemma frequent_plain o : keys_plain o -> Forall plain (KeyTerms.frequent o).
Proof.
  intros Ho. unfold KeyTerms.frequent. apply Forall_map.
  apply filter_plain, entries_plain, Ho.
Qed.

Lemma visit_plain acc word :
  keys_plain (fst acc) /\ Forall plain (snd acc) ->
  keys_plain (fst (KeyTerms.visit acc word)) /\
  Forall plain (snd (KeyTerms.visit acc word)).
Proof.
  destruct acc as [termFreq keyTerms]. intros [Ho Hk]. unfold KeyTerms.visit.
  cbn [fst snd] in *. split.
  - destruct (3 <? _) eqn:Hlen; [|exact Ho].
    apply bump_plain; [|exact Ho]. now apply cleaned_plain.
  - destruct (Js.starts_capitalised word) eqn:Hc; cbn [andb]; [|exact Hk].
    destruct (3 <? String.length word); [|exact Hk].
    apply Forall_app. split; [exact Hk|].
    constructor; [|constructor]. now apply capitalised_plain.
Qed.

Lemma fold_visit_plain words : forall acc,
  keys_plain (fst acc) /\ Forall plain (snd acc) ->
  keys_plain (fst (fold_left KeyTerms.visit words acc)) /\
  Forall plain (snd (fold_left KeyTerms.visit words acc)).
Proof.
  induction words as [|word words IH]; intros acc H; simpl; [exact H|].
  apply IH, visit_plain, H.
Qed.

Lemma set_of_subset l x : In x (KeyTerms.set_of l) -> In x l.
Proof.
  revert x; induction l as [|y l IH]; intros x H; simpl in *; [exact H|].
  destruct H as [H|H]; [now left|].
  apply filter_In in H. right. apply IH, H.
Qed.

(** Every key term is made of word characters and is not empty. *)
Lemma extractKeyTerms_plain text : Forall plain (extractKeyTerms text).
Proof.
  unfold extractKeyTerms.
  pose proof (fold_visit_plain (Js.split_whitespace text) ([], [])) as H.
  destruct (fold_left KeyTerms.visit (Js.split_whitespace text) ([], []))
    as [termFreq keyTerms].
  cbn [fst snd] in H. destruct H as [Ho Hk]; [split; constructor|].
  apply Forall_forall. intros x Hx.
  apply In_firstn, set_of_subset, in_app_or in Hx.
  destruct Hx as [Hx|Hx].
  - revert x Hx. now apply Forall_forall.
  - revert x Hx. apply Forall_forall. now apply frequent_plain.
Qed.

(** ** Multiple-choice cards *)

Lemma cyclic_In pool index : pool <> [] -> In (cyclic pool index) pool.
Proof.
  intros Hne. unfold cyclic. apply nth_In. apply Nat.mod_upper_bound.
  destruct pool; [contradiction|discriminate].
Qed.

Lemma indexOf_In term choices :
  In term choices ->
  exists i, indexOf term choices = Some i /\ nth_error choices i = Some term.
Proof.
  induction choices as [|c choices IH]; intros Hin; [destruct Hin|]. simpl.
  destruct (String.eqb_spec c term) as [->|Hne].
  - exists 0. split; reflexivity.
  - destruct Hin as [Heq|Hin]; [contradiction|].
    destruct (IH Hin) as (i & Hi & Hn). exists (S i). rewrite Hi. split; [reflexivity|exact Hn].
Qed.

Lemma plain_no_newline t :
  plain t -> Js.all_chars (fun c => negb (is_newline c)) t = true.
Proof.
  intros [_ H]. revert H. apply all_chars_impl. exact word_is_not_newline.
Qed.

Lemma shown_no_newline choices i :
  Forall plain choices ->
  Js.all_chars (fun c => negb (is_newline c)) (shown choices i) = true.
Proof.
  intros Hall. unfold shown. destruct (nth_error choices i) as [s|] eqn:Hn; [|reflexivity].
  apply plain_no_newline. apply nth_error_In in Hn. revert s Hn. now apply Forall_forall.
Qed.

Lemma displayed_no_newline choices :
  Forall plain choices ->
  Forall (fun o => Js.all_chars (fun c => negb (is_newline c)) o = true)
         (displayed_options choices).
Proof.
  intros Hall. unfold displayed_options.
  repeat (constructor; [now apply shown_no_newline|]).
  constructor; [|constructor].
  unfold shown_or_none. destruct (truthy _); [now apply shown_no_newline|reflexivity].
Qed.

(** The option displayed at the position of a plain choice is that choice. *)
Lemma displayed_at choices i term :
  plain term -> i < 4 -> nth_error choices i = Some term ->
  nth_error (displayed_options choices) i = Some term.
Proof.
  intros [Hne _] Hi Hn. unfold displayed_options, shown_or_none, shown.
  apply String.eqb_neq in Hne.
  destruct i as [|[|[|[|i]]]]; [| | | |lia]; rewrite ?Hn; cbn [truthy]; rewrite ?Hne;
    reflexivity.
Qed.

(** The round trip on one call of the builder, for every outcome of the
    shuffle that is a rearrangement of the array. *)
Lemma mc_round_trip ch sentences keyTerms index card :
  (forall l, Permutation l (sort_random ch l)) ->
  Forall plain keyTerms ->
  generateMultipleChoiceCard ch sentences keyTerms index = Some card ->
  exists position,
    In (cyclic keyTerms index) keyTerms /\
    letter_read (answer card) = Some position /\ position < 4 /\
    answer card
    = Js.fromCharCode (65 + position) +:+ ") " +:+ cyclic keyTerms index /\
    nth_error (options_read (question card)) position = Some (cyclic keyTerms index).
Proof.
  intros Hperm Hplain. unfold generateMultipleChoiceCard.
  destruct keyTerms as [|k0 ks]; [discriminate|].
  destruct sentences as [|s0 ss]; [discriminate|].
  remember (k0 :: ks) as keyTerms eqn:Ek.
  assert (Hterm : In (cyclic keyTerms index) keyTerms).
  { apply cyclic_In. rewrite Ek. discriminate. }
  set (term := cyclic keyTerms index) in *.
  assert (Hpt : plain term) by exact (proj1 (Forall_forall _ _) Hplain term Hterm).
  destruct (find_sentence (s0 :: ss) term) as [found|]; [|discriminate].
  destruct (truthy (Some found)); [|discriminate].
  set (otherTerms := firstn 3 (filter (fun t => negb (t =? term)%string) keyTerms)).
  set (choices := sort_random ch (term :: otherTerms)).
  intros [= <-]. cbn [answer question].
  assert (Hp : Permutation (term :: otherTerms) choices) by apply Hperm.
  assert (Hin : In term choices).
  { eapply Permutation_in; [exact Hp|now left]. }
  assert (Hlen : List.length choices <= 4).
  { rewrite <- (Permutation_length Hp). simpl. subst otherTerms.
    rewrite length_firstn. lia. }
  assert (Hplain' : Forall plain choices).
  { eapply Permutation_Forall; [exact Hp|]. constructor.
    - exact Hpt.
    - apply Forall_forall. intros x Hx. subst otherTerms.
      apply In_firstn, filter_In in Hx. destruct Hx as [Hx _].
      revert x Hx. now apply Forall_forall. }
  destruct (indexOf_In term choices Hin) as (i & Hi & Hn).
  assert (Hi4 : i < 4).
  { assert (i < List.length choices) by (apply nth_error_Some; congruence). lia. }
  exists i. split; [exact Hterm|].
  unfold answer_letter. rewrite Hi. split; [|split; [exact Hi4|split; [reflexivity|]]].
  - unfold letter_read, Js.fromCharCode, Js.code. cbn [String.append].
    rewrite nat_ascii_embedding by lia. f_equal. lia.
  - pose proof (displayed_no_newline choices Hplain') as Hnl.
    pose proof (displayed_at choices i term) as Hat.
    unfold displayed_options in *. rewrite options_read_question by exact Hnl.
    apply Hat; [exact Hpt|exact Hi4|exact Hn].
Qed.

(** C8. For every multiple-choice card of the heuristic path, and every
    outcome of the shuffle that rearranges the choices, the answer is a
    letter among A to D, a parenthesis, a space and the correct term, and
    the option read off the question at the position of that letter is
    that same term. *)
Theorem multiple_choice_round_trip chance notes targetCount card :
  (forall cursor l, Permutation l (sort_random (chance cursor) l)) ->
  In card (generateAdvancedFlashcards chance notes targetCount) ->
  type card = multiple_choice ->
  exists position term,
    In term (extractKeyTerms notes) /\
    letter_read (answer card) = Some position /\ position < 4 /\
    answer card = Js.fromCharCode (65 + position) +:+ ") " +:+ term /\
    nth_error (options_read (question card)) position = Some term.
Proof.
  intros Hperm Hin Hty.
  apply generateAdvancedFlashcards_origin in Hin.
  destruct Hin as (t & cursor & _ & _ & Hb).
  pose proof (build_stamp _ _ _ _ _ _ Hb) as [Ht _].
  rewrite Hty in Ht. subst t. cbn [build] in Hb.
  destruct (mc_round_trip _ _ _ _ _ (Hperm cursor) (extractKeyTerms_plain notes) Hb)
    as (position & H).
  exists position, (cyclic (extractKeyTerms notes) cursor). exact H.
Qed.

Lemma multiple_choice_round_trip_witness :
  let card := nth 3 (generateAdvancedFlashcards (turned 7) cells 5)
                (mkCard "" "" "" basic ai_generated) in
  answer card = "B) cells" /\
  exists position term,
    In term (extractKeyTerms cells) /\
    letter_read (answer card) = Some position /\ position < 4 /\
    answer card = Js.fromCharCode (65 + position) +:+ ") " +:+ term /\
    nth_error (options_read (question card)) position = Some term.
Proof.
  intros card. split; [reflexivity|].
  apply (multiple_choice_round_trip (turned 7) cells 5 card).
  - intros cursor l. apply Permutation_rev.
  - apply nth_In. vm_compute. repeat constructor.
  - reflexivity.
Defined.

(** C9 on the code.  On notes with two key terms the heuristic path makes
    a multiple-choice card whose third option reads [undefined]: only the
    fourth option falls back on [None of the above]. *)
Lemma third_option_reads_undefined :
  calculateQuestionCount cells = 5 /\
  extractKeyTerms cells = ["Cells"; "cells"] /\
  exists card,
    nth_error (generateAdvancedFlashcards (still 7) cells 5) 3 = Some card /\
    type card = multiple_choice /\
    question card
    = "Which term is described by: " +:+ dquote +:+ "Cells are tiny things"
      +:+ dquote +:+ "?" +:+ newline +:+ "A) cells" +:+ newline +:+ "B) Cells"
      +:+ newline +:+ "C) undefined" +:+ newline +:+ "D) None of the above" /\
    options_read (question card) = ["cells"; "Cells"; "undefined"; none_of_the_above].
Proof.
  split; [reflexivity|]. split; [reflexivity|].
  eexists. split; [vm_compute; reflexivity|].
  split; [reflexivity|]. split; reflexivity.
Qed.

(** ** Quotas *)

Lemma ceiling_times_tenths n k :
  Documented.ceiling_times n (Z.of_nat k # 10) = (n * k + 9) / 10.
Proof.
  unfold Documented.ceiling_times. apply Nat2Z.inj. rewrite Z2Nat.id.
  - unfold Qceiling, Qfloor, Qopp, Qmult, inject_Z; cbn [Qnum Qden].
    rewrite Pos.mul_1_l, Nat2Z.inj_div, Nat2Z.inj_add, Nat2Z.inj_mul.
    change (Z.of_nat 9) with 9%Z. change (Z.of_nat 10) with 10%Z.
    set (a := (Z.of_nat n * Z.of_nat k)%Z).
    assert (0 <= a)%Z by (subst a; lia).
    pose proof (Z.div_mod (a + 9) 10 ltac:(lia)).
    pose proof (Z.mod_pos_bound (a + 9) 10 ltac:(lia)).
    pose proof (Z.div_mod (- a) 10 ltac:(lia)).
    pose proof (Z.mod_pos_bound (- a) 10 ltac:(lia)).
    lia.
  - unfold Qceiling, Qfloor, Qopp, Qmult, inject_Z; cbn [Qnum Qden].
    rewrite Pos.mul_1_l.
    set (a := (Z.of_nat n * Z.of_nat k)%Z).
    assert (0 <= a)%Z by (subst a; lia).
    pose proof (Z.div_mod (- a) 10 ltac:(lia)).
    pose proof (Z.mod_pos_bound (- a) 10 ltac:(lia)).
    lia.
Qed.

(** The quota of an archetype is the ceiling of the target times its
    weight, and the counts of the tiers are the ceiling of 0.4 of the
    target, twice, and the floor of 0.2 of it. *)
Lemma quotas_as_documented targetCount :
  map (fun row => typeCount targetCount (snd row)) questionTypes
  = map (Documented.ceiling_times targetCount) [3 # 10; 3 # 10; 2 # 10; 2 # 10] /\
  map snd (tiers targetCount)
  = [Documented.ceiling_times targetCount (4 # 10);
     Documented.ceiling_times targetCount (4 # 10);
     Documented.floor_times targetCount (2 # 10)].
Proof.
  unfold questionTypes, tiers, typeCount. cbn [map snd].
  change (3 # 10) with (Z.of_nat 3 # 10). change (2 # 10) with (Z.of_nat 2 # 10).
  change (4 # 10) with (Z.of_nat 4 # 10).
  rewrite !ceiling_times_tenths, floor_times_tenths. split; reflexivity.
Qed.






(** ** Occurrences of a word in a string *)


Lemma prefix_cons a t b s :
  prefix (String a t) (String b s) = if ascii_dec a b then prefix t s else false.
Proof. reflexivity. Qed.

Lemma prefix_app t r : prefix t (t +:+ r) = true.
Proof.
  induction t as [|a t IH]; [destruct r; reflexivity|].
  cbn [String.append]. rewrite prefix_cons.
  destruct (ascii_dec a a); [exact IH|contradiction].
Qed.



(** A word without separators starts in front of a separator only if it
    ends there too. *)
Lemma prefix_cut (sep : ascii -> bool) t x c r :
  Js.all_chars (fun a => negb (sep a)) t = true -> sep c = true ->
  prefix t (x +:+ String c r) = prefix t x.
Proof.
  intros Ht Hc. revert t Ht; induction x as [|b x IH]; intros t Ht.
  - destruct t as [|a t]; [reflexivity|].
    cbn [String.append]. rewrite prefix_cons.
    destruct (ascii_dec a c) as [->|_]; [|reflexivity].
    simpl in Ht. rewrite Hc in Ht. discriminate.
  - destruct t as [|a t]; [reflexivity|].
    cbn [String.append]. rewrite !prefix_cons.
    destruct (ascii_dec a b); [|reflexivity].
    apply IH. simpl in Ht. apply andb_true_iff in Ht. apply Ht.
Qed.

Lemma includes_nil t : t <> "" -> Js.includes "" t = false.
Proof. destruct t; [contradiction|reflexivity]. Qed.

Lemma includes_cons a s t :
  Js.includes (String a s) t = if prefix t (String a s) then true else Js.includes s t.
Proof. reflexivity. Qed.



Lemma includes_unfold s t :
  Js.includes s t
  = if prefix t s then true
    else match s with
         | EmptyString => false
         | String _ r => Js.includes r t
         end.
Proof. destruct s; reflexivity. Qed.



(** A word without separators occurs around a separator only on one side
    of it. *)
Lemma includes_cut (sep : ascii -> bool) t x c r :
  t <> "" -> Js.all_chars (fun a => negb (sep a)) t = true -> sep c = true ->
  Js.includes (x +:+ String c r) t = Js.includes x t || Js.includes r t.
Proof.
  intros Hne Ht Hc. induction x as [|b x IH].
  - cbn [String.append]. rewrite includes_cons, (includes_nil t Hne).
    change (String c r) with ("" +:+ String c r).
    rewrite (prefix_cut sep t "" c r Ht Hc).
    destruct t; [contradiction|reflexivity].
  - cbn [String.append]. rewrite !includes_cons.
    change (String b (x +:+ String c r)) with (String b x +:+ String c r).
    rewrite (prefix_cut sep t (String b x) c r Ht Hc), IH.
    now destruct (prefix t (String b x)).
Qed.



(** ** Sentences as rows of words *)


Lemma word_is_not_blank c : Js.is_word c = true -> negb (Js.is_blank c) = true.
Proof. destruct c as [[] [] [] [] [] [] [] []]; intros H; try reflexivity; discriminate H. Qed.








Lemma trimStart_suffix s : exists a, s = a +:+ Js.trimStart s.
Proof.
  induction s as [|c s [a IH]]; [now exists ""|]. simpl.
  destruct (Js.is_space c).
  - exists (String c a). simpl. now rewrite <- IH.
  - now exists "".
Qed.

Lemma trimEnd_prefix s : exists b, s = Js.trimEnd s +:+ b.
Proof.
  induction s as [|c s [b IH]]; [now exists ""|]. simpl.
  destruct (Js.trimEnd s) as [|d t] eqn:E.
  - destruct (Js.is_space c); [now exists (String c s)|now exists s].
  - exists b. cbn [String.append] in *. now f_equal.
Qed.



(** ** Fill-in-the-blank cards *)








Lemma heuristic_difficulty_by_archetype_witness :
  let card := nth 8 (generateAdvancedFlashcards (turned 7) mito 10)
                (mkCard "" "" "" basic ai_generated) in
  type card = multiple_choice /\ difficulty card = advanced.
Proof.
  intros card.
  assert (E : type card = multiple_choice) by (vm_compute; reflexivity).
  destruct (heuristic_difficulty_by_archetype (turned 7) mito 10 card)
    as [[H _]|[[H _]|[[H _]|H]]].
  - apply nth_In. vm_compute. repeat constructor.
  - rewrite E in H. discriminate H.
  - rewrite E in H. discriminate H.
  - rewrite E in H. discriminate H.
  - exact H.
Defined.

(** * Further properties *)

(** ** Key-term extractor *)

Lemma set_of_NoDup l : NoDup (KeyTerms.set_of l).
Proof.
  induction l as [|x l IH]; simpl; [constructor|].
  constructor.
  - intros H. apply filter_In in H. destruct H as [_ H].
    rewrite String.eqb_refl in H. discriminate H.
  - now apply NoDup_filter.
Qed.

Lemma NoDup_firstn {A} n (l : list A) : NoDup l -> NoDup (firstn n l).
Proof.
  intros H. rewrite <- (firstn_skipn n l) in H.
  now apply NoDup_app_remove_r in H.
Qed.

(** X1. The key terms are pairwise distinct and at most twenty. *)
Theorem key_terms_distinct text :
  NoDup (extractKeyTerms text) /\ List.length (extractKeyTerms text) <= 20.
Proof.
  unfold extractKeyTerms.
  destruct (fold_left KeyTerms.visit (Js.split_whitespace text) ([], []))
    as [termFreq keyTerms].
  split.
  - apply NoDup_firstn, set_of_NoDup.
  - rewrite length_firstn. lia.
Qed.

Lemma occurrences_snoc term done word :
  occurrences term (done ++ [word])
  = occurrences term done + (if (cleaned word =? term)%string then 1 else 0).
Proof.
  unfold occurrences. rewrite filter_app, length_app. simpl.
  destruct (cleaned word =? term)%string; reflexivity.
Qed.

Lemma own_In k o v : KeyTerms.own k o = Some v -> In (k, v) o.
Proof.
  induction o as [|[k' v'] o IH]; simpl; [discriminate|].
  destruct (String.eqb_spec k' k) as [->|_].
  - intros [= ->]. now left.
  - intros H. right. now apply IH.
Qed.

Lemma In_assign e k v o : In e (KeyTerms.assign k v o) -> e = (k, v) \/ In e o.
Proof.
  induction o as [|[k' v'] o IH]; simpl.
  - intros [<-|[]]. now left.
  - destruct (k' =? k)%string; simpl.
    + intros [<-|H]; [now left|right; now right].
    + intros [<-|H]; [right; now left|].
      destruct (IH H) as [->|H']; [now left|right; now right].
Qed.

Lemma In_insert_index e x l : In e (KeyTerms.insert_index x l) -> e = x \/ In e l.
Proof.
  induction l as [|h t IH]; simpl.
  - intros [<-|[]]. now left.
  - destruct (_ <=? _)%N; simpl.
    + intros [<-|H]; [now left|now right].
    + intros [<-|H]; [right; now left|].
      destruct (IH H) as [->|H']; [now left|right; now right].
Qed.

Lemma entries_In e o : In e (KeyTerms.entries o) -> In e o.
Proof.
  unfold KeyTerms.entries. intros H. apply in_app_or in H. destruct H as [H|H].
  - assert (G : forall l, In e (fold_right KeyTerms.insert_index [] l) -> In e l).
    { induction l as [|x l IH]; simpl; [auto|].
      intros Hx. apply In_insert_index in Hx. destruct Hx as [->|Hx]; auto. }
    apply G, filter_In in H. apply H.
  - apply filter_In in H. apply H.
Qed.

Lemma visit_counted done acc word :
  counted done acc -> counted (done ++ [word]) (KeyTerms.visit acc word).
Proof.
  destruct acc as [o k]. intros [Ho Hk]. unfold KeyTerms.visit.
  fold (cleaned word). fold (capitalised word). split; cbn [fst snd] in *.
  - assert (Hold : forall key n, In (key, KeyTerms.Count n) o ->
                                 n <= occurrences key (done ++ [word])).
    { intros key n H. rewrite occurrences_snoc. specialize (Ho key n H). lia. }
    destruct (3 <? String.length (cleaned word)); [|exact Hold].
    intros key n Hin. unfold KeyTerms.bump in Hin.
    destruct (KeyTerms.own (cleaned word) o) as [[m|]|] eqn:Hown.
    + apply In_assign in Hin. destruct Hin as [[= -> ->]|Hin]; [|now apply Hold].
      apply own_In in Hown. specialize (Ho _ _ Hown).
      rewrite occurrences_snoc, String.eqb_refl. lia.
    + apply In_assign in Hin. destruct Hin as [[= ]|Hin]. now apply Hold.
    + destruct (cleaned word =? "__proto__")%string; [now apply Hold|].
      destruct (cleaned word =? "constructor")%string.
      * apply In_assign in Hin. destruct Hin as [[= ]|Hin]. now apply Hold.
      * apply In_assign in Hin. destruct Hin as [[= -> ->]|Hin]; [|now apply Hold].
        rewrite occurrences_snoc, String.eqb_refl. lia.
  - assert (Hold : forall t, In t k ->
                     exists w, In w (done ++ [word]) /\ capitalised w = true /\
                               t = Js.strip_non_word w).
    { intros t H. destruct (Hk t H) as (w & Hw & Hc & Ht).
      exists w. split; [apply in_or_app; now left|now split]. }
    destruct (capitalised word) eqn:Hc; [|exact Hold].
    intros t H. apply in_app_or in H. destruct H as [H|[<-|[]]]; [now apply Hold|].
    exists word. split; [apply in_or_app; right; now left|now split].
Qed.

Lemma fold_visit_counted rest : forall done acc,
  counted done acc -> counted (done ++ rest) (fold_left KeyTerms.visit rest acc).
Proof.
  induction rest as [|word rest IH]; intros done acc H; simpl.
  - now rewrite app_nil_r.
  - replace (done ++ word :: rest) with ((done ++ [word]) ++ rest)
      by (now rewrite <- app_assoc).
    apply IH, visit_counted, H.
Qed.

(** X2. Every key term is a non-empty string of word characters, and it is
    either a capitalised word of the text (a capital, a small letter, more
    than three characters) without its punctuation, or a string of more
    than four characters to which at least two words of the text clean. *)
Theorem key_terms_provenance text term :
  In term (extractKeyTerms text) ->
  plain term /\
  ((exists word, In word (Js.split_whitespace text) /\ capitalised word = true /\
                 term = Js.strip_non_word word)
   \/ (4 < String.length term /\ 2 <= occurrences term (Js.split_whitespace text))).
Proof.
  intros Hin. split.
  { pose proof (extractKeyTerms_plain text) as H. rewrite Forall_forall in H. auto. }
  unfold extractKeyTerms in Hin.
  assert (H0 : counted [] ([], [])) by (split; [intros ? ? []|intros ? []]).
  pose proof (fold_visit_counted (Js.split_whitespace text) [] ([], []) H0) as H.
  destruct (fold_left KeyTerms.visit (Js.split_whitespace text) ([], []))
    as [termFreq keyTerms].
  destruct H as [Ho Hk]. cbn [fst snd app] in *.
  apply In_firstn, set_of_subset, in_app_or in Hin. destruct Hin as [Hin|Hin].
  - left. now apply Hk.
  - right. unfold KeyTerms.frequent in Hin. apply in_map_iff in Hin.
    destruct Hin as ([key v] & <- & He). apply filter_In in He.
    destruct He as [He Hf]. cbn [fst snd] in *.
    apply andb_true_iff in Hf. destruct Hf as [Hm Hl].
    apply Nat.ltb_lt in Hl. split; [exact Hl|].
    destruct v as [n|]; [|discriminate Hm]. simpl in Hm. apply Nat.ltb_lt in Hm.
    apply entries_In in He. specialize (Ho _ _ He). lia.
Qed.

Lemma fold_visit_terms words : forall o k,
  snd (fold_left KeyTerms.visit words (o, k))
  = k ++ map Js.strip_non_word (filter capitalised words).
Proof.
  induction words as [|word words IH]; intros o k; cbn [fold_left filter map].
  - now rewrite app_nil_r.
  - assert (E : KeyTerms.visit (o, k) word
                = (if 3 <? String.length (cleaned word)
                   then KeyTerms.bump (cleaned word) o else o,
                   if capitalised word then k ++ [Js.strip_non_word word] else k))
      by reflexivity.
    rewrite E, IH. destruct (capitalised word); [|reflexivity].
    cbn [map]. now rewrite <- app_assoc.
Qed.

(** X3. Capitalised words come first: when the text has a capitalised
    word, the first key term is the first such word without its
    punctuation, whatever words are frequent. *)
Theorem first_key_term text word others :
  filter capitalised (Js.split_whitespace text) = word :: others ->
  exists tail, extractKeyTerms text = Js.strip_non_word word :: tail.
Proof.
  intros H. unfold extractKeyTerms.
  pose proof (fold_visit_terms (Js.split_whitespace text) [] []) as Hk.
  destruct (fold_left KeyTerms.visit (Js.split_whitespace text) ([], []))
    as [termFreq keyTerms] eqn:E.
  unfold KeyTerms.Obj in *. rewrite E in Hk. cbn [snd app] in Hk. rewrite Hk, H.
  cbn [map app KeyTerms.set_of firstn]. eexists. reflexivity.
Qed.

Lemma first_key_term_witness :
  exists tail, extractKeyTerms "the first Hello, there hello Again" = "Hello" :: tail.
Proof.
  apply (first_key_term "the first Hello, there hello Again" "Hello," ["Again"]).
  reflexivity.
Defined.

Lemma key_terms_provenance_witness :
  plain "cells" /\
  ((exists word, In word (Js.split_whitespace cells) /\ capitalised word = true /\
                 "cells" = Js.strip_non_word word)
   \/ (4 < String.length "cells" /\ 2 <= occurrences "cells" (Js.split_whitespace cells))).
Proof.
  apply (key_terms_provenance cells "cells"). vm_compute. right. left. reflexivity.
Defined.

(** ** Definition and true/false cards *)

Lemma lower_char_space c : Js.is_space (Js.lower_char c) = Js.is_space c.
Proof. destruct c as [[] [] [] [] [] [] [] []]; reflexivity. Qed.

Lemma word_is_not_space c : Js.is_word c = true -> negb (Js.is_space c) = true.
Proof. destruct c as [[] [] [] [] [] [] [] []]; intros H; try reflexivity; discriminate H. Qed.

Lemma trimStart_lower s :
  Js.trimStart (Js.toLowerCase s) = Js.toLowerCase (Js.trimStart s).
Proof.
  unfold Js.toLowerCase. induction s as [|c s IH]; simpl; [reflexivity|].
  rewrite lower_char_space. destruct (Js.is_space c); [exact IH|reflexivity].
Qed.

Lemma trimEnd_lower s :
  Js.trimEnd (Js.toLowerCase s) = Js.toLowerCase (Js.trimEnd s).
Proof.
  unfold Js.toLowerCase. induction s as [|c s IH]; simpl; [reflexivity|].
  rewrite IH, lower_char_space.
  destruct (Js.trimEnd s); simpl; [destruct (Js.is_space c)|]; reflexivity.
Qed.

Lemma trim_lower s : Js.trim (Js.toLowerCase s) = Js.toLowerCase (Js.trim s).
Proof. unfold Js.trim. now rewrite trimStart_lower, trimEnd_lower. Qed.

(** The whitespace [trimEnd] removes. *)
Lemma trimEnd_split s :
  exists b, s = Js.trimEnd s +:+ b /\ Js.all_chars Js.is_space b = true.
Proof.
  induction s as [|c s (b & IH & Hb)]; [now exists ""|]. simpl.
  destruct (Js.trimEnd s) as [|d t] eqn:E.
  - destruct (Js.is_space c) eqn:Hc.
    + exists (String c s). split; [reflexivity|].
      simpl. rewrite Hc. simpl in IH. now rewrite IH.
    + exists s. split; [reflexivity|]. simpl in IH. now rewrite IH.
  - exists b. split; [|exact Hb]. cbn [String.append] in *. now f_equal.
Qed.

Section Unspaced.

Variable t : string.
Hypothesis t_not_empty : t <> "".
Hypothesis t_unspaced : Js.all_chars (fun a => negb (Js.is_space a)) t = true.

Lemma includes_spaces b : Js.all_chars Js.is_space b = true -> Js.includes b t = false.
Proof.
  induction b as [|c b IH]; intros H; [now apply includes_nil|].
  simpl in H. apply andb_true_iff in H. destruct H as [Hc Hb].
  change (String c b) with ("" +:+ String c b).
  rewrite (includes_cut Js.is_space t "" c b t_not_empty t_unspaced Hc).
  now rewrite (includes_nil t t_not_empty), IH.
Qed.

Lemma includes_trimStart x : Js.includes (Js.trimStart x) t = Js.includes x t.
Proof.
  induction x as [|c x IH]; [reflexivity|]. simpl Js.trimStart.
  destruct (Js.is_space c) eqn:Hc; [|reflexivity].
  change (String c x) with ("" +:+ String c x).
  rewrite (includes_cut Js.is_space t "" c x t_not_empty t_unspaced Hc).
  now rewrite (includes_nil t t_not_empty), IH.
Qed.

Lemma includes_trimEnd x : Js.includes (Js.trimEnd x) t = Js.includes x t.
Proof.
  destruct (trimEnd_split x) as (b & Hx & Hb).
  rewrite Hx at 2. destruct b as [|c b]; [now rewrite append_nil_r|].
  simpl in Hb. apply andb_true_iff in Hb. destruct Hb as [Hc Hb].
  rewrite (includes_cut Js.is_space t _ c b t_not_empty t_unspaced Hc).
  now rewrite (includes_spaces b Hb), orb_false_r.
Qed.

(** Trimming a string does not lose an occurrence of a word. *)
Lemma includes_trimmed x : Js.includes (Js.trim x) t = Js.includes x t.
Proof. unfold Js.trim. now rewrite includes_trimEnd, includes_trimStart. Qed.

End Unspaced.

Lemma plain_lower_unspaced term :
  plain term ->
  Js.toLowerCase term <> "" /\
  Js.all_chars (fun a => negb (Js.is_space a)) (Js.toLowerCase term) = true.
Proof.
  intros [Hne Hw]. split.
  - destruct term; [contradiction|discriminate].
  - apply (all_chars_impl Js.is_word); [exact word_is_not_space|].
    now apply toLowerCase_word.
Qed.

(** X4. A definition card asks "What is" followed by the term, and, when
    the key terms are plain words as the extractor makes them, its answer
    is a sentence of the pool, trimmed, that still contains the term when
    case is ignored. *)
Theorem definition_answer_mentions_term ch keyTerms sentences index card :
  Forall plain keyTerms ->
  generateDefinitionCard ch keyTerms sentences index = Some card ->
  question card = "What is " +:+ cyclic keyTerms index +:+ "?" /\
  (exists s, In s sentences /\ answer card = Js.trim s) /\
  Js.includes (Js.toLowerCase (answer card)) (Js.toLowerCase (cyclic keyTerms index))
  = true.
Proof.
  intros Hplain. unfold generateDefinitionCard.
  destruct keyTerms as [|k0 ks]; [discriminate|].
  remember (k0 :: ks) as keyTerms eqn:Ek.
  assert (Hterm : plain (cyclic keyTerms index)).
  { rewrite Forall_forall in Hplain. apply Hplain, cyclic_In. rewrite Ek. discriminate. }
  destruct (find_sentence sentences (cyclic keyTerms index)) as [s|] eqn:Hf;
    [|discriminate].
  destruct (truthy (Some s)); [|discriminate].
  intros [= <-]. cbn [question answer].
  apply find_some in Hf. destruct Hf as [Hin Hinc].
  split; [reflexivity|]. split; [now exists s|].
  destruct (plain_lower_unspaced _ Hterm) as [Hne Hun].
  now rewrite <- trim_lower, includes_trimmed.
Qed.

Lemma definition_answer_mentions_term_witness :
  exists card,
    generateDefinitionCard (still 7 0) (extractKeyTerms mito) (sentences_of mito) 1
    = Some card /\
    question card = "What is mitochondria?" /\
    Js.includes (Js.toLowerCase (answer card)) "mitochondria" = true.
Proof.
  destruct (generateDefinitionCard (still 7 0) (extractKeyTerms mito)
              (sentences_of mito) 1) as [card|] eqn:E;
    [|vm_compute in E; discriminate E].
  destruct (definition_answer_mentions_term (still 7 0) (extractKeyTerms mito)
              (sentences_of mito) 1 card) as (Hq & _ & Hi).
  - apply extractKeyTerms_plain.
  - exact E.
  - exists card. split; [reflexivity|]. split; [exact Hq|exact Hi].
Defined.

Lemma cyclic_period pool index k :
  cyclic pool (index + k * List.length pool) = cyclic pool index.
Proof. unfold cyclic. now rewrite Nat.Div0.mod_add. Qed.

(** X5. The builders walk their pool in a cycle: at a cursor moved on by a
    multiple of the size of the pool, the true/false builder, the
    fill-in-the-blank builder and the definition builder give a card with
    the same question and the same answer, whatever the clock. *)
Theorem cards_repeat ch ch' sentences keyTerms index k :
  option_map text_of
    (generateTrueFalseCard ch sentences (index + k * List.length sentences))
  = option_map text_of (generateTrueFalseCard ch' sentences index) /\
  option_map text_of
    (generateFillInBlankCard ch sentences (index + k * List.length sentences))
  = option_map text_of (generateFillInBlankCard ch' sentences index) /\
  option_map text_of
    (generateDefinitionCard ch keyTerms sentences (index + k * List.length keyTerms))
  = option_map text_of (generateDefinitionCard ch' keyTerms sentences index).
Proof.
  unfold generateTrueFalseCard, generateFillInBlankCard, generateDefinitionCard.
  rewrite !cyclic_period. repeat split.
  - destruct sentences; reflexivity.
  - destruct sentences; [reflexivity|]. now destruct (5 <? _).
  - destruct keyTerms; [reflexivity|].
    destruct (find_sentence _ _); [|reflexivity]. now destruct (truthy _).
Qed.

(** ** The heuristic coordinator *)

Lemma build_without_sentences chance keyTerms t cursor :
  build chance [] keyTerms t cursor = None.
Proof.
  destruct t; cbn [build]; try reflexivity.
  - unfold generateDefinitionCard. now destruct keyTerms.
  - unfold generateMultipleChoiceCard. now destruct keyTerms.
Qed.

Lemma fill_quota_idle builder targetCount rounds st :
  (forall cursor, builder cursor = None) ->
  fill_quota builder targetCount rounds st = st.
Proof.
  intros Hnone. induction rounds as [|r IH]; simpl; [reflexivity|].
  rewrite Hnone, IH. now destruct (cardCount st <? targetCount).
Qed.

Lemma fill_quota_grows builder targetCount rounds st :
  cardCount st <= cardCount (fill_quota builder targetCount rounds st).
Proof.
  revert st; induction rounds as [|r IH]; intros st; simpl; [lia|].
  destruct (cardCount st <? targetCount); [|lia].
  destruct (builder (cardCount st)); [|apply IH].
  etransitivity; [|apply IH]. simpl. lia.
Qed.

(** A card stands in the list at the cursor it was built at. *)
Lemma fill_quota_placed (Q : nat -> Flashcard -> Prop) builder targetCount rounds st :
  cardCount st = List.length (flashcards st) ->
  (forall cursor card, builder cursor = Some card -> Q cursor card) ->
  (forall i card, nth_error (flashcards st) i = Some card -> Q i card) ->
  forall i card,
    nth_error (flashcards (fill_quota builder targetCount rounds st)) i = Some card ->
    Q i card.
Proof.
  intros Hlen Hb. revert st Hlen; induction rounds as [|r IH]; intros st Hlen Hst;
    simpl; [exact Hst|].
  destruct (cardCount st <? targetCount); [|exact Hst].
  destruct (builder (cardCount st)) as [c|] eqn:E; [|now apply IH].
  apply IH; simpl.
  - rewrite length_app. simpl. lia.
  - intros i card. rewrite nth_error_app.
    destruct (i <? List.length (flashcards st)) eqn:Hi; [apply Hst|].
    apply Nat.ltb_ge in Hi.
    destruct (i - List.length (flashcards st)) as [|k] eqn:Hk.
    + simpl. intros [= <-]. assert (i = cardCount st) as -> by lia. now apply Hb.
    + simpl. now destruct k.
Qed.

Lemma run_types_placed chance sentences keyTerms targetCount all types st :
  (forall row, In row types -> In (fst row) all) ->
  in_step targetCount st ->
  (forall i card, nth_error (flashcards st) i = Some card ->
     exists t, In t all /\ build chance sentences keyTerms t i = Some card) ->
  forall i card,
    nth_error (flashcards (run_types chance sentences keyTerms targetCount types st)) i
    = Some card ->
    exists t, In t all /\ build chance sentences keyTerms t i = Some card.
Proof.
  revert st; induction types as [|row types IH]; intros st Hall Hstep Hst; simpl;
    [exact Hst|].
  apply IH.
  - intros r Hr. apply Hall. now right.
  - now apply fill_quota_in_step.
  - apply fill_quota_placed; [apply Hstep| |exact Hst].
    intros cursor card Hb. exists (fst row). split; [|exact Hb].
    apply Hall. now left.
Qed.

Lemma build_id chance sentences keyTerms t cursor card :
  build chance sentences keyTerms t cursor = Some card ->
  id card = card_id (chance cursor) cursor (id_suffix t).
Proof.
  destruct t; cbn [build].
  - discriminate.
  - unfold generateFillInBlankCard. destruct sentences; [discriminate|].
    destruct (5 <? _); [|discriminate]. now intros [= <-].
  - unfold generateDefinitionCard. destruct keyTerms; [discriminate|].
    destruct (find_sentence _ _); [|discriminate].
    destruct (truthy _); [|discriminate]. now intros [= <-].
  - unfold generateTrueFalseCard. destruct sentences; [discriminate|].
    now intros [= <-].
  - unfold generateMultipleChoiceCard.
    destruct keyTerms; [discriminate|]. destruct sentences; [discriminate|].
    destruct (find_sentence _ _); [|discriminate].
    destruct (truthy _); [|discriminate]. now intros [= <-].
Qed.

Lemma typeCount_le targetCount tenths :
  tenths <= 10 -> typeCount targetCount tenths <= targetCount.
Proof.
  intros H. unfold typeCount.
  assert ((targetCount * tenths + 9) / 10 < S targetCount); [|lia].
  apply Nat.Div0.div_lt_upper_bound. nia.
Qed.

Lemma fill_quota_ranked r builder targetCount rounds st :
  (forall cursor card, builder cursor = Some card -> rank (type card) = r) ->
  rising 0 (map (fun c => rank (type c)) (flashcards st)) ->
  Forall (fun x => x <= r) (map (fun c => rank (type c)) (flashcards st)) ->
  rising 0 (map (fun c => rank (type c))
              (flashcards (fill_quota builder targetCount rounds st))) /\
  Forall (fun x => x <= r)
    (map (fun c => rank (type c))
       (flashcards (fill_quota builder targetCount rounds st))).
Proof.
  intros Hb. revert st; induction rounds as [|n IH]; intros st Hr Hall; simpl;
    [now split|].
  destruct (cardCount st <? targetCount); [|now split].
  destruct (builder (cardCount st)) as [c|] eqn:E; [|now apply IH].
  apply Hb in E. apply IH; simpl; rewrite map_app; simpl; rewrite E.
  - apply rising_app with r; [lia|exact Hr|exact Hall|]. simpl. split; [lia|exact I].
  - apply Forall_app. split; [exact Hall|]. constructor; [lia|constructor].
Qed.

Lemma rising_firstn n lo l : rising lo l -> rising lo (firstn n l).
Proof.
  revert lo l; induction n as [|n IH]; intros lo [|x l]; simpl; auto.
  intros [H1 H2]. split; [exact H1|now apply IH].
Qed.

Lemma Forall_le_weaken r r' l :
  r <= r' -> Forall (fun x => x <= r) l -> Forall (fun x => x <= r') l.
Proof. intros H. apply Forall_impl. intros; lia. Qed.

(** X6. The heuristic coordinator returns no card exactly when it was asked
    for none or the notes have no usable sentence; with a usable sentence
    it returns at least the quota of true/false cards, a fifth of the
    target rounded up. *)
Theorem heuristic_empty_only_without_sentences chance notes targetCount :
  (generateAdvancedFlashcards chance notes targetCount = [] <->
   targetCount = 0 \/ sentences_of notes = []) /\
  (sentences_of notes <> [] ->
   typeCount targetCount 2
   <= List.length (generateAdvancedFlashcards chance notes targetCount)).
Proof.
  assert (Hlow : sentences_of notes <> [] ->
                 typeCount targetCount 2
                 <= List.length (generateAdvancedFlashcards chance notes targetCount)).
  { intros Hne. unfold generateAdvancedFlashcards, questionTypes, run_types.
    cbn [fold_left fst snd].
    set (st0 := {| flashcards := []; cardCount := 0 |}).
    set (b := build chance (sentences_of notes) (extractKeyTerms notes)).
    set (st1 := fill_quota (b fill_blank) targetCount (typeCount targetCount 3) st0).
    set (st2 := fill_quota (b definition) targetCount (typeCount targetCount 3) st1).
    set (st3 := fill_quota (b true_false) targetCount (typeCount targetCount 2) st2).
    set (st4 := fill_quota (b multiple_choice) targetCount (typeCount targetCount 2) st3).
    assert (H0 : in_step targetCount st0) by (split; simpl; lia).
    assert (H1 : in_step targetCount st1) by now apply fill_quota_in_step.
    assert (H2 : in_step targetCount st2) by now apply fill_quota_in_step.
    assert (H3 : in_step targetCount st3) by now apply fill_quota_in_step.
    assert (H4 : in_step targetCount st4) by now apply fill_quota_in_step.
    assert (E3 : cardCount st3
                 = Nat.min (cardCount st2 + typeCount targetCount 2) targetCount).
    { apply fill_quota_filled; [exact H2|]. intros i _ _. unfold b. cbn [build].
      unfold generateTrueFalseCard. destruct (sentences_of notes); [contradiction|].
      discriminate. }
    pose proof (fill_quota_grows (b multiple_choice) targetCount
                  (typeCount targetCount 2) st3) as G. fold st4 in G.
    pose proof (typeCount_le targetCount 2 ltac:(lia)) as Q.
    destruct H4 as [L4 B4]. rewrite length_firstn, <- L4. lia. }
  split; [|exact Hlow]. split.
  - intros E. destruct targetCount as [|n]; [now left|]. right.
    destruct (sentences_of notes) as [|s l] eqn:Es; [reflexivity|]. exfalso.
    assert (Hne : s :: l <> []) by discriminate.
    apply Hlow in Hne. rewrite E in Hne. simpl in Hne.
    unfold typeCount in Hne.
    assert (1 <= (S n * 2 + 9) / 10) by (apply Nat.div_le_lower_bound; lia). lia.
  - intros [-> | Hs].
    + unfold generateAdvancedFlashcards. reflexivity.
    + unfold generateAdvancedFlashcards. rewrite Hs.
      assert (E : forall types st,
                 run_types chance [] (extractKeyTerms notes) targetCount types st = st).
      { induction types as [|row types IH]; intros st; simpl; [reflexivity|].
        rewrite fill_quota_idle; [apply IH|]. intros c. apply build_without_sentences. }
      rewrite E. now destruct targetCount.
Qed.

(** X7. In the result of the heuristic coordinator the card at position
    [i] is the one a builder of the four archetypes gave at cursor [i]:
    its id is [card_], the clock of that call, the position, and the
    suffix of its archetype. *)
Theorem heuristic_card_at_position chance notes targetCount i card :
  nth_error (generateAdvancedFlashcards chance notes targetCount) i = Some card ->
  i < targetCount /\
  In (type card) [fill_blank; definition; true_false; multiple_choice] /\
  build chance (sentences_of notes) (extractKeyTerms notes) (type card) i = Some card /\
  id card = card_id (chance i) i (id_suffix (type card)).
Proof.
  unfold generateAdvancedFlashcards. rewrite nth_error_firstn.
  destruct (i <? targetCount) eqn:Hi; [|discriminate]. apply Nat.ltb_lt in Hi.
  intros H.
  apply (run_types_placed chance (sentences_of notes) (extractKeyTerms notes) targetCount
           [fill_blank; definition; true_false; multiple_choice]) in H.
  - destruct H as (t & Ht & Hb).
    destruct (build_stamp _ _ _ _ _ _ Hb) as [Et _]. subst t.
    repeat split; try assumption. now apply build_id in Hb.
  - intros row. unfold questionTypes. simpl.
    intros [<-|[<-|[<-|[<-|[]]]]]; simpl; auto.
  - split; simpl; lia.
  - intros j c. simpl. now destruct j.
Qed.

Lemma heuristic_card_at_position_witness :
  exists card,
    nth_error (generateAdvancedFlashcards (still 7) mito 5) 4 = Some card /\
    id card = "card_7_4_tf".
Proof.
  destruct (nth_error (generateAdvancedFlashcards (still 7) mito 5) 4)
    as [card|] eqn:E; [|vm_compute in E; discriminate E].
  destruct (heuristic_card_at_position (still 7) mito 5 4 card E)
    as (_ & _ & _ & Hid).
  exists card. split; [reflexivity|].
  assert (Et : type card = true_false).
  { vm_compute in E. injection E as <-. reflexivity. }
  rewrite Hid, Et. reflexivity.
Defined.

Lemma heuristic_ranks_rising chance notes targetCount :
  rising 0
    (map (fun c => rank (type c)) (generateAdvancedFlashcards chance notes targetCount)).
Proof.
  unfold generateAdvancedFlashcards, questionTypes, run_types.
  cbn [fold_left fst snd]. rewrite <- firstn_map. apply rising_firstn.
  set (b := build chance (sentences_of notes) (extractKeyTerms notes)).
  assert (Hb : forall t cursor card, b t cursor = Some card -> rank (type card) = rank t).
  { intros t cursor card H. apply build_stamp in H. now destruct H as [-> _]. }
  set (st0 := {| flashcards := []; cardCount := 0 |}).
  destruct (fill_quota_ranked 1 (b fill_blank) targetCount (typeCount targetCount 3) st0)
    as [R1 F1]; [apply (Hb fill_blank)|exact I|constructor|].
  destruct (fill_quota_ranked 2 (b definition) targetCount (typeCount targetCount 3) _
              (Hb definition) R1 (Forall_le_weaken 1 2 _ ltac:(lia) F1)) as [R2 F2].
  destruct (fill_quota_ranked 3 (b true_false) targetCount (typeCount targetCount 2) _
              (Hb true_false) R2 (Forall_le_weaken 2 3 _ ltac:(lia) F2)) as [R3 F3].
  destruct (fill_quota_ranked 4 (b multiple_choice) targetCount (typeCount targetCount 2) _
              (Hb multiple_choice) R3 (Forall_le_weaken 3 4 _ ltac:(lia) F3)) as [R4 _].
  exact R4.
Qed.

(** X8. The heuristic coordinator returns its cards grouped by archetype,
    in the order of the table: fill-in-the-blank, definition, true/false,
    multiple choice. *)
Theorem heuristic_cards_grouped chance notes targetCount :
  Sorted le
    (map (fun c => rank (type c)) (generateAdvancedFlashcards chance notes targetCount)).
Proof. apply rising_sorted with 0, heuristic_ranks_rising. Qed.

Lemma heuristic_empty_only_without_sentences_witness :
  sentences_of mito <> [] /\
  typeCount 5 2 <= List.length (generateAdvancedFlashcards (still 7) mito 5).
Proof.
  assert (H : sentences_of mito <> []) by (vm_compute; discriminate).
  split; [exact H|].
  exact (proj2 (heuristic_empty_only_without_sentences (still 7) mito 5) H).
Defined.

(** ** The parser of the replies *)

Lemma trimEnd_idem s : Js.trimEnd (Js.trimEnd s) = Js.trimEnd s.
Proof.
  induction s as [|c r IH]; [reflexivity|]. simpl.
  destruct (Js.trimEnd r) as [|d t] eqn:E.
  - destruct (Js.is_space c) eqn:Hc; [reflexivity|]. simpl. now rewrite Hc.
  - change (Js.trimEnd (String c (String d t)))
      with (match Js.trimEnd (String d t) with
            | EmptyString =>
                if Js.is_space c then EmptyString else String c EmptyString
            | u => String c u
            end).
    now rewrite IH.
Qed.

Lemma trimStart_trim s : Js.trimStart (Js.trim s) = Js.trim s.
Proof.
  unfold Js.trim. induction s as [|c r IH]; [reflexivity|]. simpl Js.trimStart at 2 3.
  destruct (Js.is_space c) eqn:Hc; [exact IH|]. simpl.
  destruct (Js.trimEnd r); rewrite ?Hc; simpl; now rewrite Hc.
Qed.

(** Trimming twice is trimming once. *)
Lemma trim_idem s : Js.trim (Js.trim s) = Js.trim s.
Proof.
  unfold Js.trim at 1. rewrite trimStart_trim. unfold Js.trim. apply trimEnd_idem.
Qed.

Lemma parse_pairs_spec env chance d qaPairs : forall index card,
  In card (parse_pairs env chance d index qaPairs) ->
  exists k qa q a,
    nth_error qaPairs k = Some qa /\ match_groups env qa = Some (q, a) /\
    card = {| id := card_id (chance (index + k)) (index + k) (difficulty_name d);
              question := Js.trim q; answer := Js.trim a;
              difficulty := d; type := ai_generated |}.
Proof.
  induction qaPairs as [|qa rest IH]; intros index card Hin; [destruct Hin|].
  simpl in Hin. apply in_app_or in Hin. destruct Hin as [Hin|Hin].
  - destruct (match_groups env qa) as [[q a]|] eqn:E; [|destruct Hin].
    destruct Hin as [<-|[]]. exists 0, qa, q, a. rewrite Nat.add_0_r. auto.
  - apply IH in Hin. destruct Hin as (k & qa' & q & a & Hk & Hg & ->).
    exists (S k), qa', q, a. replace (index + S k) with (index + 1 + k) by lia. auto.
Qed.

Lemma parse_pairs_length env chance d qaPairs : forall index,
  List.length (parse_pairs env chance d index qaPairs) <= List.length qaPairs.
Proof.
  induction qaPairs as [|qa rest IH]; intros index; [reflexivity|].
  simpl. rewrite length_app. specialize (IH (index + 1)).
  destruct (match_groups env qa) as [[q a]|]; simpl; lia.
Qed.

(** X9. The parser makes at most one card for each pair the first pattern
    finds in the reply; every card has the type [ai_generated] and the
    difficulty of the tier, a question and an answer without blanks at
    either end, and an id made of the clock, the index of its pair and the
    name of the tier. *)
Theorem parsed_cards env chance generatedText originalNotes d :
  List.length (parseFlashcards env chance generatedText originalNotes d)
  <= List.length (match_pairs env generatedText) /\
  forall card,
    In card (parseFlashcards env chance generatedText originalNotes d) ->
    type card = ai_generated /\ difficulty card = d /\
    Js.trim (question card) = question card /\
    Js.trim (answer card) = answer card /\
    exists index,
      index < List.length (match_pairs env generatedText) /\
      id card = card_id (chance index) index (difficulty_name d).
Proof.
  unfold parseFlashcards. split; [apply parse_pairs_length|].
  intros card Hin. apply parse_pairs_spec in Hin.
  destruct Hin as (k & qa & q & a & Hk & _ & ->).
  cbn [type difficulty question answer id]. rewrite !trim_idem. repeat split.
  exists k. split; [|reflexivity]. apply nth_error_Some. now rewrite Hk.
Qed.


(** ** The AI tier coordinator, further *)

(** X10. The three tiers together ask the service for the target at
    least, and for at most one card more. *)
Theorem tiers_ask_for_the_target targetQuestions :
  targetQuestions <= list_sum (map snd (tiers targetQuestions)) <= targetQuestions + 1.
Proof.
  unfold tiers, list_sum. cbn [map snd fold_right].
  pose proof (Nat.div_mod_eq (targetQuestions * 4 + 9) 10).
  pose proof (Nat.mod_upper_bound (targetQuestions * 4 + 9) 10 ltac:(lia)).
  pose proof (Nat.div_mod_eq (targetQuestions * 2) 10).
  pose proof (Nat.mod_upper_bound (targetQuestions * 2) 10 ltac:(lia)).
  lia.
Qed.

Section Tiers.

Variable env : Env.
Variables notes apiKey sessionId : string.
Variable targetQuestions : nat.

Lemma tier_round_failed flashcards questionType w :
  brings_nothing (service env (tick w)) = true ->
  tier_round env notes targetQuestions apiKey sessionId flashcards questionType w
  = (Returned flashcards,
     {| tick := tick w + 1;
        kv_writes := kv_writes w;
        requests := requests w ++ [tier_request apiKey notes questionType] |}).
Proof.
  unfold tier_round, try_catch, bind, fetch, ret.
  destruct (service env (tick w)); intros H; try reflexivity. discriminate H.
Qed.

Lemma tier_loop_failed questionTypes : forall flashcards w,
  (forall t, brings_nothing (service env t) = true) ->
  for_each questionTypes
    (tier_round env notes targetQuestions apiKey sessionId) flashcards w
  = (Returned flashcards,
     {| tick := tick w + List.length questionTypes;
        kv_writes := kv_writes w;
        requests := requests w ++ map (tier_request apiKey notes) questionTypes |}).
Proof.
  induction questionTypes as [|qt qts IH]; intros fl w Hs.
  - simpl. unfold ret. rewrite app_nil_r, Nat.add_0_r. now destruct w.
  - cbn [for_each]. unfold bind. rewrite tier_round_failed by apply Hs.
    rewrite IH by exact Hs. cbn [tick kv_writes requests List.length map].
    rewrite <- app_assoc. cbn [app].
    now replace (tick w + 1 + List.length qts) with (tick w + S (List.length qts))
      by lia.
Qed.

(** What a round adds: cards of the parser for the tier. *)
Lemma tier_round_cards flashcards questionType w :
  exists newCards w',
    tier_round env notes targetQuestions apiKey sessionId flashcards questionType w
    = (Returned (flashcards ++ newCards), w') /\
    (newCards = [] \/
     exists generatedText,
       newCards = parseFlashcards env (fun i => chance_at env (tick w + 1 + i))
                    generatedText notes (fst questionType)).
Proof.
  unfold tier_round, try_catch, bind, fetch, ret, draw, kv_set.
  destruct (service env (tick w)) eqn:Es; cbn [tick kv_writes requests advance].
  - exists []; eexists. rewrite app_nil_r. split; [reflexivity|now left].
  - exists []; eexists. rewrite app_nil_r. split; [reflexivity|now left].
  - exists []; eexists. rewrite app_nil_r. split; [reflexivity|now left].
  - destruct (kv_fault env _); eexists; eexists; (split; [reflexivity|]);
      right; eexists; reflexivity.
Qed.

End Tiers.

(** X11. When no call of the service brings a text and the store takes
    every write, the AI coordinator still sends its three requests and
    returns what the heuristic coordinator makes of the notes for the whole
    target, with two progress records: the initial one and the completed
    one, which counts the cards returned. *)
Theorem ai_without_replies_is_heuristic env notes targetQuestions apiKey w :
  (forall t, brings_nothing (service env t) = true) ->
  (forall t, kv_fault env t = false) ->
  let run := generateFlashcardsWithProgress env notes targetQuestions apiKey w in
  let cards :=
    generateAdvancedFlashcards (fun i => chance_at env (tick w + 5 + i)) notes
      targetQuestions in
  fst run = Returned cards /\
  requests (snd run)
  = requests w ++ map (tier_request apiKey notes) (tiers targetQuestions) /\
  progress_records (written_between w (snd run))
  = [mkProgress 0 targetQuestions generating;
     mkProgress (List.length cards) targetQuestions completed].
Proof.
  intros Hs Hk. cbv zeta. rewrite coordinator_unfold. cbv zeta.
  rewrite Hk, tier_loop_failed by exact Hs.
  cbn [tick kv_writes requests List.length tiers].
  replace (tick w + 1 + 1 + 3) with (tick w + 5) by lia.
  set (gen := generateAdvancedFlashcards (fun i => chance_at env (tick w + 5 + i)) notes).
  assert (Hw : forall c x,
             progress_records
               (skipn (List.length (kv_writes w))
                  ((kv_writes w ++ [(c, Progress x)]) ++
                     [(c, Progress (mkProgress (List.length (gen targetQuestions))
                                      targetQuestions completed))]))
             = [x; mkProgress (List.length (gen targetQuestions))
                     targetQuestions completed]).
  { intros c x. rewrite <- app_assoc, skipn_app, skipn_all, Nat.sub_diag. reflexivity. }
  destruct targetQuestions as [|n].
  - cbn [Nat.ltb Nat.leb]. rewrite Hk. cbn [fst snd requests kv_writes firstn].
    unfold written_between. cbn [kv_writes]. split; [reflexivity|].
    split; [reflexivity|]. apply Hw.
  - cbn [Nat.ltb Nat.leb]. rewrite Nat.sub_0_r.
    cbn [app tick kv_writes requests advance]. rewrite Hk.
    cbn [fst snd requests kv_writes]. rewrite firstn_all2
      by apply generateAdvancedFlashcards_length.
    unfold written_between. cbn [kv_writes]. split; [reflexivity|].
    split; [reflexivity|]. apply Hw.
Qed.

Lemma ai_without_replies_is_heuristic_witness :
  fst (generateFlashcardsWithProgress silent_service mito 4 "hf_key" dawn)
  = Returned (generateAdvancedFlashcards (fun i => chance_at silent_service (5 + i))
                mito 4).
Proof.
  exact (proj1 (ai_without_replies_is_heuristic silent_service mito 4 "hf_key" dawn
                  (fun _ => eq_refl) (fun _ => eq_refl))).
Defined.

Lemma rising_const r n : rising r (repeat r n).
Proof. induction n as [|n IH]; simpl; [exact I|]. split; [lia|exact IH]. Qed.

Lemma rising_shift k lo l : rising lo l -> rising (k + lo) (map (Nat.add k) l).
Proof.
  revert lo; induction l as [|x l IH]; intros lo; simpl; [auto|].
  intros [H1 H2]. split; [lia|now apply IH].
Qed.

Lemma map_constant {A B} (f : A -> B) (b : B) (l : list A) :
  Forall (fun a => f a = b) l -> map f l = repeat b (List.length l).
Proof. induction 1 as [|a l Ha _ IH]; simpl; [reflexivity|]. now rewrite Ha, IH. Qed.

Lemma parsed_rank env chance text notes d :
  Forall (fun c => origin_rank c = tier_rank d) (parseFlashcards env chance text notes d).
Proof.
  apply Forall_forall. intros card Hin. unfold parseFlashcards in Hin.
  apply parse_pairs_spec in Hin. destruct Hin as (k & qa & q & a & _ & _ & ->).
  reflexivity.
Qed.

Lemma heuristic_origin_rising chance notes targetCount :
  rising 2 (map origin_rank (generateAdvancedFlashcards chance notes targetCount)).
Proof.
  rewrite (map_ext_in origin_rank (fun c => 2 + rank (type c))).
  - rewrite <- (map_map (fun c => rank (type c)) (Nat.add 2)).
    apply (rising_shift 2 0), heuristic_ranks_rising.
  - intros card Hin. apply generateAdvancedFlashcards_origin in Hin.
    destruct Hin as (t & cursor & Ht & _ & Hb). apply build_stamp in Hb.
    destruct Hb as [Et _]. unfold origin_rank. rewrite Et.
    simpl in Ht. destruct Ht as [<-|[<-|[<-|[<-|[]]]]]; reflexivity.
Qed.

Lemma tier_loop_ranked env notes targetQuestions apiKey sessionId questionTypes :
  forall lo flashcards w,
    lo <= 2 ->
    rising lo (map (fun qt => tier_rank (fst qt)) questionTypes) ->
    rising 0 (map origin_rank flashcards) ->
    Forall (fun x => x <= lo) (map origin_rank flashcards) ->
    exists gathered w',
      for_each questionTypes
        (tier_round env notes targetQuestions apiKey sessionId) flashcards w
      = (Returned gathered, w') /\
      rising 0 (map origin_rank gathered) /\
      Forall (fun x => x <= 2) (map origin_rank gathered).
Proof.
  induction questionTypes as [|qt qts IH]; intros lo fl w Hlo Hq Hr Hall.
  - exists fl, w. split; [reflexivity|]. split; [exact Hr|].
    now apply Forall_le_weaken with lo.
  - cbn [for_each]. unfold bind.
    destruct (tier_round_cards env notes apiKey sessionId targetQuestions fl qt w)
      as (newCards & w1 & -> & Hnew).
    destruct Hq as [Hqt Hq]. cbn [map] in Hqt, Hq.
    assert (Hr' : tier_rank (fst qt) <= 2) by (destruct (fst qt); simpl; lia).
    assert (Hc : map origin_rank newCards
                 = repeat (tier_rank (fst qt)) (List.length newCards)).
    { destruct Hnew as [->|[text ->]]; [reflexivity|].
      apply map_constant, parsed_rank. }
    apply (IH (tier_rank (fst qt))); [exact Hr'|exact Hq| |].
    + rewrite map_app, Hc.
      apply rising_app with (tier_rank (fst qt));
        [lia|exact Hr| |apply rising_const].
      now apply Forall_le_weaken with lo.
    + rewrite map_app, Hc. apply Forall_app. split.
      * now apply Forall_le_weaken with lo.
      * apply Forall_forall. intros x Hx. apply repeat_spec in Hx. lia.
Qed.

(** X12. The AI coordinator either returns or fails on a store write, and
    what it returns is in the order it was gathered in: the cards of the
    basic tier, of the intermediate tier and of the advanced tier, then
    the cards of the heuristic in the order of its archetypes. *)
Theorem ai_cards_in_gathering_order env notes targetQuestions apiKey w :
  match fst (generateFlashcardsWithProgress env notes targetQuestions apiKey w) with
  | Returned cards => Sorted le (map origin_rank cards)
  | Thrown _ => exists t, kv_fault env t = true
  end.
Proof.
  rewrite coordinator_unfold. cbv zeta.
  destruct (kv_fault env (tick w + 1)) eqn:K1; [now exists (tick w + 1)|].
  match goal with
  | |- context [for_each ?q ?b ?f ?x] =>
      destruct (tier_loop_ranked env notes targetQuestions apiKey
                  ("session_" +:+ Js.show_N (Date_now (chance_at env (tick w))))
                  q 0 f x) as (fl & w1 & -> & Hr & Hall)
  end.
  - lia.
  - simpl. lia.
  - exact I.
  - constructor.
  - match goal with
    | |- context [kv_fault env ?t] => destruct (kv_fault env t) eqn:K2
    end; [eexists; exact K2|].
    cbn [fst]. apply rising_sorted with 0. rewrite <- firstn_map. apply rising_firstn.
    destruct (List.length fl <? targetQuestions); [|exact Hr].
    rewrite map_app. apply rising_app with 2; [lia|exact Hr|exact Hall|].
    apply heuristic_origin_rising.
Qed.

(** ** Card ids *)

Lemma append_inj_l p a b : p +:+ a = p +:+ b -> a = b.
Proof. induction p as [|c p IH]; simpl; [auto|]. intros [= H]. auto. Qed.

Lemma digits_of_uint d : Js.all_chars Js.is_digit (NilEmpty.string_of_uint d) = true.
Proof. induction d; simpl; [reflexivity| exact IHd ..]. Qed.

Lemma show_N_digits n : Js.all_chars Js.is_digit (Js.show_N n) = true.
Proof.
  unfold Js.show_N, NilZero.string_of_uint.
  destruct (N.to_uint n) eqn:E; try (rewrite <- E; apply digits_of_uint).
  reflexivity.
Qed.

Lemma show_N_inj a b : Js.show_N a = Js.show_N b -> a = b.
Proof.
  unfold Js.show_N. intros H. apply DecimalN.Unsigned.to_uint_inj.
  assert (Hnil : forall n, N.to_uint n <> Decimal.Nil).
  { intros [|p]; [discriminate|apply DecimalPos.Unsigned.to_uint_nonnil]. }
  pose proof (NilZero.usu _ (Hnil a)) as Ha.
  pose proof (NilZero.usu _ (Hnil b)) as Hb.
  rewrite H in Ha. rewrite Ha in Hb. now injection Hb.
Qed.

(** Two runs of digits followed by an underscore: the runs are the same
    and so is what follows. *)
Lemma digits_cut x : forall y r r',
  Js.all_chars Js.is_digit x = true -> Js.all_chars Js.is_digit y = true ->
  x +:+ String "_" r = y +:+ String "_" r' -> x = y /\ r = r'.
Proof.
  induction x as [|c x IH]; intros [|d y] r r' Hx Hy H; simpl in *.
  - injection H as ->. auto.
  - injection H as <- _. discriminate Hy.
  - injection H as -> _. discriminate Hx.
  - injection H as -> H.
    apply andb_true_iff in Hx, Hy. destruct Hx as [_ Hx]. destruct Hy as [_ Hy].
    destruct (IH y r r' Hx Hy H) as [-> ->]. auto.
Qed.

(** An id tells the index and the end it was built with. *)
Lemma card_id_inj ch index suffix ch' index' suffix' :
  card_id ch index suffix = card_id ch' index' suffix' ->
  index = index' /\ suffix = suffix'.
Proof.
  unfold card_id. intros H. apply append_inj_l in H.
  change ("_" +:+ ?x) with (String "_" x) in H.
  apply digits_cut in H; try apply show_N_digits. destruct H as [_ H].
  change (Js.show_nat index +:+ String "_" suffix
          = Js.show_nat index' +:+ String "_" suffix') in H.
  apply digits_cut in H; try apply show_N_digits. destruct H as [H ->].
  split; [|reflexivity]. apply show_N_inj in H. lia.
Qed.

Lemma distinct_nil suffixes : distinct suffixes [].
Proof. split; constructor. Qed.

Lemma distinct_app s1 s2 l1 l2 :
  distinct s1 l1 -> distinct s2 l2 -> (forall s, In s s1 -> ~ In s s2) ->
  distinct (s1 ++ s2) (l1 ++ l2).
Proof.
  intros [N1 F1] [N2 F2] Hd. split.
  - rewrite map_app. apply NoDup_app; [exact N1|exact N2|].
    intros x H1 H2. apply in_map_iff in H1, H2.
    destruct H1 as (c1 & <- & H1). destruct H2 as (c2 & E & H2).
    rewrite Forall_forall in F1, F2.
    destruct (F1 c1 H1) as (ch1 & i1 & x1 & Hx1 & E1).
    destruct (F2 c2 H2) as (ch2 & i2 & x2 & Hx2 & E2).
    rewrite E1, E2 in E. apply card_id_inj in E. destruct E as [_ ->].
    now apply (Hd x1).
  - apply Forall_app. split; (eapply Forall_impl; [|eassumption]);
      intros c (ch & i & x & Hx & E); exists ch, i, x;
      (split; [apply in_or_app; auto|exact E]).
Qed.

Lemma distinct_firstn n suffixes l : distinct suffixes l -> distinct suffixes (firstn n l).
Proof.
  intros [N F]. split.
  - rewrite <- firstn_map. now apply NoDup_firstn.
  - rewrite Forall_forall in *. intros c Hc. apply F. now apply In_firstn in Hc.
Qed.

Lemma parse_pairs_distinct env chance d qaPairs : forall index,
  distinct [difficulty_name d] (parse_pairs env chance d index qaPairs).
Proof.
  induction qaPairs as [|qa rest IH]; intros index; [apply distinct_nil|].
  cbn [parse_pairs]. destruct (IH (index + 1)) as [N F].
  destruct (match_groups env qa) as [[q a]|]; [|now split].
  cbn [app map id]. split.
  - constructor; [|exact N]. intros Hin. apply in_map_iff in Hin.
    destruct Hin as (c & E & Hc). apply parse_pairs_spec in Hc.
    destruct Hc as (k & qa' & q' & a' & _ & _ & Ec). subst c. cbn [id] in E.
    apply card_id_inj in E. lia.
  - constructor; [|exact F]. exists (chance index), index, (difficulty_name d).
    split; [now left|reflexivity].
Qed.

Lemma heuristic_label_at chance notes targetCount i card :
  nth_error (generateAdvancedFlashcards chance notes targetCount) i = Some card ->
  exists suffix, In suffix archetype_suffixes /\ id card = card_id (chance i) i suffix.
Proof.
  unfold generateAdvancedFlashcards. rewrite nth_error_firstn.
  destruct (i <? targetCount); [|discriminate]. intros H.
  apply (run_types_placed chance (sentences_of notes) (extractKeyTerms notes) targetCount
           [fill_blank; definition; true_false; multiple_choice]) in H.
  - destruct H as (t & Ht & Hb). apply build_id in Hb. exists (id_suffix t).
    split; [|exact Hb]. simpl in Ht.
    destruct Ht as [<-|[<-|[<-|[<-|[]]]]]; simpl; auto.
  - intros row. unfold questionTypes. simpl.
    intros [<-|[<-|[<-|[<-|[]]]]]; simpl; auto.
  - split; simpl; lia.
  - intros j c. simpl. now destruct j.
Qed.

Lemma heuristic_distinct chance notes targetCount :
  distinct archetype_suffixes (generateAdvancedFlashcards chance notes targetCount).
Proof.
  split.
  - apply NoDup_nth_error. intros i j Hi E.
    rewrite !nth_error_map in E.
    destruct (nth_error (generateAdvancedFlashcards chance notes targetCount) i)
      as [ci|] eqn:Ei.
    + destruct (nth_error (generateAdvancedFlashcards chance notes targetCount) j)
        as [cj|] eqn:Ej; [|discriminate].
      apply heuristic_label_at in Ei, Ej.
      destruct Ei as (si & _ & Ei). destruct Ej as (sj & _ & Ej).
      simpl in E. injection E as E. rewrite Ei, Ej in E.
      now apply card_id_inj in E.
    + apply nth_error_None in Ei. rewrite length_map in Hi. lia.
  - apply Forall_forall. intros c Hc. apply In_nth_error in Hc. destruct Hc as [i Hi].
    apply heuristic_label_at in Hi. destruct Hi as (sfx & Hs & E).
    now exists (chance i), i, sfx.
Qed.

Lemma tier_loop_distinct env notes targetQuestions apiKey sessionId questionTypes :
  forall suffixes flashcards w,
    distinct suffixes flashcards ->
    NoDup (map (fun qt => difficulty_name (fst qt)) questionTypes) ->
    (forall qt, In qt questionTypes -> ~ In (difficulty_name (fst qt)) suffixes) ->
    exists gathered w',
      for_each questionTypes
        (tier_round env notes targetQuestions apiKey sessionId) flashcards w
      = (Returned gathered, w') /\
      distinct (suffixes ++ map (fun qt => difficulty_name (fst qt)) questionTypes)
        gathered.
Proof.
  induction questionTypes as [|qt qts IH]; intros sfx fl w Hd Hn Hout.
  - exists fl, w. split; [reflexivity|]. simpl. now rewrite app_nil_r.
  - cbn [for_each]. unfold bind.
    destruct (tier_round_cards env notes apiKey sessionId targetQuestions fl qt w)
      as (newCards & w1 & -> & Hnew).
    assert (Hc : distinct [difficulty_name (fst qt)] newCards).
    { destruct Hnew as [->|[text ->]]; [apply distinct_nil|].
      apply parse_pairs_distinct. }
    cbn [map] in Hn. inversion Hn as [|x l Hx Hl]; subst.
    destruct (IH (sfx ++ [difficulty_name (fst qt)]) (fl ++ newCards) w1)
      as (gathered & w' & E & Hg).
    + apply distinct_app; [exact Hd|exact Hc|].
      intros s Hs [<-|[]]. apply (Hout qt); [now left|exact Hs].
    + exact Hl.
    + intros qt' Hq Hin. apply in_app_or in Hin. destruct Hin as [Hin|[Hin|[]]].
      * apply (Hout qt'); [now right|exact Hin].
      * apply Hx. rewrite Hin. apply in_map_iff. now exists qt'.
    + exists gathered, w'. split; [exact E|].
      cbn [map]. now rewrite <- app_assoc in Hg.
Qed.

Lemma coordinator_distinct env notes targetQuestions apiKey w :
  match fst (generateFlashcardsWithProgress env notes targetQuestions apiKey w) with
  | Returned cards => distinct (tier_names ++ archetype_suffixes) cards
  | Thrown _ => exists t, kv_fault env t = true
  end.
Proof.
  rewrite coordinator_unfold. cbv zeta.
  destruct (kv_fault env (tick w + 1)) eqn:K1; [now exists (tick w + 1)|].
  match goal with
  | |- context [for_each ?q ?b ?f ?x] =>
      destruct (tier_loop_distinct env notes targetQuestions apiKey
                  ("session_" +:+ Js.show_N (Date_now (chance_at env (tick w))))
                  q [] f x) as (fl & w1 & -> & Hd)
  end.
  - apply distinct_nil.
  - simpl. repeat constructor; simpl; intuition discriminate.
  - intros qt _ [].
  - match goal with
    | |- context [kv_fault env ?t] => destruct (kv_fault env t) eqn:K2
    end; [eexists; exact K2|].
    cbn [fst]. apply distinct_firstn.
    cbn [app tiers map fst difficulty_name] in Hd. fold tier_names in Hd.
    destruct (List.length fl <? targetQuestions).
    + apply distinct_app; [exact Hd|apply heuristic_distinct|].
      unfold tier_names, archetype_suffixes. simpl. intuition (subst; discriminate).
    + rewrite <- (app_nil_r fl).
      apply distinct_app; [exact Hd|apply distinct_nil|].
      unfold tier_names, archetype_suffixes. simpl. intuition (subst; discriminate).
Qed.

(** X13. No two cards of a result share an id: not in what the heuristic
    coordinator returns, and not in what the AI coordinator returns, which
    either returns or fails on a store write. *)
Theorem card_ids_distinct env chance notes targetQuestions apiKey w :
  NoDup (map id (generateAdvancedFlashcards chance notes targetQuestions)) /\
  match fst (generateFlashcardsWithProgress env notes targetQuestions apiKey w) with
  | Returned cards => NoDup (map id cards)
  | Thrown _ => exists t, kv_fault env t = true
  end.
Proof.
  split; [apply heuristic_distinct|].
  pose proof (coordinator_distinct env notes targetQuestions apiKey w) as H.
  destruct (fst (generateFlashcardsWithProgress env notes targetQuestions apiKey w));
    [apply H|exact H].
Qed.

(** ** Persistence *)

Section Saving.

Variable env : Env.
Variables user note : string.
Variable timestamp : N.

Let record (c : Flashcard) : string * KvValue :=
  (card_key user c,
   Saved {| card := c; userId := user; noteId := note; createdAt := timestamp |}).

(** The loop over the cards writes the records of the cards in order, up
    to the first write the store refuses. *)
Lemma save_each_run cards : forall w,
  exists k,
    kv_writes (snd (save_each env cards user note timestamp w))
    = kv_writes w ++ firstn k (map record cards) /\
    match fst (save_each env cards user note timestamp w) with
    | Returned saved =>
        k = List.length cards /\
        saved = map (fun c => mkSaved c user note timestamp) cards
    | Thrown _ => k < List.length cards /\ kv_fault env (tick w + k) = true
    end.
Proof.
  induction cards as [|c rest IH]; intros w.
  - exists 0. simpl. rewrite app_nil_r. auto.
  - cbn [save_each]. unfold bind, kv_set, ret. cbv beta.
    destruct (kv_fault env (tick w)) eqn:K.
    + exists 0. simpl. rewrite app_nil_r, Nat.add_0_r. split; [reflexivity|].
      split; [lia|exact K].
    + match goal with
      | |- context [save_each env rest user note timestamp ?x] =>
          destruct (IH x) as (k & Hw & Ho);
          destruct (save_each env rest user note timestamp x) as [[saved|e] w1]
      end; cbn [fst snd tick kv_writes] in *; exists (S k).
      * rewrite Hw, <- app_assoc.
        destruct Ho as [-> ->]. split; [reflexivity|]. split; reflexivity.
      * rewrite Hw, <- app_assoc. destruct Ho as [Hk Hf].
        split; [reflexivity|]. cbn [List.length]. split; [lia|].
        now replace (tick w + S k) with (tick w + 1 + k) by lia.
Qed.

End Saving.

Lemma saveFlashcards_run env cards user originalNotes w :
  let run := saveFlashcards env cards user originalNotes w in
  let timestamp := Date_now (chance_at env (tick w)) in
  let records := batch cards user originalNotes timestamp in
  exists k,
    kv_writes (snd run) = kv_writes w ++ firstn k records /\
    match fst run with
    | Returned saved =>
        k = List.length records /\
        saved = map (fun c => mkSaved c user ("note_" +:+ Js.show_N timestamp) timestamp)
                  cards
    | Thrown _ => k < List.length records /\ kv_fault env (tick w + 1 + k) = true
    end.
Proof.
  cbv zeta. unfold saveFlashcards, bind, date_now, kv_set. cbv beta.
  cbn [tick advance kv_writes requests].
  destruct (kv_fault env (tick w + 1)) eqn:K.
  - exists 0. cbn [fst snd kv_writes advance firstn]. rewrite app_nil_r, Nat.add_0_r.
    split; [reflexivity|]. split; [unfold batch; simpl; lia|exact K].
  - match goal with
    | |- context [save_each env cards user ?n ?t ?x] =>
        destruct (save_each_run env user n t cards x) as (k & Hw & Ho);
        destruct (save_each env cards user n t x) as [[saved|e] w1]
    end; cbn [fst snd tick kv_writes] in *; exists (S k);
      rewrite Hw, <- app_assoc;
      unfold batch, card_key; cbn [app firstn List.length];
      rewrite length_map.
    + destruct Ho as [-> ->]. split; [reflexivity|]. split; reflexivity.
    + destruct Ho as [Hk Hf]. split; [reflexivity|]. split; [lia|].
      now replace (tick w + 1 + S k) with (tick w + 1 + 1 + k) by lia.
Qed.

(** X14. [saveFlashcards] writes the record of the note and then the
    records of the cards, in order.  When it returns, all of them are
    written and the saved cards are the cards with the user, the note and
    the time of the call.  When it throws, the store had refused a write
    and the records written before stay in the store: nothing is taken
    back. *)
Theorem save_writes_in_order env cards user originalNotes w :
  let run := saveFlashcards env cards user originalNotes w in
  let timestamp := Date_now (chance_at env (tick w)) in
  let records := batch cards user originalNotes timestamp in
  exists k,
    kv_writes (snd run) = kv_writes w ++ firstn k records /\
    match fst run with
    | Returned saved =>
        k = List.length records /\
        saved = map (fun c => mkSaved c user ("note_" +:+ Js.show_N timestamp) timestamp)
                  cards
    | Thrown _ => k < List.length records /\ kv_fault env (tick w + 1 + k) = true
    end.
Proof. exact (saveFlashcards_run env cards user originalNotes w). Qed.

(** ** What the store holds after a request *)

Lemma find_app {A} (f : A -> bool) l1 l2 :
  find f (l1 ++ l2) = match find f l1 with Some x => Some x | None => find f l2 end.
Proof. induction l1 as [|a l1 IH]; simpl; [reflexivity|]. now destruct (f a). Qed.

Lemma find_nothing {A} (f : A -> bool) l :
  (forall x, In x l -> f x = false) -> find f l = None.
Proof.
  intros H. destruct (find f l) as [x|] eqn:E; [|reflexivity].
  apply find_some in E. destruct E as [Hin Hx]. rewrite (H x Hin) in Hx. discriminate.
Qed.

(** The last write under a key that was written once. *)
Lemma last_write (l : list (string * KvValue)) key value :
  NoDup (map fst l) -> In (key, value) l ->
  forall rest,
    find (fun e => (fst e =? key)%string) (rev l ++ rest) = Some (key, value).
Proof.
  induction l as [|[k v] l IH]; intros Hn Hin rest; [destruct Hin|].
  cbn [map fst] in Hn. inversion Hn as [|x xs Hx Hl]; subst.
  cbn [rev]. rewrite <- app_assoc. destruct Hin as [[= -> ->]|Hin].
  - rewrite find_app, find_nothing.
    + simpl. now rewrite String.eqb_refl.
    + intros [k' v'] Hin. simpl. apply String.eqb_neq. intros ->.
      apply Hx. apply in_map_iff. exists (key, v'). split; [reflexivity|].
      now apply in_rev.
  - now apply IH.
Qed.

Lemma card_keys_distinct user cards :
  NoDup (map id cards) -> NoDup (map (card_key user) cards).
Proof.
  induction cards as [|c cards IH]; simpl; intros H; [constructor|].
  inversion H as [|x xs Hx Hl]; subst. constructor; [|now apply IH].
  intros Hin. apply in_map_iff in Hin. destruct Hin as (c' & E & Hc).
  unfold card_key in E. do 3 apply append_inj_l in E.
  apply Hx. rewrite <- E. now apply in_map.
Qed.

(** After a save that returns, each saved card is what the store holds
    under its key. *)
Lemma save_stored env cards user originalNotes w :
  NoDup (map id cards) ->
  match saveFlashcards env cards user originalNotes w with
  | (Returned saved, w') =>
      map card saved = cards /\
      forall s, In s saved ->
        userId s = user /\ kv_get (card_key user (card s)) w' = Some (Saved s)
  | (Thrown _, _) => True
  end.
Proof.
  intros Hn.
  destruct (saveFlashcards_run env cards user originalNotes w) as (k & Hw & Ho).
  destruct (saveFlashcards env cards user originalNotes w) as [[saved|e] w'];
    [|exact I].
  cbn [fst snd] in *. destruct Ho as [-> ->].
  rewrite firstn_all in Hw. split.
  - rewrite map_map. cbn [card]. apply map_id.
  - intros s Hs. apply in_map_iff in Hs. destruct Hs as (c & <- & Hc).
    cbn [userId card]. split; [reflexivity|].
    unfold kv_get. rewrite Hw. unfold batch. rewrite rev_app_distr. cbn [rev].
    rewrite <- !app_assoc.
    rewrite (last_write _ (card_key user c)
               (Saved (mkSaved c user
                         ("note_" +:+ Js.show_N (Date_now (chance_at env (tick w))))
                         (Date_now (chance_at env (tick w)))))).
    + reflexivity.
    + rewrite map_map. cbn [fst]. now apply card_keys_distinct.
    + apply in_map_iff. exists c. split; [reflexivity|exact Hc].
Qed.

Lemma heuristic_path_stored env notes user target w :
  match heuristic_path env notes user target w with
  | (Returned r, w') =>
      listed_and_stored user r w' /\
      exists saved n, r = Json200 saved n /\ n <= target
  | (Thrown _, _) => True
  end.
Proof.
  unfold heuristic_path, bind, draw, ret. cbv beta.
  match goal with
  | |- context [saveFlashcards env ?c user notes ?x] =>
      pose proof (save_stored env c user notes x) as H;
      pose proof (generateAdvancedFlashcards_length
                    (fun i => chance_at env (tick w + i)) notes target) as Hl;
      destruct (saveFlashcards env c user notes x) as [[saved|e] w']
  end; [|exact I].
  destruct H as [Hm Hs]; [apply heuristic_distinct|].
  split; [|eexists; eexists; split; [reflexivity|exact Hl]].
  cbn [listed_and_stored]. split; [now rewrite <- Hm, length_map|].
  split; [|exact Hs].
  rewrite <- (map_map card id), Hm. apply heuristic_distinct.
Qed.

Lemma ai_path_stored env notes user target apiKey w :
  match ai_path env notes user target apiKey w with
  | (Returned r, w') =>
      listed_and_stored user r w' /\
      exists saved n, r = Json200 saved n /\ n <= target
  | (Thrown _, _) => True
  end.
Proof.
  unfold ai_path, bind, ret. cbv beta.
  pose proof (coordinator_distinct env notes target apiKey w) as Hd.
  pose proof (coordinator_outcome env notes target apiKey w) as Hl.
  destruct (generateFlashcardsWithProgress env notes target apiKey w)
    as [[cards|e] w1]; [|exact I].
  cbn [fst] in Hd, Hl. destruct Hd as [Hn _].
  pose proof (save_stored env cards user notes w1 Hn) as H.
  destruct (saveFlashcards env cards user notes w1) as [[saved|e] w']; [|exact I].
  destruct H as [Hm Hs].
  split; [|eexists; eexists; split; [reflexivity|exact Hl]].
  cbn [listed_and_stored]. split; [now rewrite <- Hm, length_map|].
  split; [|exact Hs]. now rewrite <- (map_map card id), Hm.
Qed.

Lemma calculateQuestionCount_bound notes : calculateQuestionCount notes <= 30.
Proof.
  unfold calculateQuestionCount.
  destruct (_ <? 100); [lia|]. destruct (_ <? 300); [lia|].
  destruct (_ <? 600); lia.
Qed.

(** An answer with cards: where it comes from and what it promises. *)
Lemma handler_answer_stored env request w saved totalGenerated w' :
  generate_flashcards env request w = (Json200 saved totalGenerated, w') ->
  exists notes user,
    request = Body (JsString notes) user /\ notes <> "" /\
    totalGenerated <= calculateQuestionCount notes /\
    listed_and_stored user (Json200 saved totalGenerated) w'.
Proof.
  unfold generate_flashcards.
  destruct (handler_body env request w) as [[r|e] w1] eqn:E; [|discriminate].
  intros [= -> ->].
  destruct request as [|[| | | |notes|] user]; try discriminate E.
  cbn [handler_body] in E. exists notes, user.
  destruct (notes =? "")%string eqn:En; [discriminate E|].
  apply String.eqb_neq in En. split; [reflexivity|]. split; [exact En|].
  assert (H : listed_and_stored user (Json200 saved totalGenerated) w' /\
              exists saved' n, Json200 saved totalGenerated = Json200 saved' n /\
                               n <= calculateQuestionCount notes).
  { pose proof (heuristic_path_stored env notes user (calculateQuestionCount notes))
      as Hh.
    destruct (HUGGINGFACE_API_KEY env) as [[|c key]|].
    - specialize (Hh w). now rewrite E in Hh.
    - unfold try_catch in E.
      pose proof (ai_path_stored env notes user (calculateQuestionCount notes)
                    (String c key) w) as Ha.
      destruct (ai_path env notes user (calculateQuestionCount notes) (String c key) w)
        as [[r|e] w2].
      + injection E as -> ->. exact Ha.
      + specialize (Hh w2). now rewrite E in Hh.
    - specialize (Hh w). now rewrite E in Hh. }
  destruct H as [Hl (saved' & n & [= <- <-] & Hle)]. split; assumption.
Qed.

(** X15. An answer with cards comes from a body whose notes are a string
    that is not empty.  Its count is the number of cards listed, which is
    at most the estimate for the notes and at most 30; no two cards listed
    share an id; and each card listed belongs to the user of the request
    and is what the store holds under the key of the card once the request
    is done. *)
Theorem answered_cards_are_stored env request w saved totalGenerated w' :
  generate_flashcards env request w = (Json200 saved totalGenerated, w') ->
  exists notes user,
    request = Body (JsString notes) user /\ notes <> "" /\
    totalGenerated = List.length saved /\
    totalGenerated <= calculateQuestionCount notes /\
    totalGenerated <= 30 /\
    NoDup (map (fun s => id (card s)) saved) /\
    forall s, In s saved ->
      userId s = user /\ kv_get (card_key user (card s)) w' = Some (Saved s).
Proof.
  intros E. destruct (handler_answer_stored _ _ _ _ _ _ E)
    as (notes & user & Hr & Hne & Hle & Hn & Hd & Hs).
  exists notes, user. pose proof (calculateQuestionCount_bound notes).
  repeat split; try assumption; try lia; now apply Hs.
Qed.

Lemma answered_cards_are_stored_witness :
  exists saved w',
    generate_flashcards no_key (Body (JsString mito) "u1") dawn
    = (Json200 saved 2, w') /\
    forall s, In s saved -> kv_get (card_key "u1" (card s)) w' = Some (Saved s).
Proof.
  destruct (generate_flashcards no_key (Body (JsString mito) "u1") dawn)
    as [r w'] eqn:E.
  assert (Hr : exists saved, r = Json200 saved 2).
  { apply (f_equal fst) in E. cbn [fst] in E. rewrite <- E.
    vm_compute. eexists. reflexivity. }
  destruct Hr as [saved ->]. exists saved, w'. split; [reflexivity|].
  destruct (answered_cards_are_stored no_key _ dawn saved 2 w' E)
    as (notes & user & [= <- <-] & _ & _ & _ & _ & _ & Hs).
  intros s Hin. now apply Hs.
Defined.

(** ** The request handler, further *)

Lemma no_progress l :
  (forall e, In e l -> forall p, snd e <> Progress p) -> progress_records l = [].
Proof.
  induction l as [|e l IH]; intros H; [reflexivity|].
  unfold progress_records in *. cbn [flat_map]. rewrite IH.
  - destruct (snd e) as [p| |] eqn:E; try reflexivity.
    exfalso. apply (H e (or_introl eq_refl) p E).
  - intros e' He'. apply H. now right.
Qed.

Lemma batch_no_progress cards user originalNotes timestamp k :
  progress_records (firstn k (batch cards user originalNotes timestamp)) = [].
Proof.
  apply no_progress. intros e He p. apply In_firstn in He. unfold batch in He.
  destruct He as [<-|He]; [discriminate|].
  apply in_map_iff in He. destruct He as (c & <- & _). discriminate.
Qed.

Lemma save_each_requests env cards user note timestamp : forall w,
  requests (snd (save_each env cards user note timestamp w)) = requests w.
Proof.
  induction cards as [|c rest IH]; intros w; [reflexivity|].
  cbn [save_each]. unfold bind, kv_set, ret. cbv beta.
  destruct (kv_fault env (tick w)); [reflexivity|].
  match goal with
  | |- context [save_each env rest user note timestamp ?x] =>
      specialize (IH x);
      destruct (save_each env rest user note timestamp x) as [[saved|e] w1]
  end; exact IH.
Qed.

Lemma saveFlashcards_requests env cards user originalNotes w :
  requests (snd (saveFlashcards env cards user originalNotes w)) = requests w.
Proof.
  unfold saveFlashcards, bind, date_now, kv_set. cbv beta.
  cbn [tick advance kv_writes requests].
  destruct (kv_fault env (tick w + 1)); [reflexivity|].
  now rewrite save_each_requests.
Qed.

(** The heuristic path calls no service and writes no progress record. *)
Lemma heuristic_path_quiet env notes user target w :
  requests (snd (heuristic_path env notes user target w)) = requests w /\
  progress_records (written_between w (snd (heuristic_path env notes user target w)))
  = [].
Proof.
  unfold heuristic_path, bind, draw, ret. cbv beta.
  match goal with
  | |- context [saveFlashcards env ?c user notes ?x] =>
      pose proof (saveFlashcards_requests env c user notes x) as Hr;
      destruct (saveFlashcards_run env c user notes x) as (k & Hw & _);
      destruct (saveFlashcards env c user notes x) as [[saved|e] w']
  end; cbn [fst snd requests kv_writes advance] in *;
    (split; [exact Hr|]);
    rewrite (written_between_app w w' _ Hw); apply batch_no_progress.
Qed.

(** X16. Without a credential, whatever the request, the handler calls
    the service not once and writes no progress record. *)
Theorem without_credential_no_service_call env request w :
  HUGGINGFACE_API_KEY env = None \/ HUGGINGFACE_API_KEY env = Some "" ->
  let answer := generate_flashcards env request w in
  requests (snd answer) = requests w /\
  progress_records (written_between w (snd answer)) = [].
Proof.
  intros Hkey. cbv zeta. unfold generate_flashcards.
  assert (Hnil : progress_records (written_between w w) = []).
  { unfold written_between. now rewrite skipn_all. }
  pose proof (fun notes user =>
                heuristic_path_quiet env notes user (calculateQuestionCount notes) w)
    as Hh.
  destruct request as [|[| | | |notes|] user]; cbn [handler_body]; unfold ret;
    cbn [fst snd]; try (split; [reflexivity|exact Hnil]).
  destruct (notes =? "")%string; [split; [reflexivity|exact Hnil]|].
  specialize (Hh notes user).
  destruct Hkey as [-> | ->];
    destruct (heuristic_path env notes user (calculateQuestionCount notes) w)
      as [[r|e] w']; exact Hh.
Qed.

Lemma without_credential_no_service_call_witness :
  requests (snd (generate_flashcards no_key (Body (JsString mito) "u1") dawn)) = [] /\
  progress_records
    (written_between dawn
       (snd (generate_flashcards no_key (Body (JsString mito) "u1") dawn))) = [].
Proof.
  exact (without_credential_no_service_call no_key (Body (JsString mito) "u1") dawn
           (or_introl eq_refl)).
Defined.

Lemma steady_ret {A} (a : A) : steady (ret a).
Proof. intros w. reflexivity. Qed.

Lemma steady_bind {A B} (m : M A) (k : A -> M B) :
  steady m -> (forall a, steady (k a)) -> steady (bind m k).
Proof.
  intros Hm Hk w. unfold bind. specialize (Hm w).
  destruct (m w) as [[a|e] w1]; cbn [snd] in *; [|exact Hm].
  specialize (Hk a w1). lia.
Qed.

Lemma steady_try {A} (m : M A) (handler : Exn -> M A) :
  steady m -> (forall e, steady (handler e)) -> steady (try_catch m handler).
Proof.
  intros Hm Hh w. unfold try_catch. specialize (Hm w).
  destruct (m w) as [[a|e] w1]; cbn [snd] in *; [exact Hm|].
  specialize (Hh e w1). lia.
Qed.

Lemma steady_kv_set env key value : steady (kv_set env key value).
Proof. intros w. unfold kv_set. destruct (kv_fault env (tick w)); simpl; lia. Qed.

Lemma steady_fetch env request : steady (fetch env request).
Proof. intros w. unfold fetch. destruct (service env (tick w)); simpl; lia. Qed.

Lemma steady_draw {A} env span (f : (nat -> Chance) -> A) : steady (draw env span f).
Proof. intros w. simpl. lia. Qed.

Lemma steady_date_now env : steady (date_now env).
Proof. intros w. simpl. lia. Qed.

Lemma steady_for_each {A S} (l : list A) (body : S -> A -> M S) :
  (forall s x, steady (body s x)) -> forall s, steady (for_each l body s).
Proof.
  intros Hb. induction l as [|x l IH]; intros s; simpl; [apply steady_ret|].
  apply steady_bind; [apply Hb|exact IH].
Qed.

Ltac steady_step :=
  first [ apply steady_ret | apply steady_kv_set | apply steady_fetch
        | apply steady_draw | apply steady_date_now
        | apply steady_bind; [|intros ?] | apply steady_try; [|intros ?] ].

Lemma steady_save_each env cards user note timestamp :
  steady (save_each env cards user note timestamp).
Proof.
  induction cards as [|c rest IH]; simpl; [apply steady_ret|].
  apply steady_bind; [apply steady_kv_set|]. intros _.
  apply steady_bind; [exact IH|]. intros saved. apply steady_ret.
Qed.

Lemma steady_saveFlashcards env cards user originalNotes :
  steady (saveFlashcards env cards user originalNotes).
Proof.
  unfold saveFlashcards. apply steady_bind; [apply steady_date_now|]. intros now.
  apply steady_bind; [apply steady_kv_set|]. intros _. apply steady_save_each.
Qed.

Lemma steady_tier_round env notes targetQuestions apiKey sessionId flashcards questionType :
  steady (tier_round env notes targetQuestions apiKey sessionId flashcards questionType).
Proof.
  unfold tier_round. apply steady_try; [|intros; apply steady_ret].
  apply steady_bind; [apply steady_fetch|].
  intros [generatedText|]; cbv zeta; repeat steady_step.
Qed.

Lemma steady_coordinator env notes targetQuestions apiKey :
  steady (generateFlashcardsWithProgress env notes targetQuestions apiKey).
Proof.
  unfold generateFlashcardsWithProgress.
  apply steady_bind; [apply steady_date_now|]. intros now.
  apply steady_bind; [apply steady_kv_set|]. intros _.
  apply steady_bind;
    [apply steady_for_each; intros; apply steady_tier_round|]. intros fl.
  apply steady_bind; [destruct (_ <? _); repeat steady_step|].
  intros gathered. repeat steady_step.
Qed.

Lemma steady_ai_path env notes user targetQuestions apiKey :
  steady (ai_path env notes user targetQuestions apiKey).
Proof.
  unfold ai_path. apply steady_bind; [apply steady_coordinator|]. intros cards.
  apply steady_bind; [apply steady_saveFlashcards|]. intros saved. apply steady_ret.
Qed.

(** X17. The generic error is the answer to a body that cannot be read,
    with nothing done; and an answer that is the generic error means that
    the body could not be read or that the store refused a write during
    the request: a service that fails, or a missing credential, never
    brings it about. *)
Theorem generic_error_causes env request w :
  generate_flashcards env Unreadable w = (Json500 "Failed to generate flashcards", w) /\
  forall e w',
    generate_flashcards env request w = (Json500 e, w') ->
    e = "Failed to generate flashcards" /\
    (request = Unreadable \/ exists t, tick w <= t /\ kv_fault env t = true).
Proof.
  split; [reflexivity|]. intros e w'. unfold generate_flashcards.
  destruct (handler_body env request w) as [[r|x] w1] eqn:E.
  - intros [= -> ->]. exfalso.
    destruct request as [|[| | | |notes|] user]; try discriminate E.
    cbn [handler_body] in E. destruct (notes =? "")%string; [discriminate E|].
    assert (H : exists saved n, Json500 e = Json200 saved n /\
                                n <= calculateQuestionCount notes);
      [|destruct H as (? & ? & H & _); discriminate H].
    pose proof (fun w0 =>
                  heuristic_path_stored env notes user (calculateQuestionCount notes) w0)
      as Hh.
    destruct (HUGGINGFACE_API_KEY env) as [[|c key]|].
    + specialize (Hh w). rewrite E in Hh. apply Hh.
    + unfold try_catch in E.
      pose proof (ai_path_stored env notes user (calculateQuestionCount notes)
                    (String c key) w) as Ha.
      destruct (ai_path env notes user (calculateQuestionCount notes) (String c key) w)
        as [[r|x] w2].
      * injection E as -> ->. apply Ha.
      * specialize (Hh w2). rewrite E in Hh. apply Hh.
    + specialize (Hh w). rewrite E in Hh. apply Hh.
  - intros [= <- <-]. split; [reflexivity|].
    destruct request as [|[| | | |notes|] user]; try discriminate E; [now left|].
    right. cbn [handler_body] in E. destruct (notes =? "")%string; [discriminate E|].
    pose proof (fun w0 =>
                  heuristic_path_spec env notes user (calculateQuestionCount notes) w0)
      as Hh.
    destruct (HUGGINGFACE_API_KEY env) as [[|c key]|].
    + specialize (Hh w). rewrite E in Hh. exact Hh.
    + unfold try_catch in E.
      pose proof (steady_ai_path env notes user (calculateQuestionCount notes)
                    (String c key) w) as Ht.
      destruct (ai_path env notes user (calculateQuestionCount notes) (String c key) w)
        as [[r|x'] w2]; [discriminate E|].
      specialize (Hh w2). rewrite E in Hh. cbn [fst snd] in *.
      destruct Hh as (t & Ht' & Hf). exists t. split; [lia|exact Hf].
    + specialize (Hh w). rewrite E in Hh. exact Hh.
Qed.

Lemma generic_error_causes_witness :
  exists t, kv_fault store_down t = true.
Proof.
  destruct (generate_flashcards store_down (Body (JsString mito) "u1") dawn)
    as [r w'] eqn:E.
  assert (Hr : r = Json500 "Failed to generate flashcards").
  { apply (f_equal fst) in E. cbn [fst] in E. rewrite <- E. vm_compute. reflexivity. }
  subst r.
  destruct (proj2 (generic_error_causes store_down (Body (JsString mito) "u1") dawn)
              _ _ E) as [_ [H|(t & _ & H)]]; [discriminate H|].
  now exists t.
Defined.

Lemma save_nothing env user originalNotes w :
  kv_fault env (tick w + 1) = false ->
  saveFlashcards env [] user originalNotes w
  = (Returned [],
     {| tick := tick w + 1 + 1;
        kv_writes := kv_writes w
                     ++ [note_record user originalNotes
                           (Date_now (chance_at env (tick w)))];
        requests := requests w |}).
Proof.
  intros H. unfold saveFlashcards, bind, date_now, kv_set. cbv beta.
  cbn [tick advance kv_writes requests]. rewrite H. reflexivity.
Qed.

(** X18. Notes for which the estimate is no card at all are answered with
    success, an empty list and a count of 0 when the store takes every
    write, with or without a credential; and the note is stored all the
    same. *)
Theorem short_notes_answered_empty env notes user w :
  notes <> "" -> calculateQuestionCount notes = 0 ->
  (forall t, kv_fault env t = false) ->
  let answer := generate_flashcards env (Body (JsString notes) user) w in
  fst answer = Json200 [] 0 /\
  exists timestamp,
    In (note_record user notes timestamp) (written_between w (snd answer)).
Proof.
  intros Hne H0 Hk. cbv zeta. unfold generate_flashcards. cbn [handler_body].
  apply String.eqb_neq in Hne. rewrite Hne, H0.
  assert (Hh : forall w0 l,
             kv_writes w0 = kv_writes w ++ l ->
             let r := heuristic_path env notes user 0 w0 in
             fst r = Returned (Json200 [] 0) /\
             exists timestamp,
               In (note_record user notes timestamp) (written_between w (snd r))).
  { intros w0 l Hl. cbv zeta. unfold heuristic_path, bind, draw, ret. cbv beta.
    cbn [generateAdvancedFlashcards firstn]. unfold generateAdvancedFlashcards.
    cbn [firstn]. rewrite save_nothing by apply Hk. cbn [fst snd].
    split; [reflexivity|]. eexists.
    erewrite written_between_app;
      [|cbn [kv_writes advance]; rewrite Hl, <- app_assoc; reflexivity].
    apply in_or_app. right. left. reflexivity. }
  assert (Ha : forall apiKey,
             let r := ai_path env notes user 0 apiKey w in
             fst r = Returned (Json200 [] 0) /\
             exists timestamp,
               In (note_record user notes timestamp) (written_between w (snd r))).
  { intros apiKey. cbv zeta. unfold ai_path, bind, ret. cbv beta.
    destruct (coordinator_spec env notes 0 apiKey w)
      as [(Hf & _)|(_ & _ & g & ps & _ & _ & [((t & Ht) & _)|(Hr & Hw)])].
    - rewrite Hk in Hf. discriminate Hf.
    - rewrite Hk in Ht. discriminate Ht.
    - destruct (generateFlashcardsWithProgress env notes 0 apiKey w) as [o w1].
      cbn [fst snd] in Hr, Hw. subst o. cbn [firstn].
      rewrite save_nothing by apply Hk. cbn [fst snd List.length].
      split; [reflexivity|]. eexists.
      erewrite written_between_app;
        [|cbn [kv_writes]; rewrite Hw, <- app_assoc; reflexivity].
      apply in_or_app. right. left. reflexivity. }
  assert (Hw0 : kv_writes w = kv_writes w ++ []) by now rewrite app_nil_r.
  destruct (HUGGINGFACE_API_KEY env) as [[|c key]|].
  - destruct (Hh w [] Hw0) as [E1 E2].
    destruct (heuristic_path env notes user 0 w) as [o w']. cbn [fst snd] in *.
    subst o. cbn [fst snd]. auto.
  - unfold try_catch. destruct (Ha (String c key)) as [E1 E2].
    destruct (ai_path env notes user 0 (String c key) w) as [o w']. cbn [fst snd] in *.
    subst o. cbn [fst snd]. auto.
  - destruct (Hh w [] Hw0) as [E1 E2].
    destruct (heuristic_path env notes user 0 w) as [o w']. cbn [fst snd] in *.
    subst o. cbn [fst snd]. auto.
Qed.

Lemma short_notes_answered_empty_witness :
  fst (generate_flashcards silent_service (Body (JsString "Too short.") "u1") dawn)
  = Json200 [] 0.
Proof.
  refine (proj1 (short_notes_answered_empty silent_service "Too short." "u1" dawn
                   _ _ (fun _ => eq_refl))).
  - discriminate.
  - vm_compute. reflexivity.
Defined.

(** ** The progress endpoint *)

(** X19. When the AI coordinator returns, a poll of the progress endpoint
    for the session of the run reads the completed record of the run: its
    total is the target, and the number of cards returned is its count
    capped at the target.  The coordinator returns unless the store refuses
    a write. *)
Theorem poll_after_run_reads_completed env notes targetQuestions apiKey w :
  let sessionId := "session_" +:+ Js.show_N (Date_now (chance_at env (tick w))) in
  let run := generateFlashcardsWithProgress env notes targetQuestions apiKey w in
  match fst run with
  | Returned cards =>
      exists gathered,
        generation_progress sessionId (snd run)
        = mkProgress gathered targetQuestions completed /\
        List.length cards = Nat.min gathered targetQuestions
  | Thrown _ => exists t, kv_fault env t = true
  end.
Proof.
  cbv zeta.
  destruct (coordinator_spec env notes targetQuestions apiKey w)
    as [(Hf & -> & _)|(_ & _ & g & ps & _ & _ & [(Ht & -> & _)|(-> & Hw)])].
  - eauto.
  - exact Ht.
  - exists (List.length g). split.
    + unfold generation_progress, kv_get. rewrite Hw.
      rewrite map_app, app_assoc, rev_app_distr. cbn [map rev app find fst].
      unfold progress_write at 1. cbn [fst]. rewrite String.eqb_refl. reflexivity.
    + rewrite length_firstn. lia.
Qed.

(** ** The study view *)

Lemma trim_unspaced s :
  Js.all_chars (fun c => negb (Js.is_space c)) s = true -> Js.trim s = s.
Proof.
  intros H. unfold Js.trim.
  assert (E : Js.trimStart s = s).
  { destruct s as [|c s]; [reflexivity|]. simpl in *.
    apply andb_true_iff in H. destruct H as [Hc _].
    apply negb_true_iff in Hc. now rewrite Hc. }
  rewrite E. clear E. induction s as [|c s IH]; [reflexivity|].
  simpl in *. apply andb_true_iff in H. destruct H as [Hc Hs].
  apply negb_true_iff in Hc. rewrite (IH Hs), Hc. now destruct s.
Qed.

Lemma filter_chars_none p s :
  Js.all_chars (fun c => negb (p c)) s = true -> Js.filter_chars p s = "".
Proof.
  induction s as [|c s IH]; simpl; [reflexivity|]. intros H.
  apply andb_true_iff in H. destruct H as [Hc Hs].
  apply negb_true_iff in Hc. now rewrite Hc, IH.
Qed.

Lemma lower_char_mark c : is_mark c = true -> is_mark (Js.lower_char c) = true.
Proof. destruct c as [[] [] [] [] [] [] [] []]; intros H; try reflexivity; discriminate H. Qed.

Lemma all_chars_map p f s :
  (forall c, p c = true -> p (f c) = true) ->
  Js.all_chars p s = true -> Js.all_chars p (Js.map_chars f s) = true.
Proof.
  intros Hf. induction s as [|c s IH]; simpl; [reflexivity|]. intros H.
  apply andb_true_iff in H. destruct H as [Hc Hs]. now rewrite (Hf c Hc), IH.
Qed.

Lemma normalizeAnswer_marks input :
  Js.all_chars is_mark input = true -> Viewer.normalizeAnswer input = "".
Proof.
  intros H. unfold Viewer.normalizeAnswer.
  assert (Hl : Js.all_chars is_mark (Js.toLowerCase input) = true)
    by (apply all_chars_map; [exact lower_char_mark|exact H]).
  rewrite trim_unspaced.
  - rewrite filter_chars_none; [reflexivity|].
    apply (all_chars_impl is_mark); [|exact Hl].
    intros c Hc. unfold is_mark in Hc. apply andb_true_iff in Hc.
    destruct Hc as [H1 H2]. apply negb_true_iff in H1, H2. now rewrite H1, H2.
  - apply (all_chars_impl is_mark); [|exact Hl].
    intros c Hc. unfold is_mark in Hc. apply andb_true_iff in Hc. apply Hc.
Qed.

(** X20. An input made of punctuation only is recorded as a correct
    answer, whatever the answer of the card is: it is not blank, so it is
    checked, and it normalises to the empty string, which every answer
    contains. *)
Theorem punctuation_is_accepted currentAttempt input cardAnswer :
  input <> "" -> Js.all_chars is_mark input = true ->
  exists newAttempt,
    Viewer.checkAnswer currentAttempt input cardAnswer = Some newAttempt /\
    Viewer.isCorrect newAttempt = true /\
    Viewer.showAnswer newAttempt = false /\
    Viewer.attempts newAttempt = Viewer.attempts currentAttempt + 1.
Proof.
  intros Hne Hm. unfold Viewer.checkAnswer.
  rewrite trim_unspaced.
  - destruct (input =? "")%string eqn:E; [apply String.eqb_eq in E; contradiction|].
    eexists. split; [reflexivity|]. cbn [Viewer.isCorrect Viewer.showAnswer
                                          Viewer.attempts].
    assert (Hv : Viewer.verdict input cardAnswer = true).
    { unfold Viewer.verdict. rewrite (normalizeAnswer_marks input Hm).
      rewrite (includes_unfold (Viewer.normalizeAnswer cardAnswer) "").
      cbn [prefix]. destruct (Viewer.normalizeAnswer cardAnswer);
        now rewrite orb_true_r. }
    rewrite Hv. auto.
  - apply (all_chars_impl is_mark); [|exact Hm].
    intros c Hc. unfold is_mark in Hc. apply andb_true_iff in Hc. apply Hc.
Qed.

Lemma punctuation_is_accepted_witness :
  exists newAttempt,
    Viewer.checkAnswer Viewer.no_attempt "?!" "Mitochondria" = Some newAttempt /\
    Viewer.isCorrect newAttempt = true.
Proof.
  destruct (punctuation_is_accepted Viewer.no_attempt "?!" "Mitochondria")
    as (a & H1 & H2 & _); [discriminate|reflexivity|].
  exists a. split; assumption.
Defined.

Lemma lower_char_normal c :
  Js.is_word (Js.lower_char c) || Js.is_space (Js.lower_char c) = true ->
  is_normal (Js.lower_char c) || Js.is_space (Js.lower_char c) = true.
Proof. destruct c as [[] [] [] [] [] [] [] []]; intros H; try reflexivity; discriminate H. Qed.

Lemma all_chars_trim p s : Js.all_chars p s = true -> Js.all_chars p (Js.trim s) = true.
Proof.
  intros H. unfold Js.trim.
  destruct (trimStart_suffix s) as [a Ha].
  destruct (trimEnd_prefix (Js.trimStart s)) as [b Hb].
  rewrite Ha, all_chars_append in H. apply andb_true_iff in H. destruct H as [_ H].
  rewrite Hb, all_chars_append in H. apply andb_true_iff in H. apply H.
Qed.

Lemma all_chars_filter p q s :
  Js.all_chars p s = true -> Js.all_chars p (Js.filter_chars q s) = true.
Proof.
  induction s as [|c s IH]; simpl; [reflexivity|]. intros H.
  apply andb_true_iff in H. destruct H as [Hc Hs].
  destruct (q c); simpl; [rewrite Hc|]; now apply IH.
Qed.

Lemma all_chars_and p q s :
  Js.all_chars p s = true -> Js.all_chars q s = true ->
  Js.all_chars (fun c => p c && q c) s = true.
Proof.
  induction s as [|c s IH]; simpl; [reflexivity|]. intros H1 H2.
  apply andb_true_iff in H1, H2. destruct H1 as [-> H1]. destruct H2 as [-> H2].
  now apply IH.
Qed.

Lemma collapse_normal s : forall in_run,
  Js.all_chars (fun c => is_normal c || Js.is_space c) s = true ->
  Js.all_chars is_normal (Viewer.collapse_from in_run s) = true.
Proof.
  induction s as [|c s IH]; intros in_run H; [reflexivity|].
  simpl in H. apply andb_true_iff in H. destruct H as [Hc Hs]. simpl.
  destruct (Js.is_space c) eqn:Es.
  - destruct in_run; simpl; now apply IH.
  - rewrite orb_false_r in Hc. simpl. rewrite Hc. now apply IH.
Qed.

(** Collapsed whitespace leaves no two blanks side by side, and after
    whitespace the next character is no blank. *)
Lemma collapse_single s : forall in_run,
  Js.includes (Viewer.collapse_from in_run s) "  " = false /\
  (in_run = true -> prefix " " (Viewer.collapse_from in_run s) = false).
Proof.
  induction s as [|c s IH]; intros in_run; [split; [reflexivity|]; reflexivity|].
  simpl. destruct (Js.is_space c) eqn:Es.
  - destruct in_run.
    + apply IH.
    + destruct (IH true) as [H1 H2]. split; [|discriminate].
      rewrite includes_cons.
      change (prefix "  " (String " " (Viewer.collapse_from true s)))
        with (prefix " " (Viewer.collapse_from true s)).
      now rewrite (H2 eq_refl).
  - destruct (IH false) as [H1 _]. split.
    + rewrite includes_cons, prefix_cons.
      destruct (ascii_dec " " c) as [<-|_]; [discriminate Es|exact H1].
    + intros _. rewrite prefix_cons.
      destruct (ascii_dec " " c) as [<-|_]; [discriminate Es|reflexivity].
Qed.

(** X21. A normalised answer holds lower-case letters, digits,
    underscores and blanks only, and never two blanks side by side. *)
Theorem normalized_answer_shape answer :
  Js.all_chars is_normal (Viewer.normalizeAnswer answer) = true /\
  Js.includes (Viewer.normalizeAnswer answer) "  " = false.
Proof.
  unfold Viewer.normalizeAnswer. split; [|apply collapse_single].
  apply collapse_normal.
  set (keep := fun c => Js.is_word c || Js.is_space c).
  set (low := fun c => implb (keep c) (is_normal c || Js.is_space c)).
  assert (Hlow : Js.all_chars low (Js.toLowerCase answer) = true).
  { unfold Js.toLowerCase. induction answer as [|c r IH]; simpl; [reflexivity|].
    rewrite IH, andb_true_r. unfold low, keep.
    destruct (Js.is_word (Js.lower_char c) || Js.is_space (Js.lower_char c)) eqn:E;
      [|reflexivity].
    simpl. now apply lower_char_normal. }
  apply all_chars_trim in Hlow.
  generalize dependent (Js.trim (Js.toLowerCase answer)). intros s Hs.
  induction s as [|c s IH]; simpl; [reflexivity|].
  simpl in Hs. apply andb_true_iff in Hs. destruct Hs as [Hc Hs].
  destruct (keep c) eqn:Ek; [|now apply IH].
  simpl. unfold low in Hc. rewrite Ek in Hc. simpl in Hc. rewrite Hc. now apply IH.
Qed.

Lemma check_all_idle rest cardAnswer : forall currentAttempt,
  recorded rest = [] -> Viewer.check_all currentAttempt rest cardAnswer = currentAttempt.
Proof.
  induction rest as [|i rest IH]; intros a E; [reflexivity|].
  cbn [recorded filter] in E. cbn [Viewer.check_all]. unfold Viewer.checkAnswer.
  destruct (Js.trim i =? "")%string; [apply IH, E|discriminate E].
Qed.

Lemma check_all_spec inputs cardAnswer : forall currentAttempt,
  let final := Viewer.check_all currentAttempt inputs cardAnswer in
  Viewer.userAnswers final = Viewer.userAnswers currentAttempt ++ recorded inputs /\
  Viewer.attempts final
  = Viewer.attempts currentAttempt + List.length (recorded inputs) /\
  (recorded inputs <> [] -> Viewer.showAnswer final = true ->
   3 <= Viewer.attempts final /\ Viewer.isCorrect final = false).
Proof.
  induction inputs as [|input rest IH]; intros a; cbv zeta.
  - simpl. rewrite app_nil_r. split; [reflexivity|]. split; [lia|]. now intros [].
  - cbn [Viewer.check_all recorded filter]. unfold Viewer.checkAnswer.
    destruct (Js.trim input =? "")%string eqn:E; cbn [negb]; [apply IH|].
    fold (recorded rest).
    match goal with
    | |- context [Viewer.check_all ?n rest cardAnswer] =>
        destruct (IH n) as (H1 & H2 & H3);
        pose proof (check_all_idle rest cardAnswer n) as En
    end.
    cbn [Viewer.userAnswers Viewer.attempts] in H1, H2.
    split; [rewrite H1, <- app_assoc; reflexivity|].
    split; [rewrite H2; cbn [List.length]; lia|]. intros _ Hs.
    destruct (recorded rest) as [|x l] eqn:Er.
    + rewrite (En eq_refl) in *.
      cbn [Viewer.showAnswer Viewer.attempts Viewer.isCorrect] in *.
      apply andb_true_iff in Hs. destruct Hs as [Hv Hn].
      apply negb_true_iff in Hv. apply Nat.leb_le in Hn. split; [lia|exact Hv].
    + apply H3; [discriminate|exact Hs].
Qed.

(** X22. At one card, whatever is typed and however often: blank inputs
    are ignored; the attempt keeps the other inputs in order and counts
    them; and the answer is shown by the checker only after three attempts
    at least, the last of them wrong. *)
Theorem attempts_are_counted inputs cardAnswer :
  let final := Viewer.check_all Viewer.no_attempt inputs cardAnswer in
  Viewer.userAnswers final = recorded inputs /\
  Viewer.attempts final = List.length (recorded inputs) /\
  (Viewer.showAnswer final = true ->
   3 <= Viewer.attempts final /\ Viewer.isCorrect final = false).
Proof.
  cbv zeta. destruct (check_all_spec inputs cardAnswer Viewer.no_attempt)
    as (H1 & H2 & H3).
  split; [exact H1|]. split; [exact H2|]. intros Hs. apply H3; [|exact Hs].
  intros E. rewrite (check_all_idle inputs cardAnswer _ E) in Hs. discriminate Hs.
Qed.

Lemma attempts_are_counted_witness :
  let final := Viewer.check_all Viewer.no_attempt ["atp"; " "; "dna"; "rna"] "Ribosome" in
  Viewer.showAnswer final = true /\ 3 <= Viewer.attempts final.
Proof.
  cbv zeta.
  assert (Hs : Viewer.showAnswer
                 (Viewer.check_all Viewer.no_attempt ["atp"; " "; "dna"; "rna"]
                    "Ribosome") = true) by (vm_compute; reflexivity).
  split; [exact Hs|].
  exact (proj1 (proj2 (proj2 (attempts_are_counted ["atp"; " "; "dna"; "rna"]
                                "Ribosome")) Hs)).
Defined.

Lemma nextCard_cases (length prev : Z) :
  (0 <= prev < length)%Z ->
  Viewer.nextCard length prev = if (prev =? length - 1)%Z then 0%Z else (prev + 1)%Z.
Proof.
  intros H. unfold Viewer.nextCard. rewrite Z.rem_mod_nonneg by lia.
  destruct (Z.eqb_spec prev (length - 1)) as [->|Hne].
  - replace (length - 1 + 1)%Z with length by lia. apply Z.mod_same. lia.
  - apply Z.mod_small. lia.
Qed.

Lemma prevCard_cases (length prev : Z) :
  (0 <= prev < length)%Z ->
  Viewer.prevCard length prev = if (prev =? 0)%Z then (length - 1)%Z else (prev - 1)%Z.
Proof.
  intros H. unfold Viewer.prevCard. rewrite Z.rem_mod_nonneg by lia.
  destruct (Z.eqb_spec prev 0) as [->|Hne].
  - replace (0 - 1 + length)%Z with (length - 1)%Z by lia. apply Z.mod_small. lia.
  - replace (prev - 1 + length)%Z with (prev - 1 + 1 * length)%Z by lia.
    rewrite Z.mod_add by lia. apply Z.mod_small. lia.
Qed.

(** X23. With at least one card, stepping forward or backward from a
    position of the deck gives a position of the deck, wrapping at either
    end, and each step undoes the other. *)
Theorem navigation_wraps (length prev : Z) :
  (0 <= prev < length)%Z ->
  (0 <= Viewer.nextCard length prev < length)%Z /\
  (0 <= Viewer.prevCard length prev < length)%Z /\
  Viewer.prevCard length (Viewer.nextCard length prev) = prev /\
  Viewer.nextCard length (Viewer.prevCard length prev) = prev /\
  Viewer.nextCard length (length - 1) = 0%Z /\
  Viewer.prevCard length 0 = (length - 1)%Z.
Proof.
  intros H.
  assert (Hn : (0 <= Viewer.nextCard length prev < length)%Z).
  { rewrite nextCard_cases by lia. destruct (Z.eqb_spec prev (length - 1)); lia. }
  assert (Hp : (0 <= Viewer.prevCard length prev < length)%Z).
  { rewrite prevCard_cases by lia. destruct (Z.eqb_spec prev 0); lia. }
  split; [exact Hn|]. split; [exact Hp|]. repeat split.
  - rewrite prevCard_cases by exact Hn. rewrite nextCard_cases in * by lia.
    destruct (Z.eqb_spec prev (length - 1)).
    + rewrite Z.eqb_refl. lia.
    + destruct (Z.eqb_spec (prev + 1) 0); lia.
  - rewrite nextCard_cases by exact Hp. rewrite prevCard_cases in * by lia.
    destruct (Z.eqb_spec prev 0).
    + rewrite Z.eqb_refl. lia.
    + destruct (Z.eqb_spec (prev - 1) (length - 1)); lia.
  - rewrite nextCard_cases by lia. now rewrite Z.eqb_refl.
  - rewrite prevCard_cases by lia. reflexivity.
Qed.

Lemma navigation_wraps_witness :
  Viewer.nextCard 3 2 = 0%Z /\ Viewer.prevCard 3 0 = 2%Z /\
  Viewer.prevCard 3 (Viewer.nextCard 3 2) = 2%Z.
Proof.
  destruct (navigation_wraps 3 2 ltac:(lia)) as (_ & _ & H1 & _ & H2 & H3).
  split; [exact H2|]. split; [exact H3|exact H1].
Defined.

(** ** The upload endpoint *)

Lemma trim_spaces s : Js.all_chars Js.is_space s = true -> Js.trim s = "".
Proof.
  intros H. unfold Js.trim.
  assert (E : Js.trimStart s = "").
  { induction s as [|c s IH]; [reflexivity|]. simpl in *.
    apply andb_true_iff in H. destruct H as [-> H]. now apply IH. }
  now rewrite E.
Qed.

Lemma extractedText_cases f :
  extractedText f
  = if negb (is_plain f) && is_markdown f then strip_markup (file_text f)
    else file_text f.
Proof.
  unfold extractedText, is_plain, is_markdown.
  destruct ((file_type f =? "text/plain")%string || endsWith (file_name f) ".txt");
    [reflexivity|].
  now destruct ((file_type f =? "text/markdown")%string
                || endsWith (file_name f) ".md").
Qed.

(** X24. The upload endpoint answers with success for a file only, of
    10 MB at most, with the name and the size of the file and a text that
    is not blank.  The text is the text of the file as it is, blanks at the
    ends included, unless the file is markdown by type or by name and not
    plain text by type or by name: then it is the text of the file without
    the characters #, * and backquote. *)
Theorem upload_success request text fileName fileSize :
  upload_file request = Upload200 text fileName fileSize ->
  exists f,
    request = FormData (FileEntry f) /\
    fileName = file_name f /\ fileSize = file_size f /\
    (fileSize <= maxSize)%N /\
    Js.trim text <> "" /\
    text = (if negb (is_plain f) && is_markdown f then strip_markup (file_text f)
            else file_text f) /\
    (is_plain f = false -> is_markdown f = true ->
     Js.all_chars (fun c => negb (is_markup c)) text = true).
Proof.
  destruct request as [|[|s|f]]; cbn [upload_file]; try discriminate.
  - destruct (s =? "")%string; discriminate.
  - destruct (maxSize <? file_size f)%N eqn:Es; [discriminate|].
    destruct (Js.trim (extractedText f) =? "")%string eqn:Et; [discriminate|].
    intros [= <- <- <-]. exists f. apply N.ltb_ge in Es. apply String.eqb_neq in Et.
    repeat split; try assumption; try apply extractedText_cases.
    intros Hp Hm. rewrite extractedText_cases, Hp, Hm. apply filter_chars_all.
Qed.

Lemma upload_success_witness :
  upload_file (FormData (FileEntry titled_notes))
  = Upload200 (" Cells" +:+ newline +:+ "Small things") "notes.md" 21 /\
  Js.all_chars (fun c => negb (is_markup c)) (" Cells" +:+ newline +:+ "Small things")
  = true.
Proof.
  assert (E : upload_file (FormData (FileEntry titled_notes))
              = Upload200 (" Cells" +:+ newline +:+ "Small things") "notes.md" 21)
    by (vm_compute; reflexivity).
  split; [exact E|].
  destruct (upload_success _ _ _ _ E) as (f & [= <-] & _ & _ & _ & _ & _ & H).
  apply H; reflexivity.
Defined.

(** X25. A markdown file whose text is made of #, *, backquotes and
    whitespace only is refused for having no text content, whatever its
    size up to the limit. *)
Theorem markup_only_is_refused f :
  is_plain f = false -> is_markdown f = true -> (file_size f <= maxSize)%N ->
  Js.all_chars (fun c => is_markup c || Js.is_space c) (file_text f) = true ->
  upload_file (FormData (FileEntry f)) = Upload400 "No text content found in file".
Proof.
  intros Hp Hm Hs Ht. cbn [upload_file].
  apply N.ltb_ge in Hs. rewrite Hs, extractedText_cases, Hp, Hm. cbn [negb andb].
  rewrite trim_spaces; [reflexivity|].
  unfold strip_markup. induction (file_text f) as [|c s IH]; [reflexivity|].
  simpl in *. apply andb_true_iff in Ht. destruct Ht as [Hc Ht].
  destruct (is_markup c) eqn:Ec; simpl; [now apply IH|].
  simpl in Hc. rewrite Hc. now apply IH.
Qed.

Lemma markup_only_is_refused_witness :
  upload_file (FormData (FileEntry bare_title))
  = Upload400 "No text content found in file".
Proof.
  apply markup_only_is_refused; [reflexivity|reflexivity|discriminate|reflexivity].
Defined.

(** ** The listing endpoint *)

(** A value the store holds under a key is among the values of every
    prefix of the key. *)
Lemma kv_get_listed p key value w :
  kv_get key w = Some value -> prefix p key = true -> In value (kv_getByPrefix p w).
Proof.
  intros Hg Hp. unfold kv_getByPrefix. apply in_flat_map. exists key. split.
  - apply filter_In. split; [|exact Hp]. unfold kv_keys. apply nodup_In.
    unfold kv_get in Hg.
    destruct (find (fun e => (fst e =? key)%string) (rev (kv_writes w)))
      as [e|] eqn:E; [|discriminate Hg].
    apply find_some in E. destruct E as [Hin He]. apply String.eqb_eq in He.
    rewrite <- He. apply in_map. now apply in_rev.
  - rewrite Hg. now left.
Qed.

(** X26. After an answer with cards, the listing endpoint asked for the
    user of the request either fails on its read of the store or returns
    every card of the answer, as the answer gave it. *)
Theorem generated_cards_are_listed env request w saved totalGenerated w' :
  generate_flashcards env request w = (Json200 saved totalGenerated, w') ->
  exists notes user,
    request = Body (JsString notes) user /\
    match fst (get_flashcards env user w') with
    | List200 values => forall s, In s saved -> In (Saved s) values
    | List500 _ => kv_fault env (tick w') = true
    end.
Proof.
  intros E. destruct (handler_answer_stored _ _ _ _ _ _ E)
    as (notes & user & Hr & _ & _ & _ & _ & Hs).
  exists notes, user. split; [exact Hr|]. unfold get_flashcards.
  destruct (kv_fault env (tick w')); [reflexivity|]. cbn [fst].
  intros s Hin. destruct (Hs s Hin) as [_ Hg].
  apply (kv_get_listed _ _ _ _ Hg). unfold card_key.
  assert (Ek : "flashcards:" +:+ user +:+ ":" +:+ id (card s)
               = ("flashcards:" +:+ user +:+ ":") +:+ id (card s))
    by now rewrite !append_assoc.
  rewrite Ek. apply prefix_app.
Qed.

Lemma generated_cards_are_listed_witness :
  exists saved w' values,
    generate_flashcards no_key (Body (JsString mito) "u1") dawn
    = (Json200 saved 2, w') /\
    fst (get_flashcards no_key "u1" w') = List200 values /\
    forall s, In s saved -> In (Saved s) values.
Proof.
  destruct (generate_flashcards no_key (Body (JsString mito) "u1") dawn)
    as [r w'] eqn:E.
  assert (Hr : exists saved, r = Json200 saved 2).
  { apply (f_equal fst) in E. cbn [fst] in E. rewrite <- E.
    vm_compute. eexists. reflexivity. }
  destruct Hr as [saved ->].
  destruct (generated_cards_are_listed no_key _ dawn saved 2 w' E)
    as (notes & user & [= <- <-] & H).
  exists saved, w'. unfold get_flashcards in *. cbn [no_key kv_fault] in *.
  eexists. split; [reflexivity|]. split; [reflexivity|exact H].
Defined.

(** ** The file picker of the client *)

Lemma endsWith_unfold s t :
  endsWith s t
  = if (s =? t)%string then true
    else match s with
         | EmptyString => false
         | String _ r => endsWith r t
         end.
Proof. destruct s; reflexivity. Qed.

Lemma endsWith_lower s t :
  endsWith s t = true -> endsWith (Js.toLowerCase s) (Js.toLowerCase t) = true.
Proof.
  induction s as [|c r IH]; rewrite endsWith_unfold;
    rewrite (endsWith_unfold (Js.toLowerCase _)).
  - destruct (("" =? t)%string) eqn:E; [|discriminate].
    apply String.eqb_eq in E. subst t. reflexivity.
  - destruct ((String c r =? t)%string) eqn:E.
    + apply String.eqb_eq in E. subst t. intros _. now rewrite String.eqb_refl.
    + intros H. apply IH in H.
      destruct ((Js.toLowerCase (String c r) =? Js.toLowerCase t)%string);
        [reflexivity|exact H].
Qed.

(** X27. The file picker reads in the browser every file of 10 MB at most
    that is plain text by type or whose name ends in [.txt] or [.md]: the
    check of types and extensions never refuses such a file, it is not
    sent to the server, and its text is handed over as it is, markdown
    included. *)
Theorem text_files_are_read_in_the_browser file others :
  (file_size file <= maxSize)%N ->
  file_type file = "text/plain" \/ endsWith (file_name file) ".txt" = true
  \/ endsWith (file_name file) ".md" = true ->
  handleFiles (Some (file :: others)) = ReadHere (file_text file) (file_name file).
Proof.
  intros Hs H. cbn [handleFiles]. apply N.ltb_ge in Hs. rewrite Hs.
  assert (Hv : existsb (String.eqb (file_type file)) allowedTypes
               || hasValidExtension file = true).
  { unfold hasValidExtension, allowedTypes, allowedExtensions. cbn [existsb].
    destruct H as [->|[H|H]].
    - reflexivity.
    - apply endsWith_lower in H. change (Js.toLowerCase ".txt") with ".txt" in H.
      rewrite H. now rewrite orb_true_r.
    - apply endsWith_lower in H. change (Js.toLowerCase ".md") with ".md" in H.
      rewrite H. now rewrite !orb_true_r. }
  apply orb_true_iff in Hv.
  assert (Hr : negb (existsb (String.eqb (file_type file)) allowedTypes)
               && negb (hasValidExtension file) = false).
  { destruct Hv as [-> | ->]; [reflexivity|apply andb_false_r]. }
  rewrite Hr.
  assert (Hl : (file_type file =? "text/plain")%string
               || endsWith (file_name file) ".txt"
               || endsWith (file_name file) ".md" = true).
  { destruct H as [->|[->| ->]]; [reflexivity|now rewrite orb_true_r|apply orb_true_r]. }
  now rewrite Hl.
Qed.

Lemma text_files_are_read_in_the_browser_witness :
  handleFiles (Some [titled_notes]) = ReadHere (file_text titled_notes) "notes.md".
Proof.
  apply (text_files_are_read_in_the_browser titled_notes []).
  - discriminate.
  - right. right. reflexivity.
Defined.

(** ** What the heuristic cards are *)

(** X28. Every true/false card of the heuristic coordinator has the answer
    [True]: its question is the label followed by a usable sentence of the
    notes, trimmed, and no card states something for the answer [False]. *)
Theorem true_false_cards_are_true chance notes targetCount card :
  In card (generateAdvancedFlashcards chance notes targetCount) ->
  type card = true_false ->
  answer card = "True" /\
  exists sentence,
    In sentence (sentences_of notes) /\
    question card = "True or False: " +:+ Js.trim sentence.
Proof.
  intros Hin Ht. apply generateAdvancedFlashcards_origin in Hin.
  destruct Hin as (t & cursor & _ & _ & Hb).
  destruct (build_stamp _ _ _ _ _ _ Hb) as [Et _]. rewrite Ht in Et. subst t.
  cbn [build] in Hb. unfold generateTrueFalseCard in Hb.
  destruct (sentences_of notes) as [|s l] eqn:Es; [discriminate Hb|].
  injection Hb as <-. cbn [answer question]. split; [reflexivity|].
  exists (cyclic (s :: l) cursor). split; [|reflexivity].
  apply cyclic_In. discriminate.
Qed.

Lemma true_false_cards_are_true_witness :
  exists card,
    nth_error (generateAdvancedFlashcards (still 7) mito 5) 4 = Some card /\
    answer card = "True".
Proof.
  destruct (nth_error (generateAdvancedFlashcards (still 7) mito 5) 4)
    as [card|] eqn:E; [|vm_compute in E; discriminate E].
  exists card. split; [reflexivity|].
  assert (Et : type card = true_false).
  { vm_compute in E. injection E as <-. reflexivity. }
  exact (proj1 (true_false_cards_are_true (still 7) mito 5 card
                  (nth_error_In _ _ E) Et)).
Defined.

(** X29. Notes without a key term give no definition card and no
    multiple-choice card: the heuristic coordinator returns fill-in-the-blank
    and true/false cards only. *)
Theorem without_key_terms_two_archetypes chance notes targetCount card :
  extractKeyTerms notes = [] ->
  In card (generateAdvancedFlashcards chance notes targetCount) ->
  type card = fill_blank \/ type card = true_false.
Proof.
  intros Hk Hin. apply generateAdvancedFlashcards_origin in Hin.
  destruct Hin as (t & cursor & Ht & _ & Hb).
  destruct (build_stamp _ _ _ _ _ _ Hb) as [Et _]. rewrite Et.
  rewrite Hk in Hb. simpl in Ht.
  destruct Ht as [<-|[<-|[<-|[<-|[]]]]]; auto; cbn [build] in Hb.
  - discriminate Hb.
  - unfold generateMultipleChoiceCard in Hb. discriminate Hb.
Qed.

Lemma without_key_terms_two_archetypes_witness :
  forallb (fun c => match type c with fill_blank | true_false => true | _ => false end)
    (generateAdvancedFlashcards (still 7) one_sentence 1) = true /\
  generateAdvancedFlashcards (still 7) one_sentence 1 <> [].
Proof.
  split; [|vm_compute; discriminate].
  apply forallb_forall. intros card Hin.
  destruct (without_key_terms_two_archetypes (still 7) one_sentence 1 card eq_refl Hin)
    as [-> | ->]; reflexivity.
Defined.
